(** * Sam Text: the text-statistics / autosave / persistence core of
    [script.js] (class [SamTextApp]), embedded in Rocq.

    JavaScript strings are sequences of UTF-16 code units; they are modelled
    as lists of [N].  The browser objects the class talks to (the textarea,
    [localStorage], the timer queue, [confirm], [console]) are fields of an
    explicit [World] threaded through a small state-and-exception monad. *)

From Stdlib Require Import ZArith NArith Lia List Bool.
From stdpp Require Import base tactics option list strings gmap.

Local Open Scope N_scope.

(* ===================================================================== *)
(** ** Strings *)
(* ===================================================================== *)

(** A JavaScript string: its UTF-16 code units. *)
Abbreviation jsstring := (list N).

(** An ASCII literal as a JavaScript string. *)
Definition str (s : string) : jsstring :=
  map Ascii.N_of_ascii (String.list_ascii_of_string s).

(** ECMAScript [WhiteSpace]: TAB, VT, FF, ZWNBSP and the Unicode space
    separators (category Zs). *)
Definition isWhiteSpace (c : N) : bool :=
  (c =? 9) || (c =? 11) || (c =? 12) || (c =? 32) || (c =? 160)
  || (c =? 5760) || ((8192 <=? c) && (c <=? 8202)) || (c =? 8239)
  || (c =? 8287) || (c =? 12288) || (c =? 65279).

(** ECMAScript [LineTerminator]: LF, CR, LS, PS. *)
Definition isLineTerminator (c : N) : bool :=
  (c =? 10) || (c =? 13) || (c =? 8232) || (c =? 8233).

(** The characters removed by [String.prototype.trim] and matched by the
    regular expression class [\s]: both are WhiteSpace + LineTerminator. *)
Definition is_space (c : N) : bool := isWhiteSpace c || isLineTerminator c.

(** [String.prototype.trimStart]. *)
Fixpoint trimStart (s : jsstring) : jsstring :=
  match s with
  | [] => []
  | c :: r => if is_space c then trimStart r else s
  end.

(** [String.prototype.trimEnd]. *)
Definition trimEnd (s : jsstring) : jsstring := rev (trimStart (rev s)).

(** [String.prototype.trim]. *)
Definition trim (s : jsstring) : jsstring := trimEnd (trimStart s).

(** [cons_head c ps] puts [c] in front of the first piece of [ps]. *)
Definition cons_head (c : N) (ps : list jsstring) : list jsstring :=
  match ps with
  | p :: ps' => (c :: p) :: ps'
  | [] => [[c]]
  end.

(** [s.split(sep)] for a one-character separator string [sep]: the pieces
    between the occurrences of [sep]; the empty string gives one empty
    piece. *)
Fixpoint split_on (sep : N) (s : jsstring) : list jsstring :=
  match s with
  | [] => [[]]
  | c :: r => if c =? sep then [] :: split_on sep r
              else cons_head c (split_on sep r)
  end.

(** [s.split(/\s+/)]: the regular expression is tried at every index [q];
    it matches there iff [s[q]] is a space character, and the greedy [\s+]
    then consumes the whole run.  [insep] says that the character before
    the current one belongs to such a match.  A match at the start or at
    the end of [s] produces an empty first or last piece. *)
Fixpoint split_ws (insep : bool) (s : jsstring) : list jsstring :=
  match s with
  | [] => [[]]
  | c :: r =>
      if is_space c then
        if insep then split_ws true r else [] :: split_ws true r
      else cons_head c (split_ws false r)
  end.

(** [l.join(sep)] for an array of strings. *)
Fixpoint join (sep : jsstring) (l : list jsstring) : jsstring :=
  match l with
  | [] => []
  | [p] => p
  | p :: ps => p ++ sep ++ join sep ps
  end.

(** [s.substring(a, b)] for [a <= b] (both clamped to the length). *)
Definition substring (a b : nat) (s : jsstring) : jsstring :=
  take (b - a) (drop a s).

(** [s.startsWith(p)]. *)
Fixpoint startsWith (p s : jsstring) : bool :=
  match p, s with
  | [], _ => true
  | _ :: _, [] => false
  | a :: p', b :: s' => (a =? b) && startsWith p' s'
  end.

(* ===================================================================== *)
(** ** The statistics computed by [updateStats] and [saveToLocalStorage] *)
(* ===================================================================== *)

(** [const chars = text.length] *)
Definition chars (text : jsstring) : nat := length text.

(** [const words = text.trim() === '' ? 0 : text.trim().split(/\s+/).length] *)
Definition words (text : jsstring) : nat :=
  if decide (trim text = []) then 0%nat
  else length (split_ws false (trim text)).

(** [const lines = text === '' ? 0 : text.split('\n').length] *)
Definition lines (text : jsstring) : nat :=
  if decide (text = []) then 0%nat
  else length (split_on 10 text).

(** *** The statistics as the specification words them *)

(** The maximal runs of non-space characters of [s], left to right. *)
Fixpoint tokens (s : jsstring) : list jsstring :=
  match s with
  | [] => []
  | c :: r =>
      if is_space c then tokens r
      else match r with
           | [] => [[c]]
           | c' :: _ => if is_space c' then [c] :: tokens r
                        else cons_head c (tokens r)
           end
  end.

(** [s] is not empty and its first, respectively last, character is not a
    space. *)
Definition starts_solid (s : jsstring) : bool :=
  match s with
  | [] => false
  | c :: _ => negb (is_space c)
  end.

Fixpoint ends_solid (s : jsstring) : bool :=
  match s with
  | [] => false
  | [c] => negb (is_space c)
  | _ :: r => ends_solid r
  end.

(** A string cut into its maximal whitespace-delimited non-empty tokens:
    either it is blank and has none, or it is some blanks, a first token
    without spaces, and a rest that is empty or begins with a space and is
    cut in the same way. *)
Inductive tokenized : jsstring → list jsstring → Prop :=
| tokenized_blank s :
    forallb is_space s = true → tokenized s []
| tokenized_token pre t rest ts :
    forallb is_space pre = true →
    t ≠ [] → existsb is_space t = false →
    starts_solid rest = false →
    tokenized rest ts →
    tokenized (pre ++ t ++ rest) (t :: ts).

(** Number of occurrences of the code unit [x] in [s]. *)
Definition count_char (x : N) (s : jsstring) : nat :=
  length (filter (λ c, c = x) s).

(* ===================================================================== *)
(** ** JSON: the values, [JSON.stringify] and [JSON.parse] *)
(* ===================================================================== *)

(** A JSON number literal, kept as the exact decimal
    [(-1)^num_neg * num_mant * 10^num_exp]. *)
Record number := { num_neg : bool; num_mant : N; num_exp : Z }.

#[local] Set Warnings "-register-all".

(** The values [JSON.parse] can return.  An object keeps its members in
    source order; on duplicate keys the last one is the property. *)
Inductive json :=
| JNull
| JBool (b : bool)
| JNum (n : number)
| JStr (s : jsstring)
| JArr (xs : list json)
| JObj (fields : list (jsstring * json)).

(** Exceptions the modelled code can meet. *)
Inductive exn :=
| TypeError | SyntaxError | SecurityError | QuotaExceededError.

(** The result of running a piece of JavaScript: a value or a throw. *)
Inductive outcome (A : Type) :=
| Normal (a : A)
| Throws (e : exn).
Arguments Normal {A} a.
Arguments Throws {A} e.

(** What the model takes from the JavaScript runtime without defining it:
    [Number::toString] outside the safe integers, and [Date]. Times are
    milliseconds since the epoch; [None] is an invalid date. *)
Class Runtime := {
  Number_toString : number → jsstring;
  Date_toISOString : N → jsstring;
  Date_construct : json → outcome (option Z)
}.

Definition number_of_nat (n : nat) : number :=
  {| num_neg := false; num_mant := N.of_nat n; num_exp := 0 |}.

(** The double nearest to the literal is zero iff its magnitude is at most
    [2^-1075], half the smallest subnormal. *)
Definition number_is_zero (n : number) : bool :=
  (num_mant n =? 0)
  || ((num_exp n <? 0)%Z
      && (Z.of_N (num_mant n) * 2 ^ 1075 <=? 10 ^ (- num_exp n))%Z).

(** The decimal digits of [n], most significant first. *)
Fixpoint decimal_fuel (fuel : nat) (n : N) (acc : jsstring) : jsstring :=
  match fuel with
  | O => acc
  | S f => let acc' := (48 + n mod 10) :: acc in
           if n <? 10 then acc' else decimal_fuel f (n / 10) acc'
  end.

Definition decimal (n : N) : jsstring :=
  decimal_fuel (S (N.to_nat (N.log2 n))) n [].

(** [Number::toString]: decimal digits for the integers up to [2^53], which
    are doubles (and ["0"] for a negative zero); the runtime's answer
    otherwise. *)
Definition number_to_string `{Runtime} (n : number) : jsstring :=
  if (num_exp n =? 0)%Z && (num_mant n <=? 2 ^ 53) then
    if num_neg n && negb (num_mant n =? 0) then 45 :: decimal (num_mant n)
    else decimal (num_mant n)
  else Number_toString n.

Definition isHighSurrogate (c : N) : bool := (55296 <=? c) && (c <=? 56319).
Definition isLowSurrogate (c : N) : bool := (56320 <=? c) && (c <=? 57343).

Definition hex_digit (d : N) : N := if d <? 10 then 48 + d else 87 + d.

(** [UnicodeEscape]: a backslash, [u] and four lower-case hex digits. *)
Definition unicode_escape (c : N) : jsstring :=
  [92; 117; hex_digit (c / 4096 mod 16); hex_digit (c / 256 mod 16);
   hex_digit (c / 16 mod 16); hex_digit (c mod 16)].

(** The body of [QuoteJSONString]: the two-character escapes for BS, TAB,
    LF, FF, CR, the double quote and the backslash; a unicode escape for
    the other control characters and for a surrogate that is not part of
    a pair; every other code unit as it is. *)
Fixpoint quote_chars (s : jsstring) : jsstring :=
  match s with
  | [] => []
  | c :: r =>
      if c =? 8 then 92 :: 98 :: quote_chars r
      else if c =? 9 then 92 :: 116 :: quote_chars r
      else if c =? 10 then 92 :: 110 :: quote_chars r
      else if c =? 12 then 92 :: 102 :: quote_chars r
      else if c =? 13 then 92 :: 114 :: quote_chars r
      else if c =? 34 then 92 :: 34 :: quote_chars r
      else if c =? 92 then 92 :: 92 :: quote_chars r
      else if c <? 32 then unicode_escape c ++ quote_chars r
      else if isHighSurrogate c then
        match r with
        | d :: r' =>
            if isLowSurrogate d then c :: d :: quote_chars r'
            else unicode_escape c ++ quote_chars r
        | [] => unicode_escape c
        end
      else if isLowSurrogate c then unicode_escape c ++ quote_chars r
      else c :: quote_chars r
  end.

Definition QuoteJSONString (s : jsstring) : jsstring :=
  34 :: quote_chars s ++ [34].

(** [JSON.stringify] on a JSON value whose objects have no duplicate keys
    (no indentation). *)
Fixpoint JSON_stringify `{Runtime} (v : json) : jsstring :=
  match v with
  | JNull => str "null"
  | JBool b => if b then str "true" else str "false"
  | JNum n => number_to_string n
  | JStr s => QuoteJSONString s
  | JArr xs => 91 :: join [44] (map JSON_stringify xs) ++ [93]
  | JObj fields =>
      123 :: join [44] (map (λ kv, QuoteJSONString (fst kv) ++ 58 :: JSON_stringify (snd kv)) fields)
          ++ [125]
  end.

(** *** Parsing *)

Definition is_json_ws (c : N) : bool :=
  (c =? 9) || (c =? 10) || (c =? 13) || (c =? 32).

Fixpoint skip_ws (s : jsstring) : jsstring :=
  match s with
  | [] => []
  | c :: r => if is_json_ws c then skip_ws r else s
  end.

Definition is_digit (c : N) : bool := (48 <=? c) && (c <=? 57).

Definition hex_value (c : N) : option N :=
  if (48 <=? c) && (c <=? 57) then Some (c - 48)
  else if (97 <=? c) && (c <=? 102) then Some (c - 87)
  else if (65 <=? c) && (c <=? 70) then Some (c - 55)
  else None.

(** The character a two-character escape stands for. *)
Definition simple_escape (e : N) : option N :=
  if e =? 34 then Some 34
  else if e =? 92 then Some 92
  else if e =? 47 then Some 47
  else if e =? 98 then Some 8
  else if e =? 102 then Some 12
  else if e =? 110 then Some 10
  else if e =? 114 then Some 13
  else if e =? 116 then Some 9
  else None.

(** A JSON string after its opening quote: the decoded characters and the
    input left after the closing quote. *)
Fixpoint parse_string (s : jsstring) : option (jsstring * jsstring) :=
  match s with
  | [] => None
  | c :: r =>
      if c =? 34 then Some ([], r)
      else if c =? 92 then
        match r with
        | [] => None
        | e :: r1 =>
            if e =? 117 then
              match r1 with
              | h1 :: h2 :: h3 :: h4 :: r2 =>
                  match hex_value h1, hex_value h2, hex_value h3, hex_value h4 with
                  | Some a, Some b, Some c3, Some d =>
                      match parse_string r2 with
                      | Some (t, rest) =>
                          Some ((a * 4096 + b * 256 + c3 * 16 + d) :: t, rest)
                      | None => None
                      end
                  | _, _, _, _ => None
                  end
              | _ => None
              end
            else
              match simple_escape e with
              | Some ch =>
                  match parse_string r1 with
                  | Some (t, rest) => Some (ch :: t, rest)
                  | None => None
                  end
              | None => None
              end
        end
      else if c <? 32 then None
      else
        match parse_string r with
        | Some (t, rest) => Some (c :: t, rest)
        | None => None
        end
  end.

(** A run of decimal digits: its value on top of [acc], how many digits
    were read, and the rest of the input. *)
Fixpoint parse_digits (acc : N) (count : nat) (s : jsstring) : N * nat * jsstring :=
  match s with
  | c :: r => if is_digit c then parse_digits (acc * 10 + (c - 48)) (S count) r
              else (acc, count, s)
  | [] => (acc, count, s)
  end.

(** The integer part: a single [0], or a non-empty run of digits that
    does not start with [0]. *)
Definition parse_int (s : jsstring) : option (N * jsstring) :=
  match s with
  | c :: r =>
      if c =? 48 then Some (0, r)
      else if is_digit c then
        match parse_digits 0 0 s with (m, _, rest) => Some (m, rest) end
      else None
  | [] => None
  end.

(** The optional fraction: the mantissa extended by the fraction digits,
    and how many there are. *)
Definition parse_frac (m : N) (s : jsstring) : option (N * nat * jsstring) :=
  match s with
  | c :: r =>
      if c =? 46 then
        match parse_digits m 0 r with
        | (m', O, _) => None
        | (m', k, rest) => Some (m', k, rest)
        end
      else Some (m, O, s)
  | [] => Some (m, O, s)
  end.

(** The optional exponent. *)
Definition parse_exp (s : jsstring) : option (Z * jsstring) :=
  match s with
  | c :: r =>
      if (c =? 101) || (c =? 69) then
        let '(neg, r1) :=
          match r with
          | sg :: r' => if sg =? 45 then (true, r')
                        else if sg =? 43 then (false, r') else (false, r)
          | [] => (false, r)
          end in
        match parse_digits 0 0 r1 with
        | (_, O, _) => None
        | (e, _, rest) => Some (if neg then (- Z.of_N e)%Z else Z.of_N e, rest)
        end
      else Some (0%Z, s)
  | [] => Some (0%Z, s)
  end.

(** A JSON number: [-? int frac? exp?]. *)
Definition parse_number (s : jsstring) : option (number * jsstring) :=
  let '(neg, s1) :=
    match s with
    | c :: r => if c =? 45 then (true, r) else (false, s)
    | [] => (false, s)
    end in
  match parse_int s1 with
  | None => None
  | Some (m, s2) =>
      match parse_frac m s2 with
      | None => None
      | Some (m', k, s3) =>
          match parse_exp s3 with
          | None => None
          | Some (e, s4) =>
              Some ({| num_neg := neg; num_mant := m';
                       num_exp := (e - Z.of_nat k)%Z |}, s4)
          end
      end
  end.

(** The next character must be [c]. *)
Definition expect (c : N) (s : jsstring) : option jsstring :=
  match s with
  | x :: r => if x =? c then Some r else None
  | [] => None
  end.

(** The rest of a literal name ([null], [true], [false]). *)
Definition expect_word (w : jsstring) (s : jsstring) : option jsstring :=
  if startsWith w s then Some (drop (length w) s) else None.

(** A JSON value, by recursive descent.  [fuel] bounds the number of
    nested calls; every call consumes input, so [JSON_parse] below gives
    enough. *)
Fixpoint parse_value (fuel : nat) (s : jsstring) {struct fuel}
  : option (json * jsstring) :=
  match fuel with
  | O => None
  | S fuel' =>
      match skip_ws s with
      | [] => None
      | c :: r =>
          if c =? 34 then
            match parse_string r with
            | Some (x, r') => Some (JStr x, r')
            | None => None
            end
          else if c =? 123 then
            match expect 125 (skip_ws r) with
            | Some r' => Some (JObj [], r')
            | None => parse_members fuel' r []
            end
          else if c =? 91 then
            match expect 93 (skip_ws r) with
            | Some r' => Some (JArr [], r')
            | None => parse_elements fuel' r []
            end
          else if c =? 110 then
            match expect_word (str "ull") r with
            | Some r' => Some (JNull, r') | None => None end
          else if c =? 116 then
            match expect_word (str "rue") r with
            | Some r' => Some (JBool true, r') | None => None end
          else if c =? 102 then
            match expect_word (str "alse") r with
            | Some r' => Some (JBool false, r') | None => None end
          else
            match parse_number (c :: r) with
            | Some (n, r') => Some (JNum n, r')
            | None => None
            end
      end
  end

with parse_elements (fuel : nat) (s : jsstring) (acc : list json) {struct fuel}
  : option (json * jsstring) :=
  match fuel with
  | O => None
  | S fuel' =>
      match parse_value fuel' s with
      | None => None
      | Some (v, r) =>
          match skip_ws r with
          | c :: r' =>
              if c =? 44 then parse_elements fuel' r' (v :: acc)
              else if c =? 93 then Some (JArr (rev (v :: acc)), r')
              else None
          | [] => None
          end
      end
  end

with parse_members (fuel : nat) (s : jsstring) (acc : list (jsstring * json))
  {struct fuel} : option (json * jsstring) :=
  match fuel with
  | O => None
  | S fuel' =>
      match expect 34 (skip_ws s) with
      | None => None
      | Some r =>
          match parse_string r with
          | None => None
          | Some (k, r1) =>
              match expect 58 (skip_ws r1) with
              | None => None
              | Some r2 =>
                  match parse_value fuel' r2 with
                  | None => None
                  | Some (v, r3) =>
                      match skip_ws r3 with
                      | c :: r4 =>
                          if c =? 44 then parse_members fuel' r4 ((k, v) :: acc)
                          else if c =? 125 then Some (JObj (rev ((k, v) :: acc)), r4)
                          else None
                      | [] => None
                      end
                  end
              end
          end
      end
  end.

(** [JSON.parse(text)]: one value, surrounded by optional white space;
    [None] is the [SyntaxError]. *)
Definition JSON_parse (text : jsstring) : option json :=
  match parse_value (2 + 2 * length text) text with
  | Some (v, rest) => if decide (skip_ws rest = []) then Some v else None
  | None => None
  end.

(** *** Reading a parsed value *)

(** The last member named [k], as property lookup sees duplicate keys. *)
Fixpoint lookup_member (k : jsstring) (fields : list (jsstring * json)) : option json :=
  match fields with
  | [] => None
  | (k', v) :: rest =>
      match lookup_member k rest with
      | Some v' => Some v'
      | None => if decide (k' = k) then Some v else None
      end
  end.

(** [data.name] for a name that no prototype defines ([content],
    [timestamp]): [None] is [undefined]; reading a property of [null]
    throws. *)
Definition get_property (data : json) (name : jsstring) : outcome (option json) :=
  match data with
  | JNull => Throws TypeError
  | JObj fields => Normal (lookup_member name fields)
  | _ => Normal None
  end.

(** [ToBoolean]. *)
Definition truthy (v : json) : bool :=
  match v with
  | JNull => false
  | JBool b => b
  | JNum n => negb (number_is_zero n)
  | JStr s => if decide (s = []) then false else true
  | JArr _ | JObj _ => true
  end.

(** [x || ''] for a property that may be [undefined]. *)
Definition or_empty (x : option json) : json :=
  match x with
  | Some v => if truthy v then v else JStr []
  | None => JStr []
  end.

Definition has_member (k : jsstring) (fields : list (jsstring * json)) : bool :=
  match lookup_member k fields with Some _ => true | None => false end.

(** [ToString], as the [value] setter of the textarea applies it.  An array
    joins its elements with commas ([null] elements as empty strings).  A
    plain object is ["[object Object]"], unless it has a member [toString]:
    that member is not callable, and the conversion throws. *)
Fixpoint ToString `{Runtime} (v : json) : outcome jsstring :=
  match v with
  | JNull => Normal (str "null")
  | JBool b => Normal (if b then str "true" else str "false")
  | JNum n => Normal (number_to_string n)
  | JStr s => Normal s
  | JArr xs =>
      (fix elements (first : bool) (l : list json) : outcome jsstring :=
         match l with
         | [] => Normal []
         | x :: l' =>
             match (match x with JNull => Normal [] | _ => ToString x end) with
             | Throws e => Throws e
             | Normal sx =>
                 match elements false l' with
                 | Throws e => Throws e
                 | Normal sl => Normal ((if first then [] else [44]) ++ sx ++ sl)
                 end
             end
         end) true xs
  | JObj fields =>
      if has_member (str "toString") fields then Throws TypeError
      else Normal (str "[object Object]")
  end.

(* ===================================================================== *)
(** ** The world: DOM, instance fields, storage, timers, user *)
(* ===================================================================== *)

(** The functions the class hands to [setTimeout] and [setInterval]. *)
Inductive callback :=
| CbTypingOff       (* handleTextInput: setTypingIndicator(false) *)
| CbAutoSave        (* handleTextInput: saveToLocalStorage() *)
| CbPasteSave       (* handlePaste: updateStats(); saveToLocalStorage() *)
| CbIntervalSave    (* startAutoSave: save when the text is not blank *)
| CbHideStatus.     (* showStatus: hide the message *)

(** A pending timer: its id, the time it is due, what it runs, and its
    period when it was made by [setInterval]. *)
Record Timer := { tid : nat; due : N; cb : callback; period : option N }.

Inductive message :=
| Msg (text : string)
| MsgRestored (diffMinutes : Z).   (* `Restored content from ${diffMinutes} minutes ago` *)

(** The status element: text, class suffix, and whether it is shown. *)
Record Status := { status_text : message; status_class : string; status_visible : bool }.

Inductive counter := CharCount | WordCount | LineCount.

(** Calls that leave the class: what an observer of the page can see. *)
Inductive event :=
| ConsoleError (what : string) (e : exn)
| Confirm (question : string)
| SetItem (key : string) (value : jsstring)
| AnimateNumber (c : counter) (newValue : nat)
| Focus
| Uncaught (e : exn).

(** [localStorage]: the stored items, whether the page may use storage at
    all, and which writes the browser accepts (quota). *)
Record Storage := {
  items : gmap string jsstring;
  enabled : bool;
  accepts : string → jsstring → bool
}.

Record World := {
  value : jsstring;                 (* what this.textArea.value returns *)
  has_counter : counter → bool;     (* this.charCount / wordCount / lineCount found *)
  statusMessage : option Status;    (* this.statusMessage; None: not found *)
  typingTimer : option nat;         (* this.typingTimer *)
  autoSaveTimer : option nat;       (* this.autoSaveTimer; undefined at first *)
  autoSaveInterval : option nat;    (* this.autoSaveInterval *)
  isTyping : bool;                  (* this.isTyping *)
  storage : Storage;                (* localStorage *)
  clock : N;                        (* current time, ms *)
  timers : list Timer;              (* pending timers of the callbacks above, oldest first *)
  next_timer : nat;                 (* next timer id *)
  answers : list bool;              (* what the user will answer to confirm() *)
  log : list event                  (* observable calls so far, oldest first *)
}.

Definition set_value (x : jsstring) (w : World) : World :=
  {| value := x; has_counter := has_counter w; statusMessage := statusMessage w;
     typingTimer := typingTimer w; autoSaveTimer := autoSaveTimer w;
     autoSaveInterval := autoSaveInterval w; isTyping := isTyping w;
     storage := storage w; clock := clock w; timers := timers w;
     next_timer := next_timer w; answers := answers w; log := log w |}.

Definition set_statusMessage (x : option Status) (w : World) : World :=
  {| value := value w; has_counter := has_counter w; statusMessage := x;
     typingTimer := typingTimer w; autoSaveTimer := autoSaveTimer w;
     autoSaveInterval := autoSaveInterval w; isTyping := isTyping w;
     storage := storage w; clock := clock w; timers := timers w;
     next_timer := next_timer w; answers := answers w; log := log w |}.

Definition set_typingTimer (x : option nat) (w : World) : World :=
  {| value := value w; has_counter := has_counter w; statusMessage := statusMessage w;
     typingTimer := x; autoSaveTimer := autoSaveTimer w;
     autoSaveInterval := autoSaveInterval w; isTyping := isTyping w;
     storage := storage w; clock := clock w; timers := timers w;
     next_timer := next_timer w; answers := answers w; log := log w |}.

Definition set_autoSaveTimer (x : option nat) (w : World) : World :=
  {| value := value w; has_counter := has_counter w; statusMessage := statusMessage w;
     typingTimer := typingTimer w; autoSaveTimer := x;
     autoSaveInterval := autoSaveInterval w; isTyping := isTyping w;
     storage := storage w; clock := clock w; timers := timers w;
     next_timer := next_timer w; answers := answers w; log := log w |}.

Definition set_autoSaveInterval (x : option nat) (w : World) : World :=
  {| value := value w; has_counter := has_counter w; statusMessage := statusMessage w;
     typingTimer := typingTimer w; autoSaveTimer := autoSaveTimer w;
     autoSaveInterval := x; isTyping := isTyping w;
     storage := storage w; clock := clock w; timers := timers w;
     next_timer := next_timer w; answers := answers w; log := log w |}.

Definition set_isTyping (x : bool) (w : World) : World :=
  {| value := value w; has_counter := has_counter w; statusMessage := statusMessage w;
     typingTimer := typingTimer w; autoSaveTimer := autoSaveTimer w;
     autoSaveInterval := autoSaveInterval w; isTyping := x;
     storage := storage w; clock := clock w; timers := timers w;
     next_timer := next_timer w; answers := answers w; log := log w |}.

Definition set_storage (x : Storage) (w : World) : World :=
  {| value := value w; has_counter := has_counter w; statusMessage := statusMessage w;
     typingTimer := typingTimer w; autoSaveTimer := autoSaveTimer w;
     autoSaveInterval := autoSaveInterval w; isTyping := isTyping w;
     storage := x; clock := clock w; timers := timers w;
     next_timer := next_timer w; answers := answers w; log := log w |}.

Definition set_clock (x : N) (w : World) : World :=
  {| value := value w; has_counter := has_counter w; statusMessage := statusMessage w;
     typingTimer := typingTimer w; autoSaveTimer := autoSaveTimer w;
     autoSaveInterval := autoSaveInterval w; isTyping := isTyping w;
     storage := storage w; clock := x; timers := timers w;
     next_timer := next_timer w; answers := answers w; log := log w |}.

Definition set_timers (x : list Timer) (w : World) : World :=
  {| value := value w; has_counter := has_counter w; statusMessage := statusMessage w;
     typingTimer := typingTimer w; autoSaveTimer := autoSaveTimer w;
     autoSaveInterval := autoSaveInterval w; isTyping := isTyping w;
     storage := storage w; clock := clock w; timers := x;
     next_timer := next_timer w; answers := answers w; log := log w |}.

Definition set_next_timer (x : nat) (w : World) : World :=
  {| value := value w; has_counter := has_counter w; statusMessage := statusMessage w;
     typingTimer := typingTimer w; autoSaveTimer := autoSaveTimer w;
     autoSaveInterval := autoSaveInterval w; isTyping := isTyping w;
     storage := storage w; clock := clock w; timers := timers w;
     next_timer := x; answers := answers w; log := log w |}.

Definition set_answers (x : list bool) (w : World) : World :=
  {| value := value w; has_counter := has_counter w; statusMessage := statusMessage w;
     typingTimer := typingTimer w; autoSaveTimer := autoSaveTimer w;
     autoSaveInterval := autoSaveInterval w; isTyping := isTyping w;
     storage := storage w; clock := clock w; timers := timers w;
     next_timer := next_timer w; answers := x; log := log w |}.

Definition set_log (x : list event) (w : World) : World :=
  {| value := value w; has_counter := has_counter w; statusMessage := statusMessage w;
     typingTimer := typingTimer w; autoSaveTimer := autoSaveTimer w;
     autoSaveInterval := autoSaveInterval w; isTyping := isTyping w;
     storage := storage w; clock := clock w; timers := timers w;
     next_timer := next_timer w; answers := answers w; log := x |}.

(** *** Computations on the world that may throw *)

Definition M (A : Type) : Type := World → outcome A * World.

Definition ret {A} (a : A) : M A := λ w, (Normal a, w).

Definition bind {A B} (m : M A) (k : A → M B) : M B :=
  λ w, match m w with
       | (Normal a, w') => k a w'
       | (Throws e, w') => (Throws e, w')
       end.

Definition throw {A} (e : exn) : M A := λ w, (Throws e, w).

(** [try { m } catch (error) { handler error }] *)
Definition try_catch {A} (m : M A) (handler : exn → M A) : M A :=
  λ w, match m w with
       | (Normal a, w') => (Normal a, w')
       | (Throws e, w') => handler e w'
       end.

Definition gets {A} (f : World → A) : M A := λ w, (Normal (f w), w).

Definition modify (f : World → World) : M unit := λ w, (Normal tt, f w).

Definition lift {A} (o : outcome A) : M A :=
  match o with
  | Normal a => ret a
  | Throws e => throw e
  end.

Declare Scope js_scope.
Delimit Scope js_scope with js.
Notation "'let!' x ':=' m 'in' k" := (bind m (λ x, k))
  (at level 10, x name, m at level 100, k at level 200) : js_scope.
Notation "m ';;;' k" := (bind m (λ _, k))
  (at level 100, k at level 200, right associativity) : js_scope.
Local Open Scope js_scope.

Definition emit (e : event) : M unit := modify (λ w, set_log (log w ++ [e]) w).

(** *** Browser calls *)

(** [console.error(what, e)] *)
Definition console_error (what : string) (e : exn) : M unit :=
  emit (ConsoleError what e).

(** [setTimeout(cb, delay)]: a fresh id; the timer is due [delay] ms from now. *)
Definition setTimeout (f : callback) (delay : N) : M nat :=
  λ w, let id := next_timer w in
       (Normal id,
        set_next_timer (S id)
          (set_timers (timers w ++ [{| tid := id; due := clock w + delay;
                                       cb := f; period := None |}]) w)).

(** [setInterval(cb, delay)] *)
Definition setInterval (f : callback) (delay : N) : M nat :=
  λ w, let id := next_timer w in
       (Normal id,
        set_next_timer (S id)
          (set_timers (timers w ++ [{| tid := id; due := clock w + delay;
                                       cb := f; period := Some delay |}]) w)).

(** [clearTimeout(id)]: nothing happens for [undefined] or for an id that
    is no longer pending. *)
Definition clearTimeout (id : option nat) : M unit :=
  match id with
  | None => ret tt
  | Some i => modify (λ w, set_timers (filter (λ t, tid t ≠ i) (timers w)) w)
  end.

(** [localStorage.getItem(key)]: [None] is [null]. *)
Definition localStorage_getItem (key : string) : M (option jsstring) :=
  λ w, if enabled (storage w) then (Normal (items (storage w) !! key), w)
       else (Throws SecurityError, w).

(** [localStorage.setItem(key, value)] *)
Definition localStorage_setItem (key : string) (v : jsstring) : M unit :=
  λ w, if enabled (storage w) then
         let w1 := set_log (log w ++ [SetItem key v]) w in
         if accepts (storage w) key v then
           (Normal tt,
            set_storage {| items := <[key := v]> (items (storage w));
                           enabled := enabled (storage w);
                           accepts := accepts (storage w) |} w1)
         else (Throws QuotaExceededError, w1)
       else (Throws SecurityError, w).

(** [confirm(question)]: the dialog is shown and the user answers; a
    dialog nobody answers counts as cancelled. *)
Definition confirm (question : string) : M bool :=
  λ w, let w1 := set_log (log w ++ [Confirm question]) w in
       match answers w with
       | a :: rest => (Normal a, set_answers rest w1)
       | [] => (Normal false, w1)
       end.

(* ===================================================================== *)
(** ** The class [SamTextApp] *)
(* ===================================================================== *)

Definition storage_key : string := "sam-text-content".

(** [animateNumber(element, newValue)], seen from the class: the call is
    recorded, with the counter and the number it is to reach.  What the
    call does to the element is [Animation.animateNumber] below: it starts
    an interval when the number shown is at most 10 away.  That interval
    changes the element only; [timers] and [next_timer] follow the timers
    of the class's own callbacks, of type [callback], and not these. *)
Definition animateNumber (c : counter) (newValue : nat) : M unit :=
  emit (AnimateNumber c newValue).

(** The guarded call [if (this.charCount) { this.animateNumber(...) }]. *)
Definition animate_if_present (c : counter) (newValue : nat) : M unit :=
  let! present := gets (λ w, has_counter w c) in
  if present then animateNumber c newValue else ret tt.

Definition updateStats : M unit :=
  let! text := gets value in
  animate_if_present CharCount (chars text) ;;;
  animate_if_present WordCount (words text) ;;;
  animate_if_present LineCount (lines text).

Definition setTypingIndicator (flag : bool) : M unit :=
  modify (set_isTyping flag).

(** [showStatus(message, type)]: nothing without the status element;
    otherwise the message is shown, and hidden again after 3 seconds. *)
Definition showStatus (m : message) (type : string) : M unit :=
  let! st := gets statusMessage in
  match st with
  | None => ret tt
  | Some _ =>
      modify (set_statusMessage
                (Some {| status_text := m; status_class := type;
                         status_visible := true |})) ;;;
      let! _ := setTimeout CbHideStatus 3000 in
      ret tt
  end.

(** The callback of [showStatus]. *)
Definition hideStatus : M unit :=
  modify (λ w, match statusMessage w with
               | Some st => set_statusMessage
                              (Some {| status_text := status_text st;
                                       status_class := status_class st;
                                       status_visible := false |}) w
               | None => w
               end).

(** The object literal [data] of [saveToLocalStorage]. *)
Definition saved_data (content timestamp : jsstring) : json :=
  JObj [ (str "content", JStr content);
         (str "timestamp", JStr timestamp);
         (str "stats",
          JObj [ (str "chars", JNum (number_of_nat (chars content)));
                 (str "words", JNum (number_of_nat (words content)));
                 (str "lines", JNum (number_of_nat (lines content))) ]) ].

Definition saveToLocalStorage `{Runtime} : M unit :=
  try_catch
    (let! content := gets value in
     let! now := gets clock in
     let timestamp := Date_toISOString now in
     let data := saved_data content timestamp in
     localStorage_setItem storage_key (JSON_stringify data))
    (λ error, console_error "Error saving to localStorage:" error).

(** The assignment to [this.textArea.value] is taken to hand back the
    string it was given.  A textarea does so for a string without carriage
    returns, as every content is that the page saved from its textarea;
    [Textarea.loadSavedContent] below takes any stored content. *)
Definition loadSavedContent `{Runtime} : M unit :=
  try_catch
    (let! savedData := localStorage_getItem storage_key in
     match savedData with
     | Some (c :: text) =>
         let! data := match JSON_parse (c :: text) with
                      | Some v => ret v
                      | None => throw SyntaxError
                      end in
         let! content := lift (get_property data (str "content")) in
         let! v := lift (ToString (or_empty content)) in
         modify (set_value v) ;;;
         updateStats ;;;
         let! timestamp := lift (get_property data (str "timestamp")) in
         match timestamp with
         | Some ts =>
             if truthy ts then
               let! lastSaved := lift (Date_construct ts) in
               let! now := gets clock in
               match lastSaved with
               | Some t =>
                   let diffMinutes := ((Z.of_N now - t) / 60000)%Z in
                   if (diffMinutes <? 60)%Z
                   then showStatus (MsgRestored diffMinutes) "info"
                   else ret tt
               | None => ret tt
               end
             else ret tt
         | None => ret tt
         end
     | Some [] | None => ret tt
     end)
    (λ error, console_error "Error loading saved content:" error).

(** The question [clearContent] asks. *)
Definition clear_question : string :=
  "Are you sure you want to clear all text? This action cannot be undone.".

Definition clearContent `{Runtime} : M unit :=
  let! text := gets value in
  if decide (trim text = []) then
    showStatus (Msg "Text area is already empty") "info"
  else
    let! yes := confirm clear_question in
    if yes then
      modify (set_value []) ;;;
      emit Focus ;;;
      updateStats ;;;
      saveToLocalStorage ;;;
      showStatus (Msg "Content cleared") "success"
    else ret tt.

Definition handleTextInput : M unit :=
  updateStats ;;;
  setTypingIndicator true ;;;
  let! t := gets typingTimer in
  clearTimeout t ;;;
  let! id := setTimeout CbTypingOff 1000 in
  modify (set_typingTimer (Some id)) ;;;
  let! t' := gets autoSaveTimer in
  clearTimeout t' ;;;
  let! id' := setTimeout CbAutoSave 2000 in
  modify (set_autoSaveTimer (Some id')).

Definition handlePaste : M unit :=
  let! _ := setTimeout CbPasteSave 10 in
  ret tt.

Definition startAutoSave : M unit :=
  let! id := setInterval CbIntervalSave 30000 in
  modify (set_autoSaveInterval (Some id)).

(** *** Shift+Tab *)

(** The body of the loop of [removeIndentation] on one line. *)
Definition unindent (line : jsstring) : jsstring :=
  if startsWith [9] line then drop 1 line
  else if startsWith (str "    ") line then drop 4 line
  else line.

(** [for (let i = ...; i <= endLine; i++)] with [n] iterations left.
    [lines[i].startsWith] throws when [lines[i]] is [undefined]. *)
Fixpoint removeIndentation_loop (n i : nat) (ls : list jsstring)
  : outcome (list jsstring) :=
  match n with
  | O => Normal ls
  | S n' =>
      match ls !! i with
      | None => Throws TypeError
      | Some line =>
          let ls' :=
            if startsWith [9] line then <[i := drop 1 line]> ls
            else if startsWith (str "    ") line then <[i := drop 4 line]> ls
            else ls in
          removeIndentation_loop n' (S i) ls'
      end
  end.

(** The index of the line that holds position [pos]:
    [value.substring(0, pos).split('\n').length - 1]. *)
Definition line_of (text : jsstring) (pos : nat) : nat :=
  (length (split_on 10 (substring 0 pos text)) - 1)%nat.

(** The array [lines] of [removeIndentation] when its loop is over. *)
Definition removeIndentation_lines (text : jsstring) (start end_ : nat)
  : outcome (list jsstring) :=
  let startLine := line_of text start in
  let endLine := line_of text end_ in
  removeIndentation_loop (S endLine - startLine) startLine (split_on 10 text).

(** [removeIndentation(start, end)].  The source text stops inside its last
    statement, [this.textArea.value = lines.join(...)], whose separator
    starts with a backslash; it is completed as the newline the text was
    split on. *)
Definition removeIndentation (start end_ : nat) : M unit :=
  let! text := gets value in
  let! ls := lift (removeIndentation_lines text start end_) in
  modify (set_value (join [10] ls)).

(** *** The event loop *)

Definition run_callback `{Runtime} (f : callback) : M unit :=
  match f with
  | CbTypingOff => setTypingIndicator false
  | CbAutoSave => saveToLocalStorage
  | CbPasteSave => updateStats ;;; saveToLocalStorage
  | CbIntervalSave =>
      let! text := gets value in
      if decide (trim text = []) then ret tt else saveToLocalStorage
  | CbHideStatus => hideStatus
  end.

(** Running a handler or callback as one turn of the event loop: an
    exception that escapes it is reported and the page goes on. *)
Definition dispatch (m : M unit) (w : World) : World :=
  match m w with
  | (Normal _, w') => w'
  | (Throws e, w') => set_log (log w' ++ [Uncaught e]) w'
  end.

Definition pending (id : nat) (w : World) : bool :=
  existsb (λ t, Nat.eqb (tid t) id) (timers w).

(** A due timer fires if it is still pending: a timeout leaves the queue,
    an interval is queued again one period later; then its callback runs. *)
Definition fire `{Runtime} (t : Timer) (w : World) : World :=
  if pending (tid t) w then
    let others := filter (λ t', tid t' ≠ tid t) (timers w) in
    let queue :=
      match period t with
      | None => others
      | Some p => others ++ [{| tid := tid t; due := due t + p;
                                cb := cb t; period := Some p |}]
      end in
    dispatch (run_callback (cb t)) (set_timers queue w)
  else w.

(** One millisecond passes; the timers that are due fire, oldest first. *)
Definition tick `{Runtime} (w : World) : World :=
  let w1 := set_clock (clock w + 1) w in
  fold_left (λ w' t, fire t w') (filter (λ t, due t ≤ clock w1) (timers w1)) w1.

(** [ms] milliseconds pass without user input. *)
Definition advance `{Runtime} (ms : nat) (w : World) : World :=
  Nat.iter ms tick w.

(** The user edits the textarea so that it holds [content]; the [input]
    event runs [handleTextInput]. *)
Definition input `{Runtime} (content : jsstring) (w : World) : World :=
  dispatch handleTextInput (set_value content w).

(** A burst of edits: before each one, [gap] milliseconds pass. *)
Fixpoint typing `{Runtime} (keys : list (nat * jsstring)) (w : World) : World :=
  match keys with
  | [] => w
  | (gap, content) :: rest => typing rest (input content (advance gap w))
  end.

(** The [setItem] calls among the observable events. *)
Fixpoint writes (l : list event) : list (string * jsstring) :=
  match l with
  | [] => []
  | SetItem k v :: l' => (k, v) :: writes l'
  | _ :: l' => writes l'
  end.

(** The [confirm] dialogs among the observable events. *)
Fixpoint prompts (l : list event) : list string :=
  match l with
  | [] => []
  | Confirm q :: l' => q :: prompts l'
  | _ :: l' => prompts l'
  end.

(** *** Worlds and a runtime to run examples in *)

Definition plain_runtime : Runtime :=
  {| Number_toString := λ _, str "NaN";
     Date_toISOString := λ t, str "T" ++ decimal t;
     Date_construct := λ _, Normal None |}.

Definition open_storage : Storage :=
  {| items := ∅; enabled := true; accepts := λ _ _, true |}.

Definition full_storage : Storage :=
  {| items := ∅; enabled := true; accepts := λ _ _, false |}.

Definition no_storage : Storage :=
  {| items := ∅; enabled := false; accepts := λ _ _, true |}.

(** A freshly set up page: empty textarea, every element found. *)
Definition fresh (st : Storage) : World :=
  {| value := []; has_counter := λ _, true;
     statusMessage := Some {| status_text := Msg ""; status_class := "";
                              status_visible := false |};
     typingTimer := None; autoSaveTimer := None; autoSaveInterval := None;
     isTyping := false; storage := st; clock := 0; timers := [];
     next_timer := 1; answers := []; log := [] |}.

(** *** Shift+Tab as the specification words it *)

(** The number of space characters (U+0020) a line starts with. *)
Fixpoint leading_spaces (line : jsstring) : nat :=
  match line with
  | c :: r => if c =? 32 then S (leading_spaces r) else 0%nat
  | [] => 0%nat
  end.

(** "Strips one leading tab or up to four leading spaces, and is a no-op on
    lines with neither." *)
Definition strip_up_to_four (line : jsstring) : jsstring :=
  match line with
  | c :: r => if c =? 9 then r else drop (min 4 (leading_spaces line)) line
  | [] => []
  end.

(** Strips one leading tab, or else four leading spaces when the line has
    at least four, and is a no-op on every other line. *)
Definition strip_tab_or_four (line : jsstring) : jsstring :=
  match line with
  | c :: r => if c =? 9 then r
              else if (4 <=? leading_spaces line)%nat then drop 4 line else line
  | [] => []
  end.

(** The lines the selection [start .. end_] touches. *)
Definition touched (text : jsstring) (start end_ j : nat) : bool :=
  bool_decide (line_of text start ≤ j ≤ line_of text end_)%nat.

(** *** Vocabulary for stating what the handlers do *)

(** The [animateNumber] calls [updateStats] makes in [w]. *)
Definition counter_events (w : World) : list event :=
  (if has_counter w CharCount then [AnimateNumber CharCount (chars (value w))] else [])
  ++ (if has_counter w WordCount then [AnimateNumber WordCount (words (value w))] else [])
  ++ (if has_counter w LineCount then [AnimateNumber LineCount (lines (value w))] else []).

(** The text [saveToLocalStorage] writes in [w]. *)
Definition record_text `{Runtime} (w : World) : jsstring :=
  JSON_stringify (saved_data (value w) (Date_toISOString (clock w))).

(** The text [JSON.stringify] writes for the stats object and for the
    whole record, spelled out. *)
Definition stats_text (c w l : nat) : jsstring :=
  123 :: QuoteJSONString (str "chars") ++ 58 :: decimal (N.of_nat c) ++ 44 ::
         QuoteJSONString (str "words") ++ 58 :: decimal (N.of_nat w) ++ 44 ::
         QuoteJSONString (str "lines") ++ 58 :: decimal (N.of_nat l) ++ [125].

Definition saved_text (content timestamp : jsstring) : jsstring :=
  123 :: QuoteJSONString (str "content") ++ 58 :: QuoteJSONString content ++ 44 ::
         QuoteJSONString (str "timestamp") ++ 58 :: QuoteJSONString timestamp ++ 44 ::
         QuoteJSONString (str "stats") ++ 58 ::
         stats_text (chars content) (words content) (lines content) ++ [125].

(** The callbacks that call [saveToLocalStorage]. *)
Definition is_save (f : callback) : bool :=
  match f with
  | CbAutoSave | CbPasteSave | CbIntervalSave => true
  | CbTypingOff | CbHideStatus => false
  end.

(** The pending timers that will write to the store. *)
Definition pending_saves (w : World) : list Timer :=
  filter (λ t, is_save (cb t) = true) (timers w).

(** Timer ids are handed out once: the pending ones are distinct and below
    the next id. *)
Definition fresh_ids (queue : list Timer) (next : nat) : Prop :=
  NoDup (tid <$> queue) ∧ Forall (λ t, (tid t < next)%nat) queue.

Definition well_formed (w : World) : Prop :=
  fresh_ids (timers w) (next_timer w).

(** [clearTimeout id] on a queue. *)
Definition cleared (id : option nat) (queue : list Timer) : list Timer :=
  match id with
  | None => queue
  | Some i => filter (λ t, tid t ≠ i) queue
  end.

(** The timer [handleTextInput] schedules for the save. *)
Definition save_timer (id : nat) (d : N) : Timer :=
  {| tid := id; due := d; cb := CbAutoSave; period := None |}.

(** The debounced save is scheduled for time [d] and will write [c]:
    [this.autoSaveTimer] holds its id, and every other pending timer that
    saves is due after [horizon]. *)
Definition armed (horizon : N) (w : World) (c : jsstring) (d : N) : Prop :=
  value w = c ∧ well_formed w
  ∧ ∃ id, autoSaveTimer w = Some id
          ∧ save_timer id d ∈ timers w
          ∧ ∀ t, t ∈ pending_saves w → t = save_timer id d ∨ horizon < due t.

(** No pending timer saves before [horizon] has passed. *)
Definition quiet (horizon : N) (w : World) : Prop :=
  well_formed w ∧ ∀ t, t ∈ pending_saves w → horizon < due t.

(** The content of the last edit of a burst. *)
Definition last_content (first : jsstring) (more : list (nat * jsstring)) : jsstring :=
  match last more with
  | Some (_, c) => c
  | None => first
  end.

(** The milliseconds a burst takes. *)
Definition duration (keys : list (nat * jsstring)) : nat :=
  foldr (λ k acc, (k.1 + acc)%nat) 0%nat keys.

(** The number [data.stats.name] of a saved record. *)
Definition saved_stat (name : jsstring) (data : json) : option json :=
  match data with
  | JObj fields =>
      match lookup_member (str "stats") fields with
      | Some (JObj stats) => lookup_member name stats
      | _ => None
      end
  | _ => None
  end.

(** *** Inputs for the examples *)

(** A store that already holds [text] under the fixed key. *)
Definition storage_holding (text : jsstring) : Storage :=
  {| items := {[ storage_key := text ]}; enabled := true; accepts := λ _ _, true |}.

(** Three lines with a tab, a quote, a backslash and a lone surrogate. *)
Definition sample_content : jsstring :=
  str "Hello, " ++ [34] ++ str "Sam" ++ [34; 10; 9] ++ str "a\b" ++ [10; 55357] ++ str " end".

(** A burst of three edits, 1.5 and 1.999 seconds apart. *)
Definition sample_keys : list (nat * jsstring) :=
  [(100%nat, str "a"); (1500%nat, str "ab"); (1999%nat, str "ab c")].

(* ===================================================================== *)
(** ** The rest of the class *)
(* ===================================================================== *)

(** *** Keys in the textarea, leaving the page *)

(** What [handleKeyDown] does to the event and to the selection: whether it
    calls [preventDefault], and the position it assigns to [selectionStart]
    and [selectionEnd] ([None]: it assigns none itself). *)
Record KeyOutcome := { defaultPrevented : bool; cursor : option nat }.

(** [handleKeyDown(event)] for [event.key], [event.shiftKey] and the
    selection [start .. end_] it reads from the textarea. *)
Definition handleKeyDown (key : string) (shiftKey : bool) (start end_ : nat)
  : M KeyOutcome :=
  if decide (key = "Tab") then
    let! text := gets value in
    let! cur :=
      (if shiftKey then
         removeIndentation start end_ ;;; ret None
       else
         modify (set_value (substring 0 start text ++ [9]
                            ++ substring end_ (length text) text)) ;;;
         ret (Some (start + 1)%nat)) in
    updateStats ;;;
    ret {| defaultPrevented := true; cursor := cur |}
  else ret {| defaultPrevented := false; cursor := None |}.

Definition handleBeforeUnload `{Runtime} : M unit := saveToLocalStorage.

(** The lines from the line of [start] to the line of [end_]. *)
Definition touched_lines (text : jsstring) (start end_ : nat) : list jsstring :=
  take (S (line_of text end_) - line_of text start)
       (drop (line_of text start) (split_on 10 text)).

(** The line starts with a tab or with four spaces. *)
Definition indented (line : jsstring) : bool :=
  startsWith [9] line || startsWith (str "    ") line.

(** Position [pos] is where a line of [text] starts. *)
Definition at_line_start (text : jsstring) (pos : nat) : bool :=
  match pos with
  | O => true
  | S p => bool_decide (text !! p = Some 10)
  end.

(** *** Vocabulary for timers of one kind *)

(** [w'] is [w] as far as the text, the elements, the instance fields, the
    ids and the answers go, and the store is as willing as before. *)
Record kept (w w' : World) : Prop := {
  kept_value : value w' = value w;
  kept_has_counter : has_counter w' = has_counter w;
  kept_typingTimer : typingTimer w' = typingTimer w;
  kept_autoSaveTimer : autoSaveTimer w' = autoSaveTimer w;
  kept_autoSaveInterval : autoSaveInterval w' = autoSaveInterval w;
  kept_next_timer : next_timer w' = next_timer w;
  kept_answers : answers w' = answers w;
  kept_enabled : enabled (storage w') = enabled (storage w);
  kept_accepts : accepts (storage w') = accepts (storage w)
}.

(** Timer [t] is pending, and every other pending timer whose callback is
    of [kind] is due after [horizon]. *)
Definition sole (kind : callback → bool) (horizon : N) (w : World) (t : Timer) : Prop :=
  well_formed w ∧ t ∈ timers w
  ∧ ∀ s, s ∈ timers w → kind (cb s) = true → s = t ∨ horizon < due s.

(** Every pending timer whose callback is of [kind] is due after [horizon]. *)
Definition none_due (kind : callback → bool) (horizon : N) (w : World) : Prop :=
  well_formed w ∧ ∀ s, s ∈ timers w → kind (cb s) = true → horizon < due s.

(** An interval [t] as it is queued again after firing. *)
Definition again (t : Timer) (p : N) : Timer :=
  {| tid := tid t; due := due t + p; cb := cb t; period := Some p |}.

Definition is_hide (f : callback) : bool :=
  match f with CbHideStatus => true | _ => false end.

Definition is_typing_off (f : callback) : bool :=
  match f with CbTypingOff => true | _ => false end.

(** The status element after [hideStatus]. *)
Definition hidden (st : option Status) : option Status :=
  match st with
  | Some s => Some {| status_text := status_text s; status_class := status_class s;
                      status_visible := false |}
  | None => None
  end.

(** The timer [showStatus] schedules. *)
Definition hide_timer (id : nat) (d : N) : Timer :=
  {| tid := id; due := d; cb := CbHideStatus; period := None |}.

(** The timer [handleTextInput] schedules for the typing indicator. *)
Definition typing_timer (id : nat) (d : N) : Timer :=
  {| tid := id; due := d; cb := CbTypingOff; period := None |}.

(** The id a field of the instance holds, if any, was handed out before. *)
Definition known (id : option nat) (w : World) : bool :=
  match id with
  | Some i => bool_decide (i < next_timer w)%nat
  | None => true
  end.

(** At most one timer for the typing indicator is to fire before
    [horizon], the one [this.typingTimer] names. *)
Definition typing_tracked (horizon : N) (w : World) : Prop :=
  none_due is_typing_off horizon w
  ∨ ∃ t, sole is_typing_off horizon w t ∧ typingTimer w = Some (tid t).

(** The timer [handlePaste] schedules, and the interval of
    [startAutoSave]. *)
Definition paste_timer (id : nat) (d : N) : Timer :=
  {| tid := id; due := d; cb := CbPasteSave; period := None |}.

Definition interval_timer (id : nat) (d : N) : Timer :=
  {| tid := id; due := d; cb := CbIntervalSave; period := Some 30000 |}.

(** The write a callback makes when it runs in [w]. *)
Definition save_writes `{Runtime} (f : callback) (w : World) : list (string * jsstring) :=
  match f with
  | CbAutoSave | CbPasteSave =>
      if enabled (storage w) then [(storage_key, record_text w)] else []
  | CbIntervalSave =>
      if decide (trim (value w) = []) then []
      else if enabled (storage w) then [(storage_key, record_text w)] else []
  | CbTypingOff | CbHideStatus => []
  end.

(** The record of [content] saved at time [t], as a write. *)
Definition record_at `{Runtime} (content : jsstring) (t : N) : string * jsstring :=
  (storage_key, JSON_stringify (saved_data content (Date_toISOString t))).

(** The writes of the first [m] rounds of the interval of [startAutoSave]
    when it was started at time [t0] and the text stays [content]: none
    for a blank text, else one every 30 seconds. *)
Definition interval_records `{Runtime} (content : jsstring) (t0 : N) (m : nat)
  : list (string * jsstring) :=
  if decide (trim content = []) then []
  else (λ i, record_at content (t0 + 30000 * N.of_nat i)) <$> seq 1 m.

(** *** The animation of a counter *)

(** [animateNumber] as it works on its element.  The element's text is
    kept as the number [parseInt] reads in it ([None]: it reads none, the
    result is [NaN]); a number written to the element is read back as
    itself.  The other model of [animateNumber], above, only records the
    call. *)
Module Animation.

(** The variables the interval callback closes over. *)
Record Closure := { current : Z; increment : Z; newValue : Z }.

(** The element's number, and the interval while it is running. *)
Record Element := { textContent : option Z; timer : option Closure }.

(** [animateNumber(element, newValue)] on an element without a running
    interval. *)
Definition animateNumber (text : option Z) (newValue : Z) : Element :=
  let currentValue := default 0%Z text in         (* parseInt(...) || 0 *)
  let increment := if (currentValue <? newValue)%Z then 1%Z else (-1)%Z in
  let steps := Z.abs (newValue - currentValue) in
  if (steps <=? 10)%Z then
    {| textContent := text;
       timer := Some {| current := currentValue; increment := increment;
                        newValue := newValue |} |}
  else
    {| textContent := Some newValue; timer := None |}.

(** The interval fires once, 20 ms after the last time. *)
Definition frame (e : Element) : Element :=
  match timer e with
  | None => e
  | Some c =>
      let current' := (current c + increment c)%Z in
      {| textContent := Some current';
         timer := if decide (current' = newValue c) then None   (* clearInterval *)
                  else Some {| current := current'; increment := increment c;
                               newValue := newValue c |} |}
  end.

(** The interval has had [k] chances to fire. *)
Definition frames (k : nat) (e : Element) : Element := Nat.iter k frame e.

End Animation.

(** *** The page around the editor: theme, font size, the save button *)

(** What the timer of [saveContent] runs: [classList.remove('saved')]. *)
Inductive feedback := SavedOff.

(** The editor of [World] and, around it, what the theme, the font size
    and the save button touch. *)
Record Page := {
  core : World;
  data_theme : option jsstring;       (* documentElement's attribute data-theme; None: absent *)
  style_fontSize : jsstring;          (* the text last assigned to textArea.style.fontSize *)
  fontSizeSlider : option jsstring;   (* this.fontSizeSlider with the value last assigned
                                         to it; None: not found *)
  saveBtn : option bool;              (* this.saveBtn: whether it has the class 'saved';
                                         None: not found *)
  feedback_timers : list (nat * N * feedback)   (* pending timers of the button: id, due, callback *)
}.

Definition set_core (x : World) (p : Page) : Page :=
  {| core := x; data_theme := data_theme p; style_fontSize := style_fontSize p;
     fontSizeSlider := fontSizeSlider p; saveBtn := saveBtn p;
     feedback_timers := feedback_timers p |}.

Definition set_data_theme (x : option jsstring) (p : Page) : Page :=
  {| core := core p; data_theme := x; style_fontSize := style_fontSize p;
     fontSizeSlider := fontSizeSlider p; saveBtn := saveBtn p;
     feedback_timers := feedback_timers p |}.

Definition set_style_fontSize (x : jsstring) (p : Page) : Page :=
  {| core := core p; data_theme := data_theme p; style_fontSize := x;
     fontSizeSlider := fontSizeSlider p; saveBtn := saveBtn p;
     feedback_timers := feedback_timers p |}.

Definition set_fontSizeSlider (x : option jsstring) (p : Page) : Page :=
  {| core := core p; data_theme := data_theme p; style_fontSize := style_fontSize p;
     fontSizeSlider := x; saveBtn := saveBtn p;
     feedback_timers := feedback_timers p |}.

Definition set_saveBtn (x : option bool) (p : Page) : Page :=
  {| core := core p; data_theme := data_theme p; style_fontSize := style_fontSize p;
     fontSizeSlider := fontSizeSlider p; saveBtn := x;
     feedback_timers := feedback_timers p |}.

Definition set_feedback_timers (x : list (nat * N * feedback)) (p : Page) : Page :=
  {| core := core p; data_theme := data_theme p; style_fontSize := style_fontSize p;
     fontSizeSlider := fontSizeSlider p; saveBtn := saveBtn p;
     feedback_timers := x |}.

(** Computations on the page that may throw. *)
Definition PM (A : Type) : Type := Page → outcome A * Page.

Definition page_ret {A} (a : A) : PM A := λ p, (Normal a, p).

Definition page_bind {A B} (m : PM A) (k : A → PM B) : PM B :=
  λ p, match m p with
       | (Normal a, p') => k a p'
       | (Throws e, p') => (Throws e, p')
       end.

Definition page_try_catch {A} (m : PM A) (handler : exn → PM A) : PM A :=
  λ p, match m p with
       | (Normal a, p') => (Normal a, p')
       | (Throws e, p') => handler e p'
       end.

Definition page_gets {A} (f : Page → A) : PM A := λ p, (Normal (f p), p).

Definition page_modify (f : Page → Page) : PM unit := λ p, (Normal tt, f p).

(** A computation of the editor, run on the page. *)
Definition on_core {A} (m : M A) : PM A :=
  λ p, match m (core p) with (o, w') => (o, set_core w' p) end.

Declare Scope page_scope.
Delimit Scope page_scope with page.
Notation "'let!' x ':=' m 'in' k" := (page_bind m (λ x, k))
  (at level 10, x name, m at level 100, k at level 200) : page_scope.
Notation "m ';;;' k" := (page_bind m (λ _, k))
  (at level 100, k at level 200, right associativity) : page_scope.

(** [setTimeout] for the button's callback: the ids are those of the
    editor's timers. *)
Definition page_setTimeout (f : feedback) (delay : N) : PM nat :=
  λ p, let id := next_timer (core p) in
       (Normal id,
        set_feedback_timers (feedback_timers p ++ [(id, clock (core p) + delay, f)])
          (set_core (set_next_timer (S id) (core p)) p)).

Definition theme_key : string := "sam-theme".

Definition font_size_key : string := "sam-font-size".

(** [x || fallback] for what [getItem] returns: [null] and the empty
    string give the fallback. *)
Definition or_default (x : option jsstring) (fallback : jsstring) : jsstring :=
  match x with
  | Some (c :: s) => c :: s
  | Some [] | None => fallback
  end.

Definition saveContent `{Runtime} : PM unit :=
  (page_try_catch
     (on_core saveToLocalStorage ;;;
      on_core (showStatus (Msg "Content saved successfully!") "success") ;;;
      let! btn := page_gets saveBtn in
      match btn with
      | Some _ =>
          page_modify (set_saveBtn (Some true)) ;;;
          let! _ := page_setTimeout SavedOff 1000 in
          page_ret tt
      | None => page_ret tt
      end)
     (λ error,
        on_core (console_error "Error saving content:" error) ;;;
        on_core (showStatus (Msg "Error saving content") "error")))%page.

Definition toggleTheme : PM unit :=
  (page_try_catch
     (let! currentTheme := page_gets data_theme in
      let newTheme : string :=
        if decide (currentTheme = Some (str "dark")) then "light" else "dark" in
      page_modify (set_data_theme (Some (str newTheme))) ;;;
      on_core (localStorage_setItem theme_key (str newTheme)) ;;;
      on_core (showStatus (Msg ("Switched to " +:+ newTheme +:+ " theme")) "success"))
     (λ error,
        on_core (console_error "Error toggling theme:" error) ;;;
        on_core (showStatus (Msg "Error changing theme") "error")))%page.

(** [handleFontSizeChange(event)] for [event.target.value]. *)
Definition handleFontSizeChange (fontSize : jsstring) : PM unit :=
  (page_try_catch
     (page_modify (set_style_fontSize (fontSize ++ str "px")) ;;;
      on_core (localStorage_setItem font_size_key fontSize))
     (λ error, on_core (console_error "Error changing font size:" error)))%page.

Definition initializeTheme : PM unit :=
  (page_try_catch
     (let! saved := on_core (localStorage_getItem theme_key) in
      let savedTheme := or_default saved (str "light") in
      page_modify (set_data_theme (Some savedTheme)))
     (λ error, on_core (console_error "Error initializing theme:" error)))%page.

Definition initializeFontSize : PM unit :=
  (page_try_catch
     (let! saved := on_core (localStorage_getItem font_size_key) in
      let savedFontSize := or_default saved (str "16") in
      let! slider := page_gets fontSizeSlider in
      match slider with
      | Some _ => page_modify (set_fontSizeSlider (Some savedFontSize))
      | None => page_ret tt
      end ;;;
      page_modify (set_style_fontSize (savedFontSize ++ str "px")))
     (λ error, on_core (console_error "Error initializing font size:" error)))%page.

(** A page around a fresh editor: no theme attribute yet, slider and
    button found. *)
Definition fresh_page (st : Storage) : Page :=
  {| core := fresh st; data_theme := None; style_fontSize := [];
     fontSizeSlider := Some (str "16"); saveBtn := Some false;
     feedback_timers := [] |}.

(** The theme [toggleTheme] switches to. *)
Definition other_theme (current : option jsstring) : string :=
  if decide (current = Some (str "dark")) then "light" else "dark".

(** A runtime whose dates read back what they print: the letter T and the
    milliseconds in decimal. *)
Definition reading_runtime : Runtime :=
  {| Number_toString := λ _, str "NaN";
     Date_toISOString := λ t, str "T" ++ decimal t;
     Date_construct := λ v,
       match v with
       | JStr (84 :: ds) =>
           match parse_digits 0 0 ds with
           | (m, S _, []) => Normal (Some (Z.of_N m))
           | _ => Normal None
           end
       | _ => Normal None
       end |}.

(* ===================================================================== *)
(** ** Keys among the edits; the newlines of the textarea *)
(* ===================================================================== *)

(** *** Runs of edits and keys *)

(** What the user does in the textarea.  An edit leaves [content] in the
    textarea and raises [input], which runs [handleTextInput].  A key going
    down raises [keydown], which runs [handleKeyDown] with the selection
    [start .. end_]; for Tab the handler prevents the default action and
    assigns the text itself, and an assignment by script raises no
    [input]. *)
Inductive step :=
| Edit (content : jsstring)
| Key (key : string) (shiftKey : bool) (start end_ : nat).

(** The [keydown] listener of the textarea, as one turn of the event
    loop. *)
Definition keydown (key : string) (shiftKey : bool) (start end_ : nat)
    (w : World) : World :=
  dispatch (handleKeyDown key shiftKey start end_ ;;; ret tt) w.

Definition act `{Runtime} (s : step) (w : World) : World :=
  match s with
  | Edit content => input content w
  | Key key shiftKey start end_ => keydown key shiftKey start end_ w
  end.

(** Steps in a row: before each one, [gap] milliseconds pass. *)
Fixpoint run `{Runtime} (steps : list (nat * step)) (w : World) : World :=
  match steps with
  | [] => w
  | (gap, s) :: rest => run rest (act s (advance gap w))
  end.

(** The milliseconds the steps take. *)
Definition span (steps : list (nat * step)) : nat :=
  foldr (λ k acc, (k.1 + acc)%nat) 0%nat steps.

(** The milliseconds since the last edit once the steps are done, [since]
    being the milliseconds since the last edit before them. *)
Fixpoint since_edit (since : nat) (steps : list (nat * step)) : nat :=
  match steps with
  | [] => since
  | (_, Edit _) :: rest => since_edit 0 rest
  | (gap, Key _ _ _ _) :: rest => since_edit (since + gap) rest
  end.

(** Every step comes within the delay of [handleTextInput]: less than
    2000 ms after the last edit before it. *)
Fixpoint in_window (since : nat) (steps : list (nat * step)) : Prop :=
  match steps with
  | [] => True
  | (gap, Edit _) :: rest => (since + gap < 2000)%nat ∧ in_window 0 rest
  | (gap, Key _ _ _ _) :: rest =>
      (since + gap < 2000)%nat ∧ in_window (since + gap) rest
  end.

(** The content of the last edit among the steps; [first] when there is
    none. *)
Fixpoint last_edit (first : jsstring) (steps : list (nat * step)) : jsstring :=
  match steps with
  | [] => first
  | (_, Edit content) :: rest => last_edit content rest
  | (_, Key _ _ _ _) :: rest => last_edit first rest
  end.

(** Whether Tab went down after the last edit ([before]: whether it had
    before the steps). *)
Fixpoint tab_since_edit (before : bool) (steps : list (nat * step)) : bool :=
  match steps with
  | [] => before
  | (_, Edit _) :: rest => tab_since_edit false rest
  | (_, Key key _ _ _) :: rest =>
      tab_since_edit (before || bool_decide (key = "Tab")) rest
  end.

(** The [content] of each record written so far, oldest first; [None] for
    a text that parses to no record with a content string. *)
Definition written_contents (w : World) : list (option jsstring) :=
  (λ kv, match JSON_parse kv.2 with
         | Some data =>
             match get_property data (str "content") with
             | Normal (Some (JStr s)) => Some s
             | _ => None
             end
         | None => None
         end) <$> writes (log w).

(** A page on which [startAutoSave] has run, as [init] leaves it. *)
Definition started (st : Storage) : World :=
  dispatch startAutoSave (fresh st).

(** After a first edit: a second edit 1.5 seconds later, Tab at the end of
    the text one second after that, and Shift alone half a second later. *)
Definition sample_steps : list (nat * step) :=
  [(1500%nat, Edit (str "ab")); (1000%nat, Key "Tab" false 2%nat 2%nat);
   (500%nat, Key "Shift" true 3%nat 3%nat)].

(** *** Newlines in a textarea *)

(** What [this.textArea.value] reads after a string was assigned to it.
    The textarea keeps the assigned string as its raw value, and the getter
    returns the raw value with newlines normalised: every pair CR LF
    becomes LF, then every CR that is left becomes LF. *)
Fixpoint normalize_newlines (s : jsstring) : jsstring :=
  match s with
  | [] => []
  | c :: rest =>
      if c =? 13 then
        10 :: match rest with
              | c' :: rest' =>
                  if c' =? 10 then normalize_newlines rest'
                  else normalize_newlines rest
              | [] => []
              end
      else c :: normalize_newlines rest
  end.

(** The normalisation as the HTML Standard words it, in two passes. *)
Fixpoint crlf_to_lf (s : jsstring) : jsstring :=
  match s with
  | [] => []
  | c :: rest =>
      match rest with
      | c' :: rest' =>
          if (c =? 13) && (c' =? 10) then 10 :: crlf_to_lf rest'
          else c :: crlf_to_lf rest
      | [] => [c]
      end
  end.

Definition cr_to_lf (s : jsstring) : jsstring :=
  (λ c, if c =? 13 then 10 else c) <$> s.

(** [k] is a member of the object, and no member after it has its name:
    the value [JSON.parse] leaves under [k] when the text repeats the
    name. *)
Definition last_member (k : jsstring) (v : json) (fields : list (jsstring * json)) : Prop :=
  ∃ pre post, fields = pre ++ (k, v) :: post ∧ Forall (λ p, p.1 ≠ k) post.

(** The object has no member named [k]. *)
Definition no_member (k : jsstring) (fields : list (jsstring * json)) : Prop :=
  Forall (λ p, p.1 ≠ k) fields.

(** The store can be read and holds [text] under the fixed key. *)
Definition holds (w : World) (text : jsstring) : Prop :=
  enabled (storage w) = true ∧ items (storage w) !! storage_key = Some text.

Module Textarea.

(** [this.textArea.value = v], with [value] the string a later read of
    [this.textArea.value] returns. *)
Definition assign (v : jsstring) : M unit :=
  modify (set_value (normalize_newlines v)).

(** [loadSavedContent] with the textarea normalising what it is handed.
    The stored content is the one string that reaches the textarea from
    outside the page; every other assignment of the class hands over a text
    made from what the textarea returned before. *)
Definition loadSavedContent `{Runtime} : M unit :=
  try_catch
    (let! savedData := localStorage_getItem storage_key in
     match savedData with
     | Some (c :: text) =>
         let! data := match JSON_parse (c :: text) with
                      | Some v => ret v
                      | None => throw SyntaxError
                      end in
         let! content := lift (get_property data (str "content")) in
         let! v := lift (ToString (or_empty content)) in
         assign v ;;;
         updateStats ;;;
         let! timestamp := lift (get_property data (str "timestamp")) in
         match timestamp with
         | Some ts =>
             if truthy ts then
               let! lastSaved := lift (Date_construct ts) in
               let! now := gets clock in
               match lastSaved with
               | Some t =>
                   let diffMinutes := ((Z.of_N now - t) / 60000)%Z in
                   if (diffMinutes <? 60)%Z
                   then showStatus (MsgRestored diffMinutes) "info"
                   else ret tt
               | None => ret tt
               end
             else ret tt
         | None => ret tt
         end
     | Some [] | None => ret tt
     end)
    (λ error, console_error "Error loading saved content:" error).

End Textarea.

(** Stored text whose content holds CR LF and a lone CR:
    [{"content":"a\r\nb\rc"}]. *)
Definition cr_record : jsstring :=
  123 :: QuoteJSONString (str "content") ++ 58 ::
  QuoteJSONString ([97; 13; 10; 98; 13; 99]) ++ [125].

(* ===================================================================== *)
(** * Theorems *)
(* ===================================================================== *)

#[local] Arguments N.eqb : simpl never.
#[local] Arguments N.leb : simpl never.
#[local] Arguments N.ltb : simpl never.
#[local] Arguments N.add : simpl never.
#[local] Arguments N.mul : simpl never.
#[local] Arguments N.sub : simpl never.
#[local] Arguments N.div : simpl never.
#[local] Arguments N.modulo : simpl never.

(** ** Splitting and counting *)

Lemma cons_head_length c ps : ps ≠ [] → length (cons_head c ps) = length ps.
Proof. destruct ps; [done | reflexivity]. Qed.

Lemma split_on_nonempty sep s : split_on sep s ≠ [].
Proof.
  destruct s as [| c r]; simpl; [done |].
  destruct (c =? sep); [done |].
  destruct (split_on sep r); done.
Qed.

Lemma count_char_cons x c s :
  count_char x (c :: s) = ((if (c =? x)%N then 1 else 0) + count_char x s)%nat.
Proof.
  unfold count_char. destruct (N.eqb_spec c x) as [-> | Hne].
  - by rewrite filter_cons_True.
  - by rewrite filter_cons_False.
Qed.

Lemma split_on_length sep s : length (split_on sep s) = S (count_char sep s).
Proof.
  induction s as [| c r IH]; [reflexivity |].
  rewrite count_char_cons. simpl.
  destruct (c =? sep); simpl.
  - by rewrite IH.
  - rewrite cons_head_length by apply split_on_nonempty. by rewrite IH.
Qed.

Lemma count_char_app x s t :
  count_char x (s ++ t) = (count_char x s + count_char x t)%nat.
Proof. unfold count_char. by rewrite filter_app, length_app. Qed.

Lemma join_cons_head c ps : ps ≠ [] → join [10] (cons_head c ps) = c :: join [10] ps.
Proof. destruct ps as [| p [| q ps]]; done. Qed.

Lemma join_split_on s : join [10] (split_on 10 s) = s.
Proof.
  induction s as [| c r IH]; [reflexivity |]. simpl.
  destruct (N.eqb_spec c 10) as [-> | Hne].
  - pose proof (split_on_nonempty 10 r).
    destruct (split_on 10 r) eqn:E; [done |]. simpl in *. by rewrite IH.
  - rewrite join_cons_head by apply split_on_nonempty. by rewrite IH.
Qed.

(** ** Trimming and tokens *)

Lemma trimStart_blank s : forallb is_space s = true → trimStart s = [].
Proof.
  induction s as [| c r IH]; simpl; [done |].
  destruct (is_space c); simpl; [apply IH | done].
Qed.

Lemma trimStart_nil_blank s : trimStart s = [] → forallb is_space s = true.
Proof.
  induction s as [| c r IH]; simpl; [done |].
  destruct (is_space c); simpl; [apply IH | done].
Qed.

Lemma trimStart_starts s : trimStart s ≠ [] → starts_solid (trimStart s) = true.
Proof.
  induction s as [| c r IH]; simpl; [done |].
  destruct (is_space c) eqn:E; [apply IH |].
  intros _. simpl. by rewrite E.
Qed.

Lemma trimStart_snoc s c :
  is_space c = false → trimStart (s ++ [c]) = trimStart s ++ [c].
Proof.
  intros Hc. induction s as [| d r IH]; simpl.
  - by rewrite Hc.
  - destruct (is_space d); [apply IH | done].
Qed.

Lemma ends_solid_snoc s c : ends_solid (s ++ [c]) = negb (is_space c).
Proof.
  induction s as [| d r IH]; [reflexivity |].
  destruct r as [| e r']; [reflexivity | exact IH].
Qed.

Lemma starts_solid_rev_ends s : starts_solid s = true → ends_solid (rev s) = true.
Proof.
  destruct s as [| c r]; simpl; [done |]. intros Hc.
  by rewrite ends_solid_snoc.
Qed.

Lemma trimEnd_starts s : starts_solid s = true → starts_solid (trimEnd s) = true.
Proof.
  destruct s as [| c r]; simpl; [done |]. intros Hc.
  unfold trimEnd. simpl.
  rewrite trimStart_snoc by by destruct (is_space c).
  by rewrite rev_app_distr.
Qed.

Lemma trimEnd_ends s : trimEnd s ≠ [] → ends_solid (trimEnd s) = true.
Proof.
  unfold trimEnd. intros Hne.
  apply starts_solid_rev_ends, trimStart_starts.
  intros E. by rewrite E in Hne.
Qed.

Lemma trim_solid s :
  trim s ≠ [] → starts_solid (trim s) = true ∧ ends_solid (trim s) = true.
Proof.
  unfold trim. intros Hne. split.
  - apply trimEnd_starts, trimStart_starts.
    intros E. by rewrite E in Hne.
  - by apply trimEnd_ends.
Qed.

Lemma forallb_rev {A} (f : A → bool) l : forallb f (rev l) = forallb f l.
Proof.
  induction l as [| x l IH]; [reflexivity |].
  simpl. rewrite forallb_app, IH. simpl. by rewrite andb_true_r, andb_comm.
Qed.

Lemma trim_blank s : trim s = [] ↔ forallb is_space s = true.
Proof.
  unfold trim, trimEnd. split.
  - intros E. apply (f_equal (@rev N)) in E. rewrite rev_involutive in E. simpl in E.
    apply trimStart_nil_blank in E. rewrite forallb_rev in E.
    destruct (trimStart s) as [| c r] eqn:Es.
    + by apply trimStart_nil_blank.
    + assert (Hs : starts_solid (trimStart s) = true)
        by (apply trimStart_starts; by rewrite Es).
      rewrite Es in Hs. simpl in *. by destruct (is_space c).
  - intros Hb. by rewrite (trimStart_blank s Hb).
Qed.

(** On a string that ends with a non-space character, [split(/\s+/)]
    produces exactly the tokens: all of them when a separator match is
    open (leading spaces are skipped), and also from a fresh start when the
    string starts with a non-space character. *)
Lemma split_ws_tokens s :
  ends_solid s = true →
  split_ws true s = tokens s
  ∧ (starts_solid s = true → split_ws false s = tokens s).
Proof.
  induction s as [| c r IH]; [done |].
  intros He. simpl. destruct (is_space c) eqn:Ec.
  - assert (Hr : ends_solid r = true) by (destruct r; [simpl in He; by rewrite Ec in He | done]).
    split; [by apply IH | done].
  - assert (Hboth : cons_head c (split_ws false r)
                    = match r with
                      | [] => [[c]]
                      | c' :: _ => if is_space c' then [c] :: tokens r
                                   else cons_head c (tokens r)
                      end).
    { destruct r as [| c' r']; [reflexivity |].
      assert (Hr : ends_solid (c' :: r') = true) by done.
      destruct (IH Hr) as [IH1 IH2].
      destruct (is_space c') eqn:Ec'.
      - simpl. rewrite Ec'. simpl.
        simpl in IH1. rewrite Ec' in IH1. by rewrite IH1.
      - rewrite IH2; [done |]. simpl. by rewrite Ec'. }
    by rewrite Hboth.
Qed.

Lemma words_tokens s :
  words s = length (tokens (trim s)).
Proof.
  unfold words. destruct (decide (trim s = [])) as [E | Hne].
  - by rewrite E.
  - destruct (trim_solid s Hne) as [Hs He].
    destruct (split_ws_tokens (trim s) He) as [_ H2]. by rewrite (H2 Hs).
Qed.

(** *** [tokens] is what the words say *)

Lemma tokens_solid s : Forall (λ t, t ≠ [] ∧ forallb is_space t = false
                                    ∧ existsb is_space t = false) (tokens s).
Proof.
  induction s as [| c r IH]; simpl; [constructor |].
  destruct (is_space c) eqn:Ec; [done |].
  destruct r as [| c' r']; [constructor; [| constructor]; simpl; by rewrite Ec |].
  destruct (is_space c') eqn:Ec'.
  - constructor; [simpl; by rewrite Ec | done].
  - destruct (tokens (c' :: r')) as [| t ts] eqn:Et; simpl.
    + constructor; [simpl; by rewrite Ec | constructor].
    + inversion IH as [| ? ? [H1 [H2 H3]] H4]; subst.
      constructor; [| done]. simpl. rewrite Ec. simpl. by rewrite H3.
Qed.

Lemma tokens_concat s : concat (tokens s) = filter (λ c, is_space c = false) s.
Proof.
  induction s as [| c r IH]; [reflexivity |]. simpl.
  destruct (is_space c) eqn:Ec.
  - rewrite filter_cons_False by (by rewrite Ec). done.
  - rewrite filter_cons_True by done. rewrite <- IH.
    destruct r as [| c' r']; [reflexivity |].
    destruct (is_space c'); [reflexivity |].
    by destruct (tokens (c' :: r')).
Qed.

Lemma tokens_trimStart s : tokens (trimStart s) = tokens s.
Proof.
  induction s as [| c r IH]; [reflexivity |]. simpl.
  destruct (is_space c) eqn:Ec; [done |]. simpl. by rewrite Ec.
Qed.

Lemma tokens_snoc_space s c : is_space c = true → tokens (s ++ [c]) = tokens s.
Proof.
  intros Hc. induction s as [| d r IH]; simpl.
  - by rewrite Hc.
  - destruct (is_space d) eqn:Ed; [done |].
    destruct r as [| e r']; simpl.
    + by rewrite Hc.
    + simpl in IH. by rewrite IH.
Qed.

Lemma tokens_trimEnd s : tokens (trimEnd s) = tokens s.
Proof.
  unfold trimEnd. rewrite <- (rev_involutive s) at 2.
  induction (rev s) as [| c r IH]; [reflexivity |]. simpl.
  destruct (is_space c) eqn:Ec.
  - rewrite IH. symmetry. by apply tokens_snoc_space.
  - done.
Qed.

Lemma tokens_trim s : tokens (trim s) = tokens s.
Proof. unfold trim. by rewrite tokens_trimEnd, tokens_trimStart. Qed.

Lemma tokens_blank s : forallb is_space s = true → tokens s = [].
Proof.
  induction s as [| c r IH]; simpl; [done |].
  destruct (is_space c); simpl; [apply IH | done].
Qed.

Lemma tokens_skip pre s : forallb is_space pre = true → tokens (pre ++ s) = tokens s.
Proof.
  induction pre as [| c r IH]; simpl; [done |].
  destruct (is_space c); simpl; [apply IH | done].
Qed.

Lemma tokens_first t rest :
  t ≠ [] → existsb is_space t = false → starts_solid rest = false →
  tokens (t ++ rest) = t :: tokens rest.
Proof.
  induction t as [| c t' IH]; [done |].
  intros _ Hsolid Hrest. simpl in Hsolid.
  apply orb_false_iff in Hsolid as [Hc Ht'].
  destruct t' as [| c2 t2].
  - simpl. rewrite Hc. destruct rest as [| c' r']; [done |].
    simpl in Hrest. apply negb_false_iff in Hrest. by rewrite Hrest.
  - assert (Hc2 : is_space c2 = false)
      by (simpl in Ht'; by apply orb_false_iff in Ht' as [? _]).
    change (tokens ((c :: c2 :: t2) ++ rest))
      with (if is_space c then tokens ((c2 :: t2) ++ rest)
            else if is_space c2 then [c] :: tokens ((c2 :: t2) ++ rest)
                 else cons_head c (tokens ((c2 :: t2) ++ rest))).
    rewrite Hc, Hc2, IH by done. reflexivity.
Qed.

(** The cut is unique, and [tokens] computes it. *)
Lemma tokenized_tokens s ts : tokenized s ts → ts = tokens s.
Proof.
  induction 1 as [s Hb | pre t rest ts Hpre Hne Hsolid Hrest _ IH].
  - by rewrite tokens_blank.
  - rewrite tokens_skip by done. rewrite tokens_first by done. by rewrite IH.
Qed.

Lemma tokenized_space c s ts : is_space c = true → tokenized s ts → tokenized (c :: s) ts.
Proof.
  intros Hc [s' Hb | pre t rest ts' Hpre Hne Hsolid Hrest Hts].
  - constructor. simpl. by rewrite Hc.
  - apply (tokenized_token (c :: pre)); try done. simpl. by rewrite Hc.
Qed.

Lemma tokens_tokenized s : tokenized s (tokens s).
Proof.
  induction s as [| c r IH]; [by constructor |].
  simpl. destruct (is_space c) eqn:Ec; [by apply tokenized_space |].
  assert (Hc : existsb is_space [c] = false) by (simpl; by rewrite Ec).
  destruct r as [| c' r'].
  - apply (tokenized_token [] [c] []); [done | done | done | done | by constructor].
  - destruct (is_space c') eqn:Ec'.
    + apply (tokenized_token [] [c] (c' :: r')); [done | done | done | | done].
      simpl. by rewrite Ec'.
    + inversion IH as [s' Hb | pre t rest ts Hpre Hne Hsolid Hrest Hts Hs Hts'].
      * simpl in Hb. by rewrite Ec' in Hb.
      * destruct pre as [| p pre'].
        -- simpl in Hs. simpl.
           replace (c :: c' :: r') with ([] ++ (c :: t) ++ rest)
             by (simpl; by rewrite Hs).
           apply (tokenized_token [] (c :: t) rest ts); [done | done | | done | done].
           simpl. by rewrite Ec.
        -- simpl in Hs. injection Hs as -> _. simpl in Hpre. by rewrite Ec' in Hpre.
Qed.

(** ** Shift+Tab *)

Lemma startsWith_spaces n : ∀ line,
  startsWith (repeat 32 n) line = (n <=? leading_spaces line)%nat.
Proof.
  induction n as [| n IH]; intros line; [reflexivity |].
  destruct line as [| c r]; [reflexivity |].
  simpl. rewrite (N.eqb_sym 32 c). destruct (c =? 32); [apply IH | reflexivity].
Qed.

Lemma startsWith_four line :
  startsWith (str "    ") line = (4 <=? leading_spaces line)%nat.
Proof. apply (startsWith_spaces 4). Qed.

Lemma unindent_strip line : unindent line = strip_tab_or_four line.
Proof.
  unfold unindent. rewrite startsWith_four.
  destruct line as [| c r]; [reflexivity |].
  unfold strip_tab_or_four. simpl startsWith.
  rewrite (N.eqb_sym 9 c), andb_true_r. by destruct (c =? 9).
Qed.

Lemma removeIndentation_loop_spec n : ∀ i (ls : list jsstring),
  (i + n ≤ length ls)%nat →
  ∃ ls', removeIndentation_loop n i ls = Normal ls'
         ∧ length ls' = length ls
         ∧ ∀ j, ls' !! j = if bool_decide (i ≤ j < i + n)%nat
                           then unindent <$> ls !! j else ls !! j.
Proof.
  induction n as [| n IH]; intros i ls Hlen.
  - exists ls. repeat split. intros j.
    rewrite bool_decide_eq_false_2 by lia. done.
  - destruct (lookup_lt_is_Some_2 ls i) as [line Hline]; [lia |].
    simpl. rewrite Hline.
    set (ls1 := if startsWith [9] line then <[i:=drop 1 line]> ls
                else if startsWith (str "    ") line then <[i:=drop 4 line]> ls
                else ls).
    assert (E1 : ls1 = <[i := unindent line]> ls).
    { unfold ls1, unindent. destruct (startsWith [9] line); [done |].
      destruct (startsWith (str "    ") line); [done |].
      by rewrite list_insert_id. }
    destruct (IH (S i) ls1) as (ls' & Hrun & Hl & Hget).
    { rewrite E1, length_insert. lia. }
    exists ls'. split; [done |]. split.
    { rewrite Hl, E1. apply length_insert. }
    intros j. rewrite Hget, E1.
    destruct (decide (j = i)) as [-> | Hne].
    + rewrite bool_decide_eq_false_2 by lia.
      rewrite bool_decide_eq_true_2 by lia.
      rewrite list_lookup_insert_eq by lia. by rewrite Hline.
    + rewrite list_lookup_insert_ne by done.
      destruct (decide (S i ≤ j < S i + n)%nat).
      * rewrite !bool_decide_eq_true_2 by lia. done.
      * rewrite !bool_decide_eq_false_2 by lia. done.
Qed.

Lemma line_of_count text pos : line_of text pos = count_char 10 (take pos text).
Proof.
  unfold line_of, substring. change (drop 0 text) with text.
  rewrite split_on_length. replace (pos - 0)%nat with pos by lia. lia.
Qed.

Lemma line_of_bound text pos : (line_of text pos < length (split_on 10 text))%nat.
Proof.
  rewrite line_of_count, split_on_length.
  rewrite <- (take_drop pos text) at 2. rewrite count_char_app. lia.
Qed.

(** ** JSON: what [JSON.parse] reads back from [JSON.stringify] *)

Ltac settle_tests :=
  repeat match goal with
    | |- context [N.eqb ?a ?b] =>
        first [ rewrite (proj2 (N.eqb_eq a b)) by lia
              | rewrite (proj2 (N.eqb_neq a b)) by lia ]
    | |- context [N.leb ?a ?b] =>
        first [ rewrite (proj2 (N.leb_le a b)) by lia
              | rewrite (proj2 (N.leb_gt a b)) by lia ]
    | |- context [N.ltb ?a ?b] =>
        first [ rewrite (proj2 (N.ltb_lt a b)) by lia
              | rewrite (proj2 (N.ltb_ge a b)) by lia ]
    end.

Lemma hex_value_digit d : d < 16 → hex_value (hex_digit d) = Some d.
Proof.
  intros Hd. unfold hex_value, hex_digit.
  destruct (N.ltb_spec d 10); settle_tests; simpl; f_equal; lia.
Qed.

Lemma hex_recombine c :
  c < 65536 →
  (c / 4096 mod 16) * 4096 + (c / 256 mod 16) * 256 + (c / 16 mod 16) * 16 + c mod 16 = c.
Proof.
  intros H.
  replace (c / 4096) with (c / 16 / 16 / 16) by (rewrite !N.Div0.div_div; reflexivity).
  replace (c / 256) with (c / 16 / 16) by (rewrite !N.Div0.div_div; reflexivity).
  pose proof (N.div_mod c 16 ltac:(discriminate)).
  pose proof (N.div_mod (c / 16) 16 ltac:(discriminate)).
  pose proof (N.div_mod (c / 16 / 16) 16 ltac:(discriminate)).
  pose proof (N.div_mod (c / 16 / 16 / 16) 16 ltac:(discriminate)).
  pose proof (N.mod_lt c 16 ltac:(discriminate)).
  pose proof (N.mod_lt (c / 16) 16 ltac:(discriminate)).
  pose proof (N.mod_lt (c / 16 / 16) 16 ltac:(discriminate)).
  pose proof (N.mod_lt (c / 16 / 16 / 16) 16 ltac:(discriminate)).
  assert (c / 16 / 16 / 16 / 16 = 0)
    by (rewrite !N.Div0.div_div; apply N.div_small; exact H).
  lia.
Qed.

(** How [parse_string] reads each of the three shapes [quote_chars] writes. *)
Lemma parse_string_escape e ch s :
  e ≠ 117 → simple_escape e = Some ch →
  parse_string (92 :: e :: s)
  = match parse_string s with
    | Some (t, rest) => Some (ch :: t, rest)
    | None => None
    end.
Proof.
  intros He Hch. simpl. settle_tests. by rewrite Hch.
Qed.

Lemma parse_string_plain c s :
  c ≠ 34 → c ≠ 92 → 32 ≤ c →
  parse_string (c :: s)
  = match parse_string s with
    | Some (t, rest) => Some (c :: t, rest)
    | None => None
    end.
Proof. intros. simpl. settle_tests. done. Qed.

Lemma parse_string_unicode c s :
  c < 65536 →
  parse_string (unicode_escape c ++ s)
  = match parse_string s with
    | Some (t, rest) => Some (c :: t, rest)
    | None => None
    end.
Proof.
  intros Hc. unfold unicode_escape. simpl. settle_tests.
  rewrite !hex_value_digit by (apply N.mod_lt; discriminate).
  by rewrite hex_recombine.
Qed.

Lemma surrogate_range c :
  isHighSurrogate c || isLowSurrogate c = true → 55296 ≤ c ∧ c < 65536.
Proof.
  unfold isHighSurrogate, isLowSurrogate.
  intros H. apply orb_true_iff in H as [H | H];
    apply andb_true_iff in H as [H1 H2];
    apply N.leb_le in H1; apply N.leb_le in H2; lia.
Qed.

Lemma parse_string_quote_bounded n : ∀ s rest,
  (length s ≤ n)%nat →
  parse_string (quote_chars s ++ 34 :: rest) = Some (s, rest).
Proof.
  induction n as [| n IH]; intros s rest Hlen.
  { destruct s; [reflexivity | simpl in Hlen; lia]. }
  destruct s as [| c r]; [reflexivity |].
  assert (IHr : ∀ rest', parse_string (quote_chars r ++ 34 :: rest') = Some (r, rest'))
    by (intros; apply IH; simpl in Hlen; lia).
  cbn [quote_chars].
  destruct (N.eqb_spec c 8) as [-> |];
    [cbn [app]; rewrite (parse_string_escape 98 8) by done; by rewrite IHr |].
  destruct (N.eqb_spec c 9) as [-> |];
    [cbn [app]; rewrite (parse_string_escape 116 9) by done; by rewrite IHr |].
  destruct (N.eqb_spec c 10) as [-> |];
    [cbn [app]; rewrite (parse_string_escape 110 10) by done; by rewrite IHr |].
  destruct (N.eqb_spec c 12) as [-> |];
    [cbn [app]; rewrite (parse_string_escape 102 12) by done; by rewrite IHr |].
  destruct (N.eqb_spec c 13) as [-> |];
    [cbn [app]; rewrite (parse_string_escape 114 13) by done; by rewrite IHr |].
  destruct (N.eqb_spec c 34) as [-> |];
    [cbn [app]; rewrite (parse_string_escape 34 34) by done; by rewrite IHr |].
  destruct (N.eqb_spec c 92) as [-> |];
    [cbn [app]; rewrite (parse_string_escape 92 92) by done; by rewrite IHr |].
  destruct (N.ltb_spec c 32).
  { rewrite <- app_assoc, parse_string_unicode by lia. by rewrite IHr. }
  destruct (isHighSurrogate c) eqn:Hh.
  - destruct (surrogate_range c) as [? ?]; [by rewrite Hh |].
    destruct r as [| d r'].
    + rewrite parse_string_unicode by done. reflexivity.
    + destruct (isLowSurrogate d) eqn:Hl.
      * destruct (surrogate_range d) as [? ?]; [by rewrite Hl, orb_true_r |].
        cbn [app]. rewrite parse_string_plain by lia.
        rewrite parse_string_plain by lia.
        rewrite IH by (simpl in Hlen; lia). done.
      * rewrite <- app_assoc, parse_string_unicode by done. by rewrite IHr.
  - destruct (isLowSurrogate c) eqn:Hl.
    + destruct (surrogate_range c) as [? ?]; [by rewrite Hl, orb_true_r |].
      rewrite <- app_assoc, parse_string_unicode by done. by rewrite IHr.
    + cbn [app]. rewrite parse_string_plain by lia. by rewrite IHr.
Qed.

Lemma parse_string_quote s rest :
  parse_string (quote_chars s ++ 34 :: rest) = Some (s, rest).
Proof. by apply (parse_string_quote_bounded (length s)). Qed.

(** *** Numbers *)

Lemma parse_digits_stop a k c rest :
  is_digit c = false → parse_digits a k (c :: rest) = (a, k, c :: rest).
Proof. intros Hc. simpl. by rewrite Hc. Qed.

Lemma decimal_fuel_S f n acc :
  decimal_fuel (S f) n acc
  = if n <? 10 then (48 + n mod 10) :: acc
    else decimal_fuel f (n / 10) ((48 + n mod 10) :: acc).
Proof. reflexivity. Qed.

Lemma decimal_fuel_spec f : ∀ n acc,
  n < 2 ^ N.of_nat (S f) →
  ∃ d ds,
    decimal_fuel (S f) n acc = d :: ds ++ acc
    ∧ is_digit d = true
    ∧ (d = 48 → ds = [] ∧ n = 0)
    ∧ ∀ a k rest,
        parse_digits a k (d :: ds ++ rest)
        = parse_digits (a * 10 ^ N.of_nat (S (length ds)) + n) (k + S (length ds)) rest.
Proof.
  induction f as [| f IH]; intros n acc Hn.
  - assert (n < 10) by (change (2 ^ N.of_nat 1) with 2 in Hn; lia).
    exists (48 + n), []. simpl. rewrite N.mod_small by done.
    settle_tests. repeat split.
    + unfold is_digit. by settle_tests.
    + lia.
    + intros a k rest. simpl. unfold is_digit. settle_tests. simpl.
      change (10 ^ N.of_nat 1) with 10. f_equal; f_equal; lia.
  - rewrite decimal_fuel_S. destruct (N.ltb_spec n 10) as [Hlt | Hge].
    + exists (48 + n), []. rewrite N.mod_small by done. repeat split.
      * unfold is_digit. by settle_tests.
      * lia.
      * intros a k rest. simpl. unfold is_digit. settle_tests. simpl.
        change (10 ^ N.of_nat 1) with 10. f_equal; f_equal; lia.
    + pose proof (N.div_mod n 10 ltac:(discriminate)) as Hdm.
      pose proof (N.mod_lt n 10 ltac:(discriminate)) as Hm.
      assert (Hq : n / 10 < 2 ^ N.of_nat (S f)).
      { rewrite (Nat2N.inj_succ (S f)), N.pow_succ_r' in Hn.
        remember (2 ^ N.of_nat (S f)) as P. remember (n / 10) as q.
        remember (n mod 10) as r. lia. }
      destruct (IH (n / 10) ((48 + n mod 10) :: acc) Hq) as (d & ds & Hrun & Hd & Hz & Hp).
      exists d, (ds ++ [48 + n mod 10]). split; [| split; [| split]].
      * rewrite Hrun. by rewrite <- app_assoc.
      * done.
      * intros ->. destruct (Hz eq_refl) as [_ Hq0].
        remember (n / 10) as q. remember (n mod 10) as r. lia.
      * intros a k rest. rewrite <- app_assoc. cbn [app]. rewrite Hp.
        rewrite length_app. simpl length.
        replace (N.of_nat (S (length ds + 1))) with (N.succ (N.of_nat (S (length ds)))) by lia.
        rewrite N.pow_succ_r'.
        remember (10 ^ N.of_nat (S (length ds))) as P.
        remember (n / 10) as q. remember (n mod 10) as r.
        simpl parse_digits. unfold is_digit at 1. settle_tests. simpl.
        replace ((a * P + q) * 10 + (48 + r - 48)) with (a * (10 * P) + n) by lia.
        replace (S (k + S (length ds))) with (k + S (length ds + 1))%nat by lia.
        reflexivity.
Qed.

Lemma decimal_spec n :
  ∃ d ds,
    decimal n = d :: ds
    ∧ is_digit d = true
    ∧ (d = 48 → ds = [] ∧ n = 0)
    ∧ ∀ a k rest,
        parse_digits a k (d :: ds ++ rest)
        = parse_digits (a * 10 ^ N.of_nat (S (length ds)) + n) (k + S (length ds)) rest.
Proof.
  unfold decimal.
  destruct (decimal_fuel_spec (N.to_nat (N.log2 n)) n []) as (d & ds & Hrun & H).
  - rewrite Nat2N.inj_succ, N2Nat.id.
    destruct (N.eq_dec n 0) as [-> | Hne]; [done |].
    apply N.log2_spec. lia.
  - exists d, ds. by rewrite Hrun, app_nil_r.
Qed.

(** A printed natural number, followed by a character that cannot continue
    a number, reads back as that number. *)
Lemma parse_number_decimal n c rest :
  is_digit c = false → c ≠ 46 → c ≠ 101 → c ≠ 69 →
  parse_number (decimal n ++ c :: rest)
  = Some ({| num_neg := false; num_mant := n; num_exp := 0 |}, c :: rest).
Proof.
  intros Hc H46 H101 H69.
  destruct (decimal_spec n) as (d & ds & -> & Hd & Hz & Hp).
  assert (Hr : 48 ≤ d ≤ 57).
  { unfold is_digit in Hd. apply andb_true_iff in Hd as [H1 H2].
    apply N.leb_le in H1. apply N.leb_le in H2. lia. }
  unfold parse_number. cbn [app]. settle_tests.
  assert (Hint : parse_int (d :: ds ++ c :: rest) = Some (n, c :: rest)).
  { unfold parse_int. destruct (N.eqb_spec d 48) as [-> | Hne].
    - destruct (Hz eq_refl) as [-> ->]. done.
    - rewrite Hd. rewrite Hp, parse_digits_stop by done. reflexivity. }
  rewrite Hint. unfold parse_frac, parse_exp. settle_tests. simpl. done.
Qed.

(** *** Values and members *)

Lemma parse_value_string f s rest :
  parse_value (S f) (QuoteJSONString s ++ rest) = Some (JStr s, rest).
Proof.
  unfold QuoteJSONString. cbn [app]. rewrite <- app_assoc. cbn [app].
  remember (quote_chars s ++ 34 :: rest) as X eqn:EX.
  simpl. unfold is_json_ws. settle_tests. simpl. settle_tests.
  by rewrite EX, parse_string_quote.
Qed.

Lemma parse_value_number f n c rest :
  c = 44 ∨ c = 125 →
  parse_value (S f) (decimal n ++ c :: rest)
  = Some (JNum {| num_neg := false; num_mant := n; num_exp := 0 |}, c :: rest).
Proof.
  intros Hc.
  assert (Hnum := parse_number_decimal n c rest).
  destruct (decimal_spec n) as (d & ds & E & Hd & _ & _).
  rewrite E in *. cbn [app] in *.
  assert (Hr : 48 ≤ d ≤ 57).
  { unfold is_digit in Hd. apply andb_true_iff in Hd as [H1 H2].
    apply N.leb_le in H1. apply N.leb_le in H2. lia. }
  remember (ds ++ c :: rest) as X eqn:EX.
  simpl. unfold is_json_ws. settle_tests. simpl. settle_tests.
  rewrite Hnum; [done | | | |]; unfold is_digit; destruct Hc as [-> | ->]; done.
Qed.

Lemma parse_value_object f k more :
  parse_value (S f) (123 :: QuoteJSONString k ++ more)
  = parse_members f (QuoteJSONString k ++ more) [].
Proof.
  unfold QuoteJSONString. cbn [app].
  remember (((quote_chars k ++ [34]) ++ more)) as X eqn:EX.
  simpl. unfold is_json_ws. settle_tests. simpl. settle_tests. done.
Qed.

Lemma parse_members_more f k vtext v rest acc :
  parse_value f (vtext ++ 44 :: rest) = Some (v, 44 :: rest) →
  parse_members (S f) (QuoteJSONString k ++ 58 :: vtext ++ 44 :: rest) acc
  = parse_members f rest ((k, v) :: acc).
Proof.
  intros Hv. unfold QuoteJSONString. cbn [app]. rewrite <- app_assoc. cbn [app].
  remember (quote_chars k ++ 34 :: 58 :: vtext ++ 44 :: rest) as X eqn:EX.
  simpl. unfold is_json_ws. settle_tests. simpl. settle_tests.
  rewrite EX, parse_string_quote.
  simpl. unfold is_json_ws. settle_tests. simpl. settle_tests.
  rewrite Hv.
  simpl. unfold is_json_ws. settle_tests. simpl. settle_tests. done.
Qed.

Lemma parse_members_last f k vtext v rest acc :
  parse_value f (vtext ++ 125 :: rest) = Some (v, 125 :: rest) →
  parse_members (S f) (QuoteJSONString k ++ 58 :: vtext ++ 125 :: rest) acc
  = Some (JObj (rev ((k, v) :: acc)), rest).
Proof.
  intros Hv. unfold QuoteJSONString. cbn [app]. rewrite <- app_assoc. cbn [app].
  remember (quote_chars k ++ 34 :: 58 :: vtext ++ 125 :: rest) as X eqn:EX.
  simpl. unfold is_json_ws. settle_tests. simpl. settle_tests.
  rewrite EX, parse_string_quote.
  simpl. unfold is_json_ws. settle_tests. simpl. settle_tests.
  rewrite Hv.
  simpl. unfold is_json_ws. settle_tests. simpl. settle_tests. done.
Qed.

(** *** The saved record *)

Lemma number_to_string_nat `{Runtime} n :
  N.of_nat n ≤ 2 ^ 53 →
  number_to_string (number_of_nat n) = decimal (N.of_nat n).
Proof.
  intros Hn. unfold number_to_string, number_of_nat. simpl.
  by rewrite (proj2 (N.leb_le _ _) Hn).
Qed.

Lemma cons_head_length_le c ps : (length (cons_head c ps) ≤ S (length ps))%nat.
Proof. destruct ps; simpl; lia. Qed.

Lemma tokens_length s : (length (tokens s) ≤ length s)%nat.
Proof.
  induction s as [| c r IH]; [done |]. simpl.
  destruct (is_space c); [lia |].
  destruct r as [| c' r']; [done |].
  destruct (is_space c').
  - simpl in *. lia.
  - pose proof (cons_head_length_le c (tokens (c' :: r'))).
    destruct (tokens (c' :: r')) eqn:E; simpl in *; lia.
Qed.

Lemma words_bound s : (words s ≤ length s)%nat.
Proof. rewrite words_tokens, tokens_trim. apply tokens_length. Qed.

Lemma lines_count s :
  lines s = if decide (s = []) then 0%nat else S (count_char 10 s).
Proof. unfold lines. by rewrite split_on_length. Qed.

Lemma lines_bound s : (lines s ≤ S (length s))%nat.
Proof.
  rewrite lines_count. destruct (decide (s = [])); [lia |].
  unfold count_char. pose proof (length_filter (λ c, c = 10) s). lia.
Qed.

Lemma stringify_saved_data `{Runtime} content timestamp :
  N.of_nat (length content) < 2 ^ 53 →
  JSON_stringify (saved_data content timestamp) = saved_text content timestamp.
Proof.
  intros Hlen.
  pose proof (words_bound content). pose proof (lines_bound content).
  assert (Hp : 2 ^ 53 = 9007199254740992) by reflexivity.
  unfold saved_data, saved_text, stats_text. cbn [JSON_stringify map join fst snd].
  rewrite !number_to_string_nat by (unfold chars; lia).
  cbn [app]. repeat (rewrite <- ?app_assoc; cbn [app]). reflexivity.
Qed.

Lemma parse_stats_text f c w l rest :
  parse_value (S (S (S (S (S f))))) (stats_text c w l ++ rest)
  = Some (JObj [ (str "chars", JNum (number_of_nat c));
                 (str "words", JNum (number_of_nat w));
                 (str "lines", JNum (number_of_nat l)) ], rest).
Proof.
  unfold stats_text. cbn [app]. repeat (rewrite <- ?app_assoc; cbn [app]).
  rewrite parse_value_object.
  rewrite (parse_members_more _ _ _ (JNum (number_of_nat c)))
    by (apply parse_value_number; by left).
  rewrite (parse_members_more _ _ _ (JNum (number_of_nat w)))
    by (apply parse_value_number; by left).
  rewrite (parse_members_last _ _ _ (JNum (number_of_nat l)))
    by (apply parse_value_number; by right).
  reflexivity.
Qed.

Lemma parse_saved_text f content timestamp rest :
  parse_value (9 + f) (saved_text content timestamp ++ rest)
  = Some (saved_data content timestamp, rest).
Proof.
  unfold saved_text. cbn [app Nat.add]. repeat (rewrite <- ?app_assoc; cbn [app]).
  rewrite parse_value_object.
  rewrite (parse_members_more _ _ _ (JStr content)) by apply parse_value_string.
  rewrite (parse_members_more _ _ _ (JStr timestamp)) by apply parse_value_string.
  rewrite (parse_members_last _ _ _ _ rest _ (parse_stats_text _ _ _ _ _)).
  reflexivity.
Qed.

Lemma saved_text_length content timestamp :
  ∃ n, length (saved_text content timestamp) = S (S (S (S n))).
Proof.
  unfold saved_text.
  assert (E : QuoteJSONString (str "content")
              = [34; 99; 111; 110; 116; 101; 110; 116; 34]) by (vm_compute; reflexivity).
  rewrite E. cbn [app length]. eexists. reflexivity.
Qed.

(** [JSON.parse] reads the record back from the text [JSON.stringify]
    wrote for it. *)
Lemma JSON_parse_saved_text content timestamp :
  JSON_parse (saved_text content timestamp) = Some (saved_data content timestamp).
Proof.
  unfold JSON_parse.
  destruct (saved_text_length content timestamp) as [n ->].
  replace (2 + 2 * S (S (S (S n))))%nat with (9 + (1 + 2 * n))%nat by lia.
  rewrite <- (app_nil_r (saved_text content timestamp)).
  rewrite parse_saved_text. reflexivity.
Qed.

Lemma JSON_roundtrip `{Runtime} content timestamp :
  N.of_nat (length content) < 2 ^ 53 →
  JSON_parse (JSON_stringify (saved_data content timestamp))
  = Some (saved_data content timestamp).
Proof. intros Hlen. rewrite stringify_saved_data by done. apply JSON_parse_saved_text. Qed.

(** *** The fuel of [JSON_parse] is enough *)

Ltac crack H :=
  repeat (match type of H with
          | context [match ?x with _ => _ end] =>
              lazymatch x with
              | context [match _ with _ => _ end] => fail
              | _ => destruct x eqn:?
              end
          end; try discriminate H).

Lemma skip_ws_length s : (length (skip_ws s) ≤ length s)%nat.
Proof.
  induction s as [| c r IH]; [done |]. simpl.
  destruct (is_json_ws c); simpl; lia.
Qed.

Lemma expect_length c s r : expect c s = Some r → length s = S (length r).
Proof. unfold expect. intros H. crack H. by simplify_eq. Qed.

Lemma expect_word_length w s r : expect_word w s = Some r → (length r ≤ length s)%nat.
Proof.
  unfold expect_word. intros H. crack H. simplify_eq. rewrite length_drop. lia.
Qed.

Lemma parse_string_length_bounded n : ∀ s x rest,
  (length s ≤ n)%nat → parse_string s = Some (x, rest) →
  (length rest < length s)%nat.
Proof.
  induction n as [| n IH]; intros s x rest Hn Hp.
  { destruct s; [discriminate | simpl in Hn; lia]. }
  destruct s as [| c r]; [discriminate |].
  simpl in Hp, Hn. crack Hp; simplify_eq; simpl in *;
    repeat match goal with
      | Hr : parse_string ?r = Some (?t, ?rest) |- _ =>
          apply IH in Hr; [| simpl; lia]
      end;
    simpl in *; lia.
Qed.

Lemma parse_string_length s x rest :
  parse_string s = Some (x, rest) → (length rest < length s)%nat.
Proof. by apply (parse_string_length_bounded (length s)). Qed.

Lemma parse_digits_length s : ∀ a k a' k' rest,
  parse_digits a k s = (a', k', rest) → (length rest ≤ length s)%nat.
Proof.
  induction s as [| c r IH]; intros a k a' k' rest Hp; simpl in Hp.
  - by simplify_eq.
  - destruct (is_digit c).
    + apply IH in Hp. simpl. lia.
    + by simplify_eq.
Qed.

Lemma parse_digits_length_digit c r a k a' k' rest :
  is_digit c = true → parse_digits a k (c :: r) = (a', k', rest) →
  (length rest ≤ length r)%nat.
Proof. intros Hc Hp. simpl in Hp. rewrite Hc in Hp. by apply parse_digits_length in Hp. Qed.

Lemma parse_number_length s n rest :
  parse_number s = Some (n, rest) → (length rest < length s)%nat.
Proof.
  unfold parse_number, parse_int, parse_frac, parse_exp. intros Hp.
  crack Hp; simplify_eq;
    repeat match goal with
      | Hc : is_digit ?c = true, Hd : parse_digits _ _ (?c :: _) = _ |- _ =>
          apply (parse_digits_length_digit _ _ _ _ _ _ _ Hc) in Hd
      | Hd : parse_digits _ _ _ = _ |- _ => apply parse_digits_length in Hd
      end;
    simpl in *; lia.
Qed.

Ltac length_facts :=
  repeat match goal with
    | Hx : parse_string ?r = Some (?x, ?rest) |- _ =>
        learn_hyp (parse_string_length r x rest Hx)
    | Hx : parse_number ?r = Some (?x, ?rest) |- _ =>
        learn_hyp (parse_number_length r x rest Hx)
    | Hx : expect ?c ?s = Some ?r |- _ => learn_hyp (expect_length c s r Hx)
    | Hx : expect_word ?w ?s = Some ?r |- _ => learn_hyp (expect_word_length w s r Hx)
    | Hx : skip_ws ?s = _ |- _ => learn_hyp (skip_ws_length s)
    | Hx : context [skip_ws ?s] |- _ => learn_hyp (skip_ws_length s)
    end.

(** Every successful parse consumes input. *)
Lemma parse_lengths f :
  (∀ s v rest, parse_value f s = Some (v, rest) → (length rest < length s)%nat)
  ∧ (∀ s acc v rest, parse_elements f s acc = Some (v, rest) →
                     (length rest < length s)%nat)
  ∧ (∀ s acc v rest, parse_members f s acc = Some (v, rest) →
                     (length rest < length s)%nat).
Proof.
  induction f as [| f (IHv & IHe & IHm)]; [by split_and! |].
  split_and!.
  - intros s v rest Hp. simpl in Hp. crack Hp; simplify_eq; length_facts;
      repeat match goal with
        | Hx : parse_elements f _ _ = Some _ |- _ => apply IHe in Hx
        | Hx : parse_members f _ _ = Some _ |- _ => apply IHm in Hx
        end;
      repeat match goal with Hx : skip_ws _ = _ |- _ => rewrite Hx in * end;
      simpl in *; lia.
  - intros s acc v rest Hp. simpl in Hp. crack Hp; simplify_eq; length_facts;
      repeat match goal with
        | Hx : parse_value f _ = Some _ |- _ => apply IHv in Hx
        | Hx : parse_elements f _ _ = Some _ |- _ => apply IHe in Hx
        end;
      repeat match goal with Hx : skip_ws _ = _ |- _ => rewrite Hx in * end;
      simpl in *; lia.
  - intros s acc v rest Hp. simpl in Hp. crack Hp; simplify_eq; length_facts;
      repeat match goal with
        | Hx : parse_value f _ = Some _ |- _ => apply IHv in Hx
        | Hx : parse_members f _ _ = Some _ |- _ => apply IHm in Hx
        end;
      repeat match goal with Hx : skip_ws _ = _ |- _ => rewrite Hx in * end;
      simpl in *; lia.
Qed.

Ltac parse_facts f :=
  length_facts;
  repeat match goal with
    | Hx : parse_value f ?s = Some (?v, ?rest) |- _ =>
        learn_hyp (proj1 (parse_lengths f) s v rest Hx)
    | Hx : parse_elements f ?s ?acc = Some (?v, ?rest) |- _ =>
        learn_hyp (proj1 (proj2 (parse_lengths f)) s acc v rest Hx)
    | Hx : parse_members f ?s ?acc = Some (?v, ?rest) |- _ =>
        learn_hyp (proj2 (proj2 (parse_lengths f)) s acc v rest Hx)
    end;
  repeat match goal with
    | Hx : skip_ws ?s = _, Hl : context [length (skip_ws ?s)] |- _ => rewrite Hx in Hl
    end;
  simpl length in *.

(** A parse that succeeds with some fuel succeeds with any fuel of at
    least twice the number of characters it consumes. *)
Lemma parse_fuel f :
  (∀ s v rest, parse_value f s = Some (v, rest) →
     ∀ g, (2 * (length s - length rest) ≤ S g)%nat →
          parse_value g s = Some (v, rest))
  ∧ (∀ s acc v rest, parse_elements f s acc = Some (v, rest) →
       ∀ g, (2 * (length s - length rest) ≤ S g)%nat →
            parse_elements g s acc = Some (v, rest))
  ∧ (∀ s acc v rest, parse_members f s acc = Some (v, rest) →
       ∀ g, (2 * (length s - length rest) ≤ S g)%nat →
            parse_members g s acc = Some (v, rest)).
Proof.
  induction f as [| f (IHv & IHe & IHm)]; [by split_and! |].
  split_and!.
  - intros s v rest Hp g Hg.
    pose proof (proj1 (parse_lengths (S f)) s v rest Hp) as Hlt.
    destruct g as [| g]; [lia |].
    simpl in Hp |- *. crack Hp; simplify_eq; parse_facts f;
      repeat first
        [ reflexivity
        | progress cbn beta iota
        | match goal with
          | Hx : parse_elements f ?s ?acc = Some (?v, ?rest)
            |- context [parse_elements ?g ?s ?acc] =>
              rewrite (IHe s acc v rest Hx g) by lia
          | Hx : parse_members f ?s ?acc = Some (?v, ?rest)
            |- context [parse_members ?g ?s ?acc] =>
              rewrite (IHm s acc v rest Hx g) by lia
          end
        | match goal with Hx : ?t = _ |- context [?t] => rewrite Hx end ].
  - intros s acc v rest Hp g Hg.
    pose proof (proj1 (proj2 (parse_lengths (S f))) s acc v rest Hp) as Hlt.
    destruct g as [| g]; [lia |].
    simpl in Hp |- *. crack Hp; simplify_eq; parse_facts f;
      repeat first
        [ reflexivity
        | progress cbn beta iota
        | match goal with
          | Hx : parse_value f ?s = Some (?v, ?rest)
            |- context [parse_value ?g ?s] =>
              rewrite (IHv s v rest Hx g) by lia
          | Hx : parse_elements f ?s ?acc = Some (?v, ?rest)
            |- context [parse_elements ?g ?s ?acc] =>
              rewrite (IHe s acc v rest Hx g) by lia
          end
        | match goal with Hx : ?t = _ |- context [?t] => rewrite Hx end ].
  - intros s acc v rest Hp g Hg.
    pose proof (proj2 (proj2 (parse_lengths (S f))) s acc v rest Hp) as Hlt.
    destruct g as [| g]; [lia |].
    simpl in Hp |- *. crack Hp; simplify_eq; parse_facts f;
      repeat first
        [ reflexivity
        | progress cbn beta iota
        | match goal with
          | Hx : parse_value f ?s = Some (?v, ?rest)
            |- context [parse_value ?g ?s] =>
              rewrite (IHv s v rest Hx g) by lia
          | Hx : parse_members f ?s ?acc = Some (?v, ?rest)
            |- context [parse_members ?g ?s ?acc] =>
              rewrite (IHm s acc v rest Hx g) by lia
          end
        | match goal with Hx : ?t = _ |- context [?t] => rewrite Hx end ].
Qed.

(** [JSON_parse] does not fail for lack of fuel: a text that some amount
    of fuel parses to the end parses. *)
Lemma JSON_parse_complete f text v rest :
  parse_value f text = Some (v, rest) → skip_ws rest = [] →
  JSON_parse text = Some v.
Proof.
  intros Hp Hrest. unfold JSON_parse.
  rewrite (proj1 (parse_fuel f) text v rest Hp) by lia.
  by rewrite decide_True.
Qed.

(** ** What the handlers do to the world *)

Ltac unfold_js :=
  unfold emit, lift in *; unfold bind, ret, throw, try_catch, gets, modify in *.

Ltac world_simpl :=
  cbn [value has_counter statusMessage typingTimer autoSaveTimer autoSaveInterval
       isTyping storage clock timers next_timer answers log
       set_value set_statusMessage set_typingTimer set_autoSaveTimer
       set_autoSaveInterval set_isTyping set_storage set_clock set_timers
       set_next_timer set_answers set_log items enabled accepts fst snd] in *.

Lemma counter_events_silent w :
  prompts (counter_events w) = [] ∧ writes (counter_events w) = [].
Proof.
  unfold counter_events.
  by destruct (has_counter w CharCount), (has_counter w WordCount),
              (has_counter w LineCount).
Qed.

Lemma updateStats_spec w :
  updateStats w = (Normal tt, set_log (log w ++ counter_events w) w).
Proof.
  destruct w. unfold updateStats, animate_if_present, animateNumber, counter_events.
  unfold_js. simpl.
  destruct (has_counter0 CharCount) eqn:E1, (has_counter0 WordCount) eqn:E2,
           (has_counter0 LineCount) eqn:E3;
    repeat (progress (simpl; rewrite ?E1, ?E2, ?E3));
    unfold set_log; simpl; rewrite <- ?app_assoc, ?app_nil_r; reflexivity.
Qed.

Lemma showStatus_spec m type w :
  showStatus m type w
  = (Normal tt,
     match statusMessage w with
     | None => w
     | Some _ =>
         set_next_timer (S (next_timer w))
           (set_timers (timers w ++ [{| tid := next_timer w; due := clock w + 3000;
                                        cb := CbHideStatus; period := None |}])
              (set_statusMessage (Some {| status_text := m; status_class := type;
                                          status_visible := true |}) w))
     end).
Proof.
  destruct w. unfold showStatus, setTimeout. unfold_js. simpl.
  destruct statusMessage0; reflexivity.
Qed.

Lemma saveToLocalStorage_spec `{Runtime} w :
  saveToLocalStorage w
  = (Normal tt,
     if enabled (storage w) then
       if accepts (storage w) storage_key (record_text w) then
         set_storage {| items := <[storage_key := record_text w]> (items (storage w));
                        enabled := enabled (storage w);
                        accepts := accepts (storage w) |}
           (set_log (log w ++ [SetItem storage_key (record_text w)]) w)
       else
         set_log (log w ++ [SetItem storage_key (record_text w);
                            ConsoleError "Error saving to localStorage:" QuotaExceededError]) w
     else
       set_log (log w ++ [ConsoleError "Error saving to localStorage:" SecurityError]) w).
Proof.
  destruct w. unfold saveToLocalStorage, localStorage_setItem, console_error, record_text.
  unfold_js. simpl.
  destruct (enabled storage0); [| reflexivity].
  match goal with |- context [accepts storage0 ?k ?v] => destruct (accepts storage0 k v) end;
    [reflexivity |].
  unfold set_log. simpl. by rewrite <- app_assoc.
Qed.

(** ** The statistics *)

(** C9. For all strings [s], the computed character count of [s] equals the
    length of [s]; every character counts, whitespace and newlines included.
    The count is additive over concatenation, every single code unit counts
    one, and the number stored in the saved record is that length. *)
Theorem chars_is_length (s timestamp : jsstring) :
  chars s = length s
  ∧ (∀ c, chars [c] = 1%nat)
  ∧ (∀ t, chars (s ++ t) = (chars s + chars t)%nat)
  ∧ saved_stat (str "chars") (saved_data s timestamp)
    = Some (JNum (number_of_nat (length s))).
Proof.
  repeat split.
  intros t. unfold chars. apply length_app.
Qed.

(** C3. The computed word count is 0 when [trim content] is empty (so for
    every content made of whitespace only), and otherwise the number of
    maximal whitespace-delimited non-empty tokens of [trim content]: the
    length of its one tokenization.  The word count of ["a b  c"] is 3. *)
Theorem words_counts_tokens (s : jsstring) :
  words s = (if decide (trim s = []) then 0%nat else length (tokens (trim s)))
  ∧ (if forallb is_space s then words s = 0%nat else trim s ≠ [])
  ∧ tokenized (trim s) (tokens (trim s))
  ∧ (∀ l, tokenized (trim s) l → words s = length l)
  ∧ words (str "a b  c") = 3%nat.
Proof.
  split; [| split; [| split; [| split]]].
  - rewrite words_tokens. destruct (decide (trim s = [])) as [-> |]; done.
  - destruct (forallb is_space s) eqn:E.
    + unfold words. rewrite decide_True; [done |]. by apply trim_blank.
    + intros Ht. apply trim_blank in Ht. congruence.
  - apply tokens_tokenized.
  - intros l Hl. rewrite words_tokens. by rewrite (tokenized_tokens _ _ Hl).
  - reflexivity.
Qed.

(** C4. The computed line count is 0 for the empty string and otherwise the
    number of newline characters plus 1: 1 for a single character that is
    not a newline, 3 for ["a\nb\nc"], 2 for ["a\n"]. *)
Theorem lines_counts_newlines (s : jsstring) :
  lines s = (if decide (s = []) then 0%nat else (count_char 10 s + 1)%nat)
  ∧ lines [] = 0%nat
  ∧ (∀ c, lines [c] = if decide (c = 10) then 2%nat else 1%nat)
  ∧ lines [97; 10; 98; 10; 99] = 3%nat
  ∧ lines [97; 10] = 2%nat.
Proof.
  split; [| split; [| split; [| split]]]; try reflexivity.
  - rewrite lines_count. destruct (decide (s = [])); [done | lia].
  - intros c. rewrite lines_count. rewrite decide_False by done.
    rewrite count_char_cons. destruct (N.eqb_spec c 10).
    + by rewrite decide_True.
    + by rewrite decide_False.
Qed.

(** ** Shift+Tab *)

(** C2, as the code has it.  For every text and every selection,
    [removeIndentation] does not throw, keeps the number of lines, and
    changes exactly the lines the selection touches: from such a line it
    removes one leading tab; otherwise, if the line starts with at least
    four spaces, exactly four of them; every other line, also one that
    starts with one to three spaces, is left as it is.  The new text is
    the lines joined by newlines. *)
Theorem removeIndentation_strips_tab_or_four (text : jsstring) (start end_ : nat) (w : World) :
  ∃ ls,
    removeIndentation_lines text start end_ = Normal ls
    ∧ length ls = length (split_on 10 text)
    ∧ (∀ j, ls !! j = if touched text start end_ j
                      then strip_tab_or_four <$> split_on 10 text !! j
                      else split_on 10 text !! j)
    ∧ removeIndentation start end_ (set_value text w)
      = (Normal tt, set_value (join [10] ls) w).
Proof.
  unfold removeIndentation_lines.
  pose proof (line_of_bound text start) as Hs.
  pose proof (line_of_bound text end_) as He.
  destruct (removeIndentation_loop_spec
              (S (line_of text end_) - line_of text start) (line_of text start)
              (split_on 10 text)) as (ls & Hrun & Hlen & Hget); [lia |].
  exists ls. split; [done |]. split; [done |]. split.
  - intros j. rewrite Hget. unfold touched.
    destruct (decide (line_of text start ≤ j ≤ line_of text end_)%nat).
    + rewrite !bool_decide_eq_true_2 by lia.
      destruct (split_on 10 text !! j); [| done]. simpl. by rewrite unindent_strip.
    + rewrite !bool_decide_eq_false_2 by lia. done.
  - unfold removeIndentation, removeIndentation_lines. unfold_js. simpl.
    rewrite Hrun. by destruct w.
Qed.

(** C2, as the claim words it, fails: on the line ["  x"], which starts with
    two spaces, the claim has the two spaces removed, and the code leaves
    the line as it is. *)
Lemma removeIndentation_keeps_two_spaces :
  ∃ text start end_ ls j line,
    removeIndentation_lines text start end_ = Normal ls
    ∧ touched text start end_ j = true
    ∧ split_on 10 text !! j = Some line
    ∧ leading_spaces line = 2%nat
    ∧ strip_up_to_four line = str "x"
    ∧ ls !! j = Some (str "  x")
    ∧ ls !! j ≠ Some (strip_up_to_four line).
Proof.
  exists (str "  x"), 0%nat, 0%nat, [str "  x"], 0%nat, (str "  x").
  split_and!; try reflexivity. discriminate.
Qed.

(** The two readings agree on every line that does not start with one,
    two or three spaces. *)
Lemma strip_readings_agree line :
  (leading_spaces line = 0 ∨ 4 ≤ leading_spaces line)%nat →
  strip_up_to_four line = strip_tab_or_four line.
Proof.
  intros Hl. destruct line as [| c r]; [done |].
  unfold strip_up_to_four, strip_tab_or_four.
  destruct (c =? 9); [done |].
  destruct (Nat.leb_spec 4 (leading_spaces (c :: r))).
  - by rewrite Nat.min_l.
  - destruct Hl as [-> | ?]; [done | lia].
Qed.

(** ** Saving never throws *)

Lemma saveToLocalStorage_frame `{Runtime} w :
  let w' := (saveToLocalStorage w).2 in
  value w' = value w ∧ timers w' = timers w ∧ next_timer w' = next_timer w
  ∧ clock w' = clock w ∧ answers w' = answers w
  ∧ statusMessage w' = statusMessage w
  ∧ enabled (storage w') = enabled (storage w)
  ∧ accepts (storage w') = accepts (storage w)
  ∧ prompts (log w') = prompts (log w).
Proof.
  rewrite saveToLocalStorage_spec. simpl.
  assert (Hp : ∀ l l', prompts (l ++ l') = prompts l ++ prompts l').
  { induction l as [| [] l IH]; intros; simpl; by rewrite ?IH. }
  destruct (enabled (storage w)) eqn:E; [destruct (accepts _ _ _) |];
    simpl; rewrite ?Hp, ?app_nil_r; by rewrite ?E.
Qed.

Lemma writes_app l l' : writes (l ++ l') = writes l ++ writes l'.
Proof. induction l as [| [] l IH]; simpl; by rewrite ?IH. Qed.

Lemma prompts_app l l' : prompts (l ++ l') = prompts l ++ prompts l'.
Proof. induction l as [| [] l IH]; simpl; by rewrite ?IH. Qed.

Lemma saveToLocalStorage_writes `{Runtime} w :
  writes (log (saveToLocalStorage w).2)
  = writes (log w) ++ (if enabled (storage w) then [(storage_key, record_text w)] else []).
Proof.
  rewrite saveToLocalStorage_spec. simpl.
  destruct (enabled (storage w)); [destruct (accepts _ _ _) |];
    simpl; by rewrite writes_app.
Qed.

(** C8. For every content and every store, [saveToLocalStorage] returns
    normally.  When the store takes the write, the record is stored under
    the fixed key.  When the write fails, because storage is disabled or
    the quota is exceeded, the stored items stay as they were and the
    failure is only logged with [console.error]. *)
Theorem saveToLocalStorage_never_throws `{Runtime} (w : World) :
  let w' := (saveToLocalStorage w).2 in
  (saveToLocalStorage w).1 = Normal tt
  ∧ value w' = value w
  ∧ if enabled (storage w) && accepts (storage w) storage_key (record_text w)
    then items (storage w') = <[storage_key := record_text w]> (items (storage w))
         ∧ log w' = log w ++ [SetItem storage_key (record_text w)]
    else items (storage w') = items (storage w)
         ∧ ∃ e, last (log w') = Some (ConsoleError "Error saving to localStorage:" e)
                ∧ (e = SecurityError ∨ e = QuotaExceededError).
Proof.
  rewrite saveToLocalStorage_spec. simpl. split; [done |].
  destruct (enabled (storage w)); simpl.
  - destruct (accepts (storage w) storage_key (record_text w)); simpl.
    + done.
    + repeat split. exists QuotaExceededError. split; [| by right].
      by rewrite last_app.
  - repeat split. exists SecurityError. split; [| by left].
    by rewrite last_app.
Qed.

(** On a store whose quota is used up and on a page without storage, the
    save returns normally and leaves the store empty. *)
Example saveToLocalStorage_on_failing_stores :
  let rt := plain_runtime in
  (saveToLocalStorage (set_value (str "hello") (fresh full_storage))).1 = Normal tt
  ∧ items (storage (saveToLocalStorage (set_value (str "hello") (fresh full_storage))).2) = ∅
  ∧ (saveToLocalStorage (set_value (str "hello") (fresh no_storage))).1 = Normal tt
  ∧ log (saveToLocalStorage (set_value (str "hello") (fresh no_storage))).2
    = [ConsoleError "Error saving to localStorage:" SecurityError].
Proof. repeat split. Qed.

(** ** Clearing *)

Lemma clearContent_blank `{Runtime} w :
  trim (value w) = [] →
  clearContent w = showStatus (Msg "Text area is already empty") "info" w.
Proof.
  intros Hb. unfold clearContent. unfold_js. simpl. by rewrite decide_True.
Qed.

Lemma showStatus_frame m type w :
  let w' := (showStatus m type w).2 in
  (showStatus m type w).1 = Normal tt
  ∧ value w' = value w ∧ storage w' = storage w ∧ log w' = log w
  ∧ answers w' = answers w.
Proof. rewrite showStatus_spec. simpl. by destruct (statusMessage w). Qed.

Lemma clearContent_noop `{Runtime} w :
  trim (value w) = [] →
  let w' := (clearContent w).2 in
  (clearContent w).1 = Normal tt
  ∧ log w' = log w ∧ value w' = value w ∧ storage w' = storage w
  ∧ answers w' = answers w.
Proof.
  intros Hb. rewrite (clearContent_blank w Hb).
  destruct (showStatus_frame (Msg "Text area is already empty") "info" w)
    as (? & ? & ? & ? & ?). done.
Qed.

Lemma clearContent_asks `{Runtime} w :
  trim (value w) ≠ [] →
  let w' := (clearContent w).2 in
  (clearContent w).1 = Normal tt
  ∧ prompts (log w') = prompts (log w) ++ [clear_question]
  ∧ if hd false (answers w)
    then value w' = []
         ∧ writes (log w')
           = writes (log w)
             ++ (if enabled (storage w)
                 then [(storage_key, record_text (set_value [] w))] else [])
    else value w' = value w ∧ storage w' = storage w
         ∧ writes (log w') = writes (log w).
Proof.
  intros Hne. unfold clearContent. unfold_js. cbn beta iota.
  rewrite decide_False by done.
  unfold confirm.
  destruct (answers w) as [| [] rest] eqn:Ea; cbn [hd].
  - cbn. rewrite prompts_app, writes_app; simpl. by rewrite app_nil_r.
  - cbn beta iota. rewrite updateStats_spec. cbn beta iota.
    match goal with |- context [saveToLocalStorage ?x] =>
      pose proof (saveToLocalStorage_frame x) as Hf;
      pose proof (saveToLocalStorage_writes x) as Hw;
      pose proof (saveToLocalStorage_spec x) as Hs;
      destruct (saveToLocalStorage x) as [o w1] eqn:Es
    end.
    cbn [fst snd] in *. injection Hs as -> _.
    cbn zeta in Hf. destruct Hf as (Hv & _ & _ & _ & _ & _ & _ & _ & Hp).
    cbn beta iota.
    destruct (showStatus_frame (Msg "Content cleared") "success" w1) as (Ho & Hv' & Hst & Hl & _).
    destruct (showStatus (Msg "Content cleared") "success" w1) as [o' w2].
    cbn [fst snd] in *. subst o'. split; [done |].
    rewrite Hl, Hp, Hv', Hv, Hw. unfold record_text. world_simpl.
    rewrite !prompts_app, !writes_app.
    rewrite (proj1 (counter_events_silent _)), (proj2 (counter_events_silent _)).
    cbn [prompts writes]. rewrite ?app_nil_r. done.
  - cbn. rewrite prompts_app, writes_app; simpl. by rewrite app_nil_r.
Qed.

(** C6. When the content is empty, [clearContent] is a no-op: no [confirm]
    dialog is shown, the content stays empty, and nothing is written to the
    store (no observable call is made at all). *)
Theorem clearContent_on_empty_is_noop `{Runtime} (w : World) :
  value w = [] →
  let w' := (clearContent w).2 in
  (clearContent w).1 = Normal tt
  ∧ prompts (log w') = prompts (log w)
  ∧ value w' = []
  ∧ writes (log w') = writes (log w)
  ∧ storage w' = storage w.
Proof.
  intros Hv. destruct (clearContent_noop w) as (Ho & Hl & Hv' & Hs & _).
  { by rewrite Hv. }
  cbn zeta. by rewrite Hl, Hv', Hs, Hv.
Qed.

(** C10. For every content whose trim is empty, also a non-empty one made
    of whitespace only, [clearContent] is a no-op: no dialog, the same
    content, the same store, no write.  Otherwise the dialog is shown once;
    when the user declines, content and store stay as they are and nothing
    is written; only when the user confirms is the content emptied (and
    then saved). *)
Theorem clearContent_only_on_confirmed_text `{Runtime} (w : World) :
  let w' := (clearContent w).2 in
  (clearContent w).1 = Normal tt
  ∧ if decide (trim (value w) = [])
    then prompts (log w') = prompts (log w)
         ∧ value w' = value w ∧ storage w' = storage w
         ∧ writes (log w') = writes (log w)
    else prompts (log w') = prompts (log w) ++ [clear_question]
         ∧ if hd false (answers w)
           then value w' = []
                ∧ writes (log w')
                  = writes (log w)
                    ++ (if enabled (storage w)
                        then [(storage_key, record_text (set_value [] w))] else [])
           else value w' = value w ∧ storage w' = storage w
                ∧ writes (log w') = writes (log w).
Proof.
  cbn zeta. destruct (decide (trim (value w) = [])) as [Hb | Hne].
  - destruct (clearContent_noop w Hb) as (Ho & Hl & Hv & Hs & _).
    by rewrite Hl, Hv, Hs.
  - by destruct (clearContent_asks w Hne) as (Ho & Hp & Hrest).
Qed.

(** ** Restoring *)

Lemma loadSavedContent_returns `{Runtime} w : (loadSavedContent w).1 = Normal tt.
Proof.
  unfold loadSavedContent, try_catch, console_error, emit, modify.
  match goal with |- (match ?x with _ => _ end).1 = _ =>
    destruct x as [[[] | e] w1] end; reflexivity.
Qed.

Ltac step_js :=
  repeat first
    [ progress cbn beta iota zeta
    | rewrite updateStats_spec
    | rewrite showStatus_spec
    | match goal with
      | |- context [match ?x with _ => _ end] =>
          lazymatch x with
          | context [match _ with _ => _ end] => fail
          | _ => destruct x eqn:?
          end
      end ].

(** Nothing is restored when storage is disabled, the key is absent, or
    the stored text is empty or does not parse. *)
Lemma loadSavedContent_absent `{Runtime} w :
  enabled (storage w) = false
  ∨ items (storage w) !! storage_key = None
  ∨ (∃ text, items (storage w) !! storage_key = Some text ∧ JSON_parse text = None) →
  value (loadSavedContent w).2 = value w.
Proof.
  intros Hcase. unfold loadSavedContent, localStorage_getItem, console_error.
  unfold_js.
  destruct (enabled (storage w)) eqn:Hen; [| by destruct w].
  destruct Hcase as [? | [Hnone | (text & Hsome & Hparse)]]; [done | |].
  - rewrite Hnone. by destruct w.
  - rewrite Hsome. destruct text as [| c text]; [by destruct w |].
    rewrite Hparse. by destruct w.
Qed.

(** The stored text parses: the textarea receives the string conversion of
    [data.content || '']. *)
Lemma loadSavedContent_parsed `{Runtime} w text data x v :
  enabled (storage w) = true →
  items (storage w) !! storage_key = Some text →
  JSON_parse text = Some data →
  get_property data (str "content") = Normal x →
  ToString (or_empty x) = Normal v →
  value (loadSavedContent w).2 = v.
Proof.
  intros Hen Hsome Hparse Hx Hv.
  assert (Hts : ∃ y, get_property data (str "timestamp") = Normal y).
  { destruct data; try done; eauto. }
  destruct Hts as [y Hy].
  unfold loadSavedContent, localStorage_getItem, console_error.
  unfold_js. rewrite Hen, Hsome.
  destruct text as [| c text]; [done |].
  rewrite Hparse. cbn beta iota. rewrite Hx. cbn beta iota. rewrite Hv.
  cbn beta iota. rewrite updateStats_spec. cbn beta iota. rewrite Hy.
  step_js; by world_simpl.
Qed.

(** The stored text is [null]: reading [data.content] throws, the
    exception is caught, and the textarea is not assigned. *)
Lemma loadSavedContent_throws `{Runtime} w text data e :
  enabled (storage w) = true →
  items (storage w) !! storage_key = Some text →
  JSON_parse text = Some data →
  get_property data (str "content") = Throws e →
  value (loadSavedContent w).2 = value w.
Proof.
  intros Hen Hsome Hparse Hx.
  unfold loadSavedContent, localStorage_getItem, console_error.
  unfold_js. rewrite Hen, Hsome.
  destruct text as [| c text]; [done |].
  rewrite Hparse. cbn beta iota. rewrite Hx. by destruct w.
Qed.

Lemma saved_data_content content timestamp :
  get_property (saved_data content timestamp) (str "content")
  = Normal (Some (JStr content)).
Proof. reflexivity. Qed.

Lemma ToString_string `{Runtime} s : ToString (or_empty (Some (JStr s))) = Normal s.
Proof.
  unfold or_empty, truthy. destruct (decide (s = [])) as [-> |]; reflexivity.
Qed.

(** C1. For every string [content] (of a length a JavaScript string can
    have), when the store takes the write, saving [content] and then
    restoring, in whatever state the page is by then, puts exactly
    [content] back into the textarea; the record sits under the fixed
    key. *)
Theorem persist_then_restore `{Runtime} (content : jsstring) (w w2 : World) :
  N.of_nat (length content) < 2 ^ 53 →
  enabled (storage w) = true →
  accepts (storage w) storage_key (record_text (set_value content w)) = true →
  storage w2 = storage (saveToLocalStorage (set_value content w)).2 →
  (loadSavedContent w2).1 = Normal tt
  ∧ value (loadSavedContent w2).2 = content
  ∧ items (storage w2) !! storage_key = Some (record_text (set_value content w)).
Proof.
  intros Hlen Hen Hacc Hst.
  rewrite saveToLocalStorage_spec in Hst. world_simpl.
  rewrite Hen, Hacc in Hst. world_simpl.
  assert (Hitem : items (storage w2) !! storage_key
                  = Some (record_text (set_value content w))).
  { rewrite Hst. cbn [items]. apply lookup_insert_eq. }
  split; [apply loadSavedContent_returns |]. split; [| done].
  apply (loadSavedContent_parsed w2 (record_text (set_value content w))
           (saved_data content (Date_toISOString (clock w)))
           (Some (JStr content)) content).
  - by rewrite Hst.
  - done.
  - unfold record_text. world_simpl. by apply JSON_roundtrip.
  - apply saved_data_content.
  - apply ToString_string.
Qed.

(** ** The debounced save *)

Lemma handleTextInput_spec w :
  handleTextInput w
  = (Normal tt,
     let n := next_timer w in
     let typing_timer := {| tid := n; due := clock w + 1000;
                            cb := CbTypingOff; period := None |} in
     {| value := value w; has_counter := has_counter w;
        statusMessage := statusMessage w;
        typingTimer := Some n; autoSaveTimer := Some (S n);
        autoSaveInterval := autoSaveInterval w; isTyping := true;
        storage := storage w; clock := clock w;
        timers := cleared (autoSaveTimer w)
                    (cleared (typingTimer w) (timers w) ++ [typing_timer])
                  ++ [save_timer (S n) (clock w + 2000)];
        next_timer := S (S n); answers := answers w;
        log := log w ++ counter_events w |}).
Proof.
  unfold handleTextInput, setTypingIndicator, clearTimeout, setTimeout.
  unfold_js. rewrite updateStats_spec.
  destruct w as [v hc sm tt0 at0 ai it st ck ts nt an lg].
  world_simpl. cbn beta iota zeta.
  destruct tt0, at0; reflexivity.
Qed.

Lemma input_spec `{Runtime} c w :
  input c w = (handleTextInput (set_value c w)).2.
Proof. unfold input, dispatch. by rewrite handleTextInput_spec. Qed.

(** *** Timer ids *)

Lemma fresh_ids_filter (P : Timer → Prop) `{∀ t, Decision (P t)} queue n :
  fresh_ids queue n → fresh_ids (filter P queue) n.
Proof.
  intros [Hnd Hlt]. split.
  - induction queue as [| t q IH]; [done |].
    rewrite fmap_cons in Hnd. apply NoDup_cons in Hnd as [Hnotin Hnd].
    apply Forall_cons in Hlt as [_ Hlt].
    destruct (decide (P t)).
    + rewrite filter_cons_True by done. rewrite fmap_cons. apply NoDup_cons.
      split; [| by apply IH].
      intros Hin. apply Hnotin. apply list_elem_of_fmap in Hin as (t' & -> & Hin).
      apply list_elem_of_filter in Hin as [_ Hin]. by apply list_elem_of_fmap_2.
    + rewrite filter_cons_False by done. by apply IH.
  - apply Forall_forall. intros t Ht. apply list_elem_of_filter in Ht as [_ Ht].
    by apply (proj1 (Forall_forall _ _) Hlt).
Qed.

Lemma fresh_ids_cleared id queue n : fresh_ids queue n → fresh_ids (cleared id queue) n.
Proof. destruct id; [apply fresh_ids_filter; apply _ | done]. Qed.

Lemma fresh_ids_snoc queue n t :
  fresh_ids queue n → tid t = n → fresh_ids (queue ++ [t]) (S n).
Proof.
  intros [Hnd Hlt] Ht. split.
  - rewrite fmap_app. apply NoDup_app. split; [done |]. split.
    + intros i Hi Hi'. apply list_elem_of_singleton in Hi'.
      apply list_elem_of_fmap in Hi as (t' & -> & Hin).
      apply (proj1 (Forall_forall _ _) Hlt) in Hin. simpl in Hi'. lia.
    + apply NoDup_singleton.
  - apply Forall_app. split.
    + eapply Forall_impl; [exact Hlt |]. simpl. lia.
    + apply Forall_singleton. lia.
Qed.

Lemma fresh_ids_same queue n t t' :
  fresh_ids queue n → t ∈ queue → t' ∈ queue → tid t = tid t' → t = t'.
Proof.
  intros [Hnd _]. induction queue as [| x q IH]; intros Ht Ht' Heq.
  - by apply elem_of_nil in Ht.
  - rewrite fmap_cons in Hnd. apply NoDup_cons in Hnd as [Hnotin Hnd].
    apply elem_of_cons in Ht as [-> | Ht]; apply elem_of_cons in Ht' as [-> | Ht'].
    + done.
    + exfalso. apply Hnotin. rewrite Heq. by apply list_elem_of_fmap_2.
    + exfalso. apply Hnotin. rewrite <- Heq. by apply list_elem_of_fmap_2.
    + by apply IH.
Qed.

Lemma fresh_ids_requeue queue n t t' :
  fresh_ids queue n → t ∈ queue → tid t' = tid t →
  fresh_ids (filter (λ x, tid x ≠ tid t) queue ++ [t']) n.
Proof.
  intros Hf Ht Heq.
  destruct (fresh_ids_filter (λ x, tid x ≠ tid t) queue n Hf) as [Hnd Hlt].
  split.
  - rewrite fmap_app. apply NoDup_app. split; [done |]. split.
    + intros i Hi Hi'. apply list_elem_of_singleton in Hi'.
      apply list_elem_of_fmap in Hi as (x & -> & Hin).
      apply list_elem_of_filter in Hin as [Hne _]. simpl in Hi'. congruence.
    + apply NoDup_singleton.
  - apply Forall_app. split; [done |]. apply Forall_singleton.
    rewrite Heq. destruct Hf as [_ Hall].
    by apply (proj1 (Forall_forall _ _) Hall).
Qed.

Lemma cleared_elem id queue t :
  t ∈ cleared id queue ↔ t ∈ queue ∧ (∀ i, id = Some i → tid t ≠ i).
Proof.
  destruct id as [i |]; simpl.
  - rewrite list_elem_of_filter. split.
    + intros [? ?]. split; [done |]. by intros ? [= <-].
    + intros [? Hne]. split; [by apply Hne | done].
  - split; [intros ?; split; [done | by intros] | by intros [? _]].
Qed.

Lemma pending_saves_elem w t :
  t ∈ pending_saves w ↔ is_save (cb t) = true ∧ t ∈ timers w.
Proof. unfold pending_saves. by rewrite list_elem_of_filter. Qed.

(** An edit schedules the save two seconds ahead, and the save that was
    scheduled before is no longer pending: [clearTimeout] has removed it. *)
Lemma input_arms `{Runtime} horizon c w :
  (quiet horizon w ∨ ∃ c0 d0, armed horizon w c0 d0) →
  armed horizon (input c w) c (clock w + 2000)
  ∧ clock (input c w) = clock w
  ∧ storage (input c w) = storage w
  ∧ writes (log (input c w)) = writes (log w).
Proof.
  intros Hbefore.
  assert (Hwf : well_formed w).
  { destruct Hbefore as [[? _] | (? & ? & _ & ? & _)]; done. }
  rewrite input_spec, handleTextInput_spec. cbn zeta. world_simpl.
  split; [| split; [done | split; [done |]]].
  - split; [done |]. split.
    + unfold well_formed. world_simpl.
      apply fresh_ids_snoc; [| done]. apply fresh_ids_cleared.
      apply fresh_ids_snoc; [| done]. by apply fresh_ids_cleared.
    + exists (S (next_timer w)). world_simpl. split; [done |]. split.
      { apply elem_of_app. right. by apply list_elem_of_singleton. }
      intros t Ht. apply pending_saves_elem in Ht as [Hsave Ht]. world_simpl.
      apply elem_of_app in Ht as [Ht | Ht];
        [| left; by apply list_elem_of_singleton in Ht].
      right. apply cleared_elem in Ht as [Ht Hne].
      apply elem_of_app in Ht as [Ht | Ht];
        [| apply list_elem_of_singleton in Ht; by subst].
      apply cleared_elem in Ht as [Ht _].
      assert (Hps : t ∈ pending_saves w) by by apply pending_saves_elem.
      destruct Hbefore as [[_ Hq] | (c0 & d0 & _ & _ & id & Hau & _ & Hsaves)].
      * by apply Hq.
      * destruct (Hsaves t Hps) as [-> | ?]; [| done].
        exfalso. by apply (Hne id).
  - rewrite writes_app. rewrite (proj2 (counter_events_silent _)). by rewrite app_nil_r.
Qed.

(** *** Timers firing *)

Lemma run_callback_frame `{Runtime} f w :
  let w' := dispatch (run_callback f) w in
  value w' = value w ∧ clock w' = clock w ∧ timers w' = timers w
  ∧ next_timer w' = next_timer w ∧ autoSaveTimer w' = autoSaveTimer w
  ∧ enabled (storage w') = enabled (storage w)
  ∧ (is_save f = false → storage w' = storage w ∧ log w' = log w)
  ∧ (f = CbAutoSave →
     writes (log w')
     = writes (log w)
       ++ (if enabled (storage w) then [(storage_key, record_text w)] else [])).
Proof.
  unfold dispatch, run_callback. destruct f.
  - unfold setTypingIndicator, modify. world_simpl. by repeat split.
  - rewrite saveToLocalStorage_spec.
    destruct (enabled (storage w)) eqn:Hen;
      [destruct (accepts (storage w) storage_key (record_text w)) |];
      world_simpl; rewrite ?writes_app; repeat split; try done;
      intros _; cbn [writes]; by rewrite ?app_nil_r.
  - unfold_js. rewrite updateStats_spec. cbn beta iota.
    rewrite saveToLocalStorage_spec.
    match goal with
    | |- context [enabled (storage ?x)] => change (enabled (storage x)) with (enabled (storage w))
    end.
    destruct (enabled (storage w)) eqn:Hen;
      [match goal with |- context [accepts ?a ?b ?c] => destruct (accepts a b c) end |];
      world_simpl; repeat split; done.
  - unfold_js. cbn beta iota. destruct (decide (trim (value w) = [])).
    + by repeat split.
    + rewrite saveToLocalStorage_spec.
      destruct (enabled (storage w)) eqn:Hen;
        [destruct (accepts (storage w) storage_key (record_text w)) |];
        world_simpl; repeat split; done.
  - unfold hideStatus, modify. destruct (statusMessage w); world_simpl; by repeat split.
Qed.

Lemma pending_elem i w : pending i w = true ↔ ∃ t, t ∈ timers w ∧ tid t = i.
Proof.
  unfold pending. rewrite existsb_exists. split.
  - intros (t & Hin & Heq). exists t. apply Nat.eqb_eq in Heq.
    split; [by apply list_elem_of_In | done].
  - intros (t & Hin & Heq). exists t. split; [by apply list_elem_of_In |].
    by apply Nat.eqb_eq.
Qed.

(** A timer that does not save fires: nothing is written, the content and
    the clock stay, and the other timers stay pending. *)
Lemma fire_nonsave `{Runtime} t w :
  is_save (cb t) = false → well_formed w →
  let w' := fire t w in
  value w' = value w ∧ clock w' = clock w ∧ autoSaveTimer w' = autoSaveTimer w
  ∧ storage w' = storage w ∧ log w' = log w
  ∧ well_formed w'
  ∧ (∀ s, s ∈ timers w → tid s ≠ tid t → s ∈ timers w')
  ∧ (∀ s, s ∈ pending_saves w' → s ∈ pending_saves w).
Proof.
  intros Hns Hwf. unfold fire. cbn zeta.
  destruct (pending (tid t) w) eqn:Hp; [| by split_and!].
  apply pending_elem in Hp as (t0 & Ht0 & Hid).
  match goal with |- context [dispatch ?m ?x] =>
    pose proof (run_callback_frame (cb t) x) as Hf; cbn zeta in Hf;
    destruct Hf as (Hv & Hc & Ht & Hn & Ha & _ & Hst & _);
    destruct (Hst Hns) as [Hst' Hlog]
  end.
  world_simpl. rewrite Hv, Hc, Ha, Hst', Hlog.
  split_and!; try done.
  - unfold well_formed. rewrite Ht, Hn. world_simpl.
    destruct (period t) as [p |].
    + rewrite <- Hid. by apply (fresh_ids_requeue _ _ t0).
    + by apply fresh_ids_filter.
  - intros s Hs Hne. rewrite Ht. world_simpl.
    assert (s ∈ filter (λ t', tid t' ≠ tid t) (timers w))
      by (by apply list_elem_of_filter).
    destruct (period t); [apply elem_of_app; by left | done].
  - intros s Hs. apply pending_saves_elem in Hs as [Hsave Hs].
    apply pending_saves_elem. split; [done |]. rewrite Ht in Hs. world_simpl.
    assert (Hor : s ∈ filter (λ t', tid t' ≠ tid t) (timers w)
                  ∨ cb s = cb t).
    { destruct (period t); [| by left].
      apply elem_of_app in Hs as [? | Hs]; [by left |].
      apply list_elem_of_singleton in Hs. subst. by right. }
    destruct Hor as [Hin | Hcb].
    + by apply list_elem_of_filter in Hin as [_ ?].
    + congruence.
Qed.

(** The scheduled save fires: it leaves the queue and writes the current
    content. *)
Lemma fire_save `{Runtime} id d w :
  save_timer id d ∈ timers w → well_formed w →
  let w' := fire (save_timer id d) w in
  value w' = value w ∧ clock w' = clock w ∧ autoSaveTimer w' = autoSaveTimer w
  ∧ enabled (storage w') = enabled (storage w)
  ∧ well_formed w'
  ∧ writes (log w')
    = writes (log w)
      ++ (if enabled (storage w) then [(storage_key, record_text w)] else [])
  ∧ (∀ s, s ∈ pending_saves w' → s ∈ pending_saves w ∧ tid s ≠ id).
Proof.
  intros Hin Hwf. unfold fire. cbn zeta.
  assert (Hp : pending (tid (save_timer id d)) w = true).
  { apply pending_elem. by exists (save_timer id d). }
  rewrite Hp. cbn [period save_timer cb tid].
  match goal with |- context [dispatch ?m ?x] =>
    pose proof (run_callback_frame CbAutoSave x) as Hf; cbn zeta in Hf;
    destruct Hf as (Hv & Hc & Ht & Hn & Ha & Hen & _ & Hw);
    specialize (Hw eq_refl)
  end.
  world_simpl. rewrite Hv, Hc, Ha, Hen, Hw.
  split_and!; try done.
  - unfold well_formed. rewrite Ht, Hn. world_simpl. by apply fresh_ids_filter.
  - intros s Hs. apply pending_saves_elem in Hs as [Hsave Hs]. rewrite Ht in Hs.
    world_simpl. apply list_elem_of_filter in Hs as [Hne Hs].
    split; [by apply pending_saves_elem | done].
Qed.

Lemma fire_all_nonsave `{Runtime} D : ∀ w,
  well_formed w → Forall (λ t, is_save (cb t) = false) D →
  let w' := fold_left (λ w0 t, fire t w0) D w in
  value w' = value w ∧ clock w' = clock w ∧ autoSaveTimer w' = autoSaveTimer w
  ∧ storage w' = storage w ∧ log w' = log w
  ∧ well_formed w'
  ∧ (∀ s, s ∈ timers w → Forall (λ t, tid t ≠ tid s) D → s ∈ timers w')
  ∧ (∀ s, s ∈ pending_saves w' → s ∈ pending_saves w).
Proof.
  induction D as [| t D IH]; intros w Hwf HD; [by split_and! |].
  apply Forall_cons in HD as [Ht HD].
  destruct (fire_nonsave t w Ht Hwf) as (Hv & Hc & Ha & Hst & Hl & Hwf' & Hkeep & Hsub).
  destruct (IH (fire t w) Hwf' HD) as (Hv2 & Hc2 & Ha2 & Hst2 & Hl2 & Hwf2 & Hkeep2 & Hsub2).
  cbn zeta. cbn [fold_left].
  rewrite Hv2, Hc2, Ha2, Hst2, Hl2, Hv, Hc, Ha, Hst, Hl.
  split_and!; try done.
  - intros s Hs Hne. apply Forall_cons in Hne as [Hne1 Hne2].
    apply Hkeep2; [| done]. apply Hkeep; [done | congruence].
  - intros s Hs. by apply Hsub, Hsub2.
Qed.

(** *** One millisecond *)

Lemma tick_unfold `{Runtime} w :
  tick w = fold_left (λ w0 t, fire t w0)
             (filter (λ t, due t ≤ clock w + 1) (timers w))
             (set_clock (clock w + 1) w).
Proof. reflexivity. Qed.

Lemma due_nonsave horizon w (P : Timer → Prop) :
  clock w + 1 ≤ horizon →
  (∀ t, t ∈ pending_saves w → P t ∨ horizon < due t) →
  ∀ t, t ∈ timers w → due t ≤ clock w + 1 → ¬ P t → is_save (cb t) = false.
Proof.
  intros Hh Hsaves t Ht Hdue HnP.
  destruct (is_save (cb t)) eqn:Hs; [| done].
  destruct (Hsaves t) as [? | ?]; [by apply pending_saves_elem | done | lia].
Qed.

(** While no save is due, a millisecond changes nothing that matters. *)
Lemma tick_quiet `{Runtime} horizon w :
  quiet horizon w → clock w + 1 ≤ horizon →
  quiet horizon (tick w)
  ∧ clock (tick w) = clock w + 1 ∧ value (tick w) = value w
  ∧ storage (tick w) = storage w ∧ log (tick w) = log w.
Proof.
  intros [Hwf Hq] Hh. rewrite tick_unfold.
  destruct (fire_all_nonsave (filter (λ t, due t ≤ clock w + 1) (timers w))
              (set_clock (clock w + 1) w))
    as (Hv & Hc & _ & Hst & Hl & Hwf' & _ & Hsub); [done | |].
  { apply Forall_forall. intros t Ht. apply list_elem_of_filter in Ht as [Hdue Ht].
    apply (due_nonsave horizon w (λ _, False)); try done.
    - intros s Hs. right. by apply Hq.
    - tauto. }
  cbn zeta in *. rewrite Hv, Hc, Hst, Hl. split_and!; try done.
  split; [done |]. intros t Ht. apply Hq. by apply Hsub in Ht.
Qed.

Lemma tick_armed `{Runtime} horizon w c d :
  armed horizon w c d → clock w + 1 < d → clock w + 1 ≤ horizon →
  armed horizon (tick w) c d
  ∧ clock (tick w) = clock w + 1
  ∧ storage (tick w) = storage w ∧ log (tick w) = log w.
Proof.
  intros (Hval & Hwf & id & Hau & Hin & Hsaves) Hd Hh. rewrite tick_unfold.
  assert (Hdue : ∀ t, t ∈ filter (λ t, due t ≤ clock w + 1) (timers w) →
                      is_save (cb t) = false ∧ tid t ≠ id).
  { intros t Ht. apply list_elem_of_filter in Ht as [Hdue Ht].
    assert (Hne : t ≠ save_timer id d) by (intros ->; simpl in Hdue; lia).
    split.
    - by apply (due_nonsave horizon w (λ t, t = save_timer id d)).
    - intros Hid. apply Hne. by apply (fresh_ids_same _ _ _ _ Hwf). }
  destruct (fire_all_nonsave (filter (λ t, due t ≤ clock w + 1) (timers w))
              (set_clock (clock w + 1) w))
    as (Hv & Hc & Ha & Hst & Hl & Hwf' & Hkeep & Hsub); [done | |].
  { apply Forall_forall. intros t Ht. by apply Hdue. }
  cbn zeta in *. rewrite Hc, Hst, Hl. split_and!; try done.
  split; [by rewrite Hv |]. split; [done |].
  exists id. rewrite Ha. split_and!; try done.
  - apply Hkeep; [done |]. apply Forall_forall. intros t Ht. by apply Hdue.
  - intros t Ht. apply Hsaves. by apply Hsub in Ht.
Qed.

Lemma fresh_ids_middle T1 a T2 n t :
  fresh_ids (T1 ++ a :: T2) n → t ∈ T1 ∨ t ∈ T2 → tid t ≠ tid a.
Proof.
  intros [Hnd _] Ht Heq.
  rewrite fmap_app, fmap_cons in Hnd.
  apply NoDup_app in Hnd as (_ & Hdisj & Hnd).
  apply NoDup_cons in Hnd as [Hnotin _].
  destruct Ht as [Ht | Ht].
  - apply (Hdisj (tid t)); [by apply list_elem_of_fmap_2 |].
    rewrite Heq. apply elem_of_cons. by left.
  - apply Hnotin. rewrite <- Heq. by apply list_elem_of_fmap_2.
Qed.

(** The millisecond in which the scheduled save is due: it fires, once,
    and writes the content the textarea holds at that moment. *)
Lemma tick_fires `{Runtime} horizon w c d :
  armed horizon w c d → d = clock w + 1 → d ≤ horizon →
  quiet horizon (tick w)
  ∧ clock (tick w) = d ∧ value (tick w) = c
  ∧ enabled (storage (tick w)) = enabled (storage w)
  ∧ writes (log (tick w))
    = writes (log w)
      ++ (if enabled (storage w)
          then [(storage_key, JSON_stringify (saved_data c (Date_toISOString d)))]
          else []).
Proof.
  intros (Hval & Hwf & id & Hau & Hin & Hsaves) -> Hh. rewrite tick_unfold.
  destruct (list_elem_of_split _ _ Hin) as (T1 & T2 & HT).
  assert (Hother : ∀ t, t ∈ T1 ∨ t ∈ T2 → due t ≤ clock w + 1 →
                        is_save (cb t) = false).
  { intros t Ht Hdue.
    assert (Hid : tid t ≠ tid (save_timer id (clock w + 1))).
    { apply (fresh_ids_middle T1 _ T2 (next_timer w)); [| done].
      unfold well_formed in Hwf. by rewrite HT in Hwf. }
    apply (due_nonsave horizon w (λ t, t = save_timer id (clock w + 1))); try done.
    - rewrite HT. rewrite elem_of_app, elem_of_cons. tauto.
    - by intros ->. }
  rewrite HT, filter_app, filter_cons_True by (simpl; lia).
  rewrite fold_left_app. cbn [fold_left].
  set (w0 := set_clock (clock w + 1) w).
  assert (Hwf0 : well_formed w0) by done.
  destruct (fire_all_nonsave (filter (λ t, due t ≤ clock w + 1) T1) w0)
    as (Hv1 & Hc1 & Ha1 & Hst1 & Hl1 & Hwf1 & Hkeep1 & Hsub1); [done | |].
  { apply Forall_forall. intros t Ht. apply list_elem_of_filter in Ht as [Hdue Ht].
    apply Hother; [by left | done]. }
  cbn zeta in *.
  set (w1 := fold_left (λ w0 t, fire t w0) (filter (λ t, due t ≤ clock w + 1) T1) w0) in *.
  assert (Hin1 : save_timer id (clock w + 1) ∈ timers w1).
  { apply Hkeep1; [done |]. apply Forall_forall. intros t Ht.
    apply list_elem_of_filter in Ht as [_ Ht].
    apply (fresh_ids_middle T1 _ T2 (next_timer w)); [| by left].
    unfold well_formed in Hwf. by rewrite HT in Hwf. }
  destruct (fire_save id (clock w + 1) w1 Hin1 Hwf1)
    as (Hv2 & Hc2 & Ha2 & Hen2 & Hwf2 & Hw2 & Hsub2).
  cbn zeta in *.
  set (w2 := fire (save_timer id (clock w + 1)) w1) in *.
  destruct (fire_all_nonsave (filter (λ t, due t ≤ clock w + 1) T2) w2)
    as (Hv3 & Hc3 & Ha3 & Hst3 & Hl3 & Hwf3 & Hkeep3 & Hsub3); [done | |].
  { apply Forall_forall. intros t Ht. apply list_elem_of_filter in Ht as [Hdue Ht].
    apply Hother; [by right | done]. }
  cbn zeta in *.
  rewrite Hc3, Hv3, Hst3, Hl3, Hc2, Hv2, Hen2, Hw2, Hc1, Hv1, Hst1, Hl1.
  unfold record_text. rewrite Hc1, Hv1. subst w0. world_simpl.
  rewrite Hval. split_and!; try done.
  split; [done |]. intros t Ht.
  apply Hsub3, Hsub2 in Ht as [Ht Hne]. apply Hsub1 in Ht.
  destruct (Hsaves t Ht) as [-> | ?]; [by simpl in Hne | done].
Qed.

(** *** Time passing *)

Lemma advance_S `{Runtime} n w : advance (S n) w = tick (advance n w).
Proof. reflexivity. Qed.

Lemma advance_quiet `{Runtime} horizon n : ∀ w,
  quiet horizon w → clock w + N.of_nat n ≤ horizon →
  quiet horizon (advance n w)
  ∧ clock (advance n w) = clock w + N.of_nat n
  ∧ value (advance n w) = value w
  ∧ storage (advance n w) = storage w ∧ log (advance n w) = log w.
Proof.
  induction n as [| n IH]; intros w Hq Hh.
  - cbn [advance Nat.iter nat_rect]. split_and!; try done. lia.
  - destruct (IH w Hq) as (Hq' & Hc & Hv & Hst & Hl); [lia |].
    destruct (tick_quiet horizon (advance n w) Hq') as (Hq2 & Hc2 & Hv2 & Hst2 & Hl2);
      [lia |].
    rewrite advance_S, Hc2, Hv2, Hst2, Hl2, Hc, Hv, Hst, Hl.
    split_and!; try done. lia.
Qed.

Lemma advance_armed `{Runtime} horizon n : ∀ w c d,
  armed horizon w c d → clock w + N.of_nat n < d → clock w + N.of_nat n ≤ horizon →
  armed horizon (advance n w) c d
  ∧ clock (advance n w) = clock w + N.of_nat n
  ∧ storage (advance n w) = storage w ∧ log (advance n w) = log w.
Proof.
  induction n as [| n IH]; intros w c d Ha Hd Hh.
  - cbn [advance Nat.iter nat_rect]. split_and!; try done. lia.
  - destruct (IH w c d Ha) as (Ha' & Hc & Hst & Hl); [lia | lia |].
    destruct (tick_armed horizon (advance n w) c d Ha') as (Ha2 & Hc2 & Hst2 & Hl2);
      [lia | lia |].
    rewrite advance_S, Hc2, Hst2, Hl2, Hc, Hst, Hl.
    split_and!; try done. lia.
Qed.

(** Once the delay has passed without another edit, the save has fired
    exactly once. *)
Lemma advance_fires `{Runtime} horizon n : ∀ w c d,
  armed horizon w c d → clock w < d → d ≤ clock w + N.of_nat n →
  clock w + N.of_nat n ≤ horizon →
  quiet horizon (advance n w)
  ∧ clock (advance n w) = clock w + N.of_nat n
  ∧ value (advance n w) = c
  ∧ enabled (storage (advance n w)) = enabled (storage w)
  ∧ writes (log (advance n w))
    = writes (log w)
      ++ (if enabled (storage w)
          then [(storage_key, JSON_stringify (saved_data c (Date_toISOString d)))]
          else []).
Proof.
  induction n as [| n IH]; intros w c d Ha Hlt Hd Hh; [lia |].
  rewrite advance_S.
  destruct (decide (d ≤ clock w + N.of_nat n)) as [Hle | Hgt].
  - destruct (IH w c d Ha Hlt Hle) as (Hq & Hc & Hv & Hen & Hw); [lia |].
    destruct (tick_quiet horizon (advance n w) Hq) as (Hq2 & Hc2 & Hv2 & Hst2 & Hl2);
      [lia |].
    rewrite Hc2, Hv2, Hst2, Hl2, Hc, Hv, Hen, Hw. split_and!; try done. lia.
  - destruct (advance_armed horizon n w c d Ha) as (Ha' & Hc & Hst & Hl); [lia | lia |].
    destruct (tick_fires horizon (advance n w) c d Ha') as (Hq2 & Hc2 & Hv2 & Hen2 & Hw2);
      [lia | lia |].
    rewrite Hc2, Hv2, Hen2, Hw2, Hst, Hl. split_and!; try done. lia.
Qed.

Lemma last_content_cons c gap c' more :
  last_content c ((gap, c') :: more) = last_content c' more.
Proof.
  unfold last_content. destruct more as [| k more]; [reflexivity |].
  change (last ((gap, c') :: k :: more)) with (last (k :: more)).
  destruct (last (k :: more)) as [[] |] eqn:E; [reflexivity |].
  by apply last_None in E.
Qed.

(** Edits that follow each other within the delay keep one save
    scheduled, two seconds after the latest edit, and write nothing. *)
Lemma typing_armed `{Runtime} horizon more : ∀ w c,
  armed horizon w c (clock w + 2000) →
  Forall (λ k, (k.1 < 2000)%nat) more →
  clock w + N.of_nat (duration more) ≤ horizon →
  armed horizon (typing more w) (last_content c more) (clock (typing more w) + 2000)
  ∧ clock (typing more w) = clock w + N.of_nat (duration more)
  ∧ storage (typing more w) = storage w
  ∧ writes (log (typing more w)) = writes (log w).
Proof.
  induction more as [| [gap c'] more IH]; intros w c Ha Hgaps Hh.
  - cbn [typing duration foldr]. split_and!; try done. lia.
  - apply Forall_cons in Hgaps as [Hgap Hgaps]. cbn [fst] in Hgap.
    cbn [duration foldr fst] in Hh. fold (duration more) in Hh.
    destruct (advance_armed horizon gap w c (clock w + 2000) Ha)
      as (Ha1 & Hc1 & Hst1 & Hl1); [lia | lia |].
    destruct (input_arms horizon c' (advance gap w)) as (Ha2 & Hc2 & Hst2 & Hw2);
      [right; eauto |].
    rewrite <- Hc2 in Ha2.
    destruct (IH (input c' (advance gap w)) c' Ha2 Hgaps) as (Ha3 & Hc3 & Hst3 & Hw3);
      [lia |].
    cbn [typing]. rewrite last_content_cons. split; [exact Ha3 |].
    rewrite Hc3, Hst3, Hw3, Hc2, Hst2, Hw2, Hc1, Hst1, Hl1.
    cbn [duration foldr fst]. fold (duration more).
    split_and!; try done. lia.
Qed.

(** ** The theorems at concrete inputs *)

(** C6 on a freshly set up page. *)
Lemma clearContent_on_empty_witness :
  let w := fresh open_storage in
  let w' := (@clearContent plain_runtime w).2 in
  (@clearContent plain_runtime w).1 = Normal tt
  ∧ prompts (log w') = prompts (log w)
  ∧ value w' = []
  ∧ writes (log w') = writes (log w)
  ∧ storage w' = storage w.
Proof.
  apply (@clearContent_on_empty_is_noop plain_runtime (fresh open_storage)).
  reflexivity.
Defined.

(** C1 on [sample_content]: saved on one page, restored on a fresh one. *)
Lemma persist_then_restore_witness :
  let saved := (@saveToLocalStorage plain_runtime
                  (set_value sample_content (fresh open_storage))).2 in
  let reloaded := fresh (storage saved) in
  (@loadSavedContent plain_runtime reloaded).1 = Normal tt
  ∧ value (@loadSavedContent plain_runtime reloaded).2 = sample_content
  ∧ items (storage reloaded) !! storage_key
    = Some (@record_text plain_runtime (set_value sample_content (fresh open_storage))).
Proof.
  apply (@persist_then_restore plain_runtime sample_content (fresh open_storage)).
  - reflexivity.
  - reflexivity.
  - reflexivity.
  - reflexivity.
Defined.

(** ** Examples *)

(** The burst of [sample_keys], run: the one write happens 2 seconds after
    the last edit, at time 5599, and restoring from it gives the last
    content. *)
Example debounce_run :
  let w2 := @advance plain_runtime 2500
              (@typing plain_runtime sample_keys (fresh open_storage)) in
  length (writes (log w2)) = 1%nat
  ∧ clock w2 = 6099
  ∧ (JSON_parse <$> items (storage w2) !! storage_key)
    = Some (Some (saved_data (str "ab c") (str "T5599")))
  ∧ value (@loadSavedContent plain_runtime (fresh (storage w2))).2 = str "ab c".
Proof. vm_compute. repeat split. Qed.

(** The scheduled save reads the textarea when it fires.  The user types
    ["a"], clears the text half a second later and confirms: [clearContent]
    saves the empty text at once, and the scheduled save writes the empty
    text again at time 2000. *)
Example debounce_reads_content_when_it_fires :
  let rt := plain_runtime in
  let w1 := input (str "a") (fresh open_storage) in
  let w2 := dispatch clearContent (set_answers [true] (advance 500 w1)) in
  let w3 := advance 2000 w2 in
  (JSON_parse <$> (snd <$> writes (log w3)))
  = [Some (saved_data [] (str "T500")); Some (saved_data [] (str "T2000"))].
Proof. vm_compute. reflexivity. Qed.

(** Restoring on a fresh page: text that is not JSON and the text [null]
    leave the textarea empty (the failure is logged); a record without
    [content] gives the empty string; a record with [content] gives it. *)
Example restore_examples :
  let rt := plain_runtime in
  let restore := λ text, loadSavedContent (fresh (storage_holding text)) in
  (restore (str "{not json")).1 = Normal tt
  ∧ value (restore (str "{not json")).2 = []
  ∧ log (restore (str "{not json")).2
    = [ConsoleError "Error loading saved content:" SyntaxError]
  ∧ value (restore (str "null")).2 = []
  ∧ log (restore (str "null")).2
    = [ConsoleError "Error loading saved content:" TypeError]
  ∧ value (restore (123 :: QuoteJSONString (str "timestamp") ++ 58 ::
                    QuoteJSONString (str "x") ++ [125])).2 = []
  ∧ value (restore (123 :: QuoteJSONString (str "content") ++ 58 ::
                    QuoteJSONString (str "kept") ++ [125])).2 = str "kept"
  ∧ value (loadSavedContent (fresh open_storage)).2 = []
  ∧ value (loadSavedContent (fresh no_storage)).2 = [].
Proof. vm_compute. repeat split. Qed.

(** Clearing a text of spaces and newlines does nothing; clearing ["a b"]
    asks, and empties and saves only on a yes. *)
Example clear_examples :
  let rt := plain_runtime in
  let blank := set_value [32; 10; 9; 32] (fresh open_storage) in
  let text := set_value (str "a b") (fresh open_storage) in
  log (clearContent blank).2 = []
  ∧ value (clearContent blank).2 = [32; 10; 9; 32]
  ∧ value (clearContent (set_answers [false] text)).2 = str "a b"
  ∧ writes (log (clearContent (set_answers [false] text)).2) = []
  ∧ value (clearContent (set_answers [true] text)).2 = []
  ∧ length (writes (log (clearContent (set_answers [true] text)).2)) = 1%nat.
Proof. vm_compute. repeat split. Qed.

(** Shift+Tab on four lines, the selection reaching from the first line
    into the third: a tab goes, four of five spaces go, exactly four spaces
    go, and the fourth line is not touched. *)
Example removeIndentation_example :
  removeIndentation_lines
    ([9; 9; 10] ++ str "     x" ++ [10] ++ str "    y" ++ [10; 32; 9]) 1 12
  = Normal [[9]; str " x"; str "y"; [32; 9]].
Proof. reflexivity. Qed.

(* ===================================================================== *)
(** ** The rest of the class *)
(* ===================================================================== *)

(** *** Shift+Tab and Tab *)

Lemma removeIndentation_run w start end_ :
  ∃ ls, removeIndentation start end_ w = (Normal tt, set_value (join [10] ls) w)
        ∧ length ls = length (split_on 10 (value w))
        ∧ ∀ j, ls !! j = if touched (value w) start end_ j
                         then unindent <$> split_on 10 (value w) !! j
                         else split_on 10 (value w) !! j.
Proof.
  pose proof (line_of_bound (value w) start) as Hs.
  pose proof (line_of_bound (value w) end_) as He.
  destruct (removeIndentation_loop_spec
              (S (line_of (value w) end_) - line_of (value w) start)
              (line_of (value w) start)
              (split_on 10 (value w))) as (ls & Hrun & Hlen & Hget); [lia |].
  exists ls. split; [| split; [done |]].
  - unfold removeIndentation, removeIndentation_lines. unfold_js. simpl.
    by rewrite Hrun.
  - intros j. rewrite Hget. unfold touched.
    destruct (decide (line_of (value w) start ≤ j ≤ line_of (value w) end_)%nat).
    + by rewrite !bool_decide_eq_true_2 by lia.
    + by rewrite !bool_decide_eq_false_2 by lia.
Qed.

Lemma set_value_same w : set_value (value w) w = w.
Proof. by destruct w. Qed.

Lemma touched_lines_lookup text start end_ j line :
  touched text start end_ j = true → split_on 10 text !! j = Some line →
  line ∈ touched_lines text start end_.
Proof.
  unfold touched, touched_lines. intros Ht Hl.
  apply bool_decide_eq_true in Ht.
  apply list_elem_of_lookup.
  exists (j - line_of text start)%nat.
  rewrite lookup_take_lt by lia. rewrite lookup_drop.
  by replace (line_of text start + (j - line_of text start))%nat with j by lia.
Qed.

Lemma unindent_plain line : indented line = false → unindent line = line.
Proof.
  unfold indented, unindent. intros Hi. apply orb_false_iff in Hi as [-> ->]. done.
Qed.

(** X1. Shift+Tab on a selection none of whose lines starts with a tab or
    with four spaces changes nothing: the text that is split on newlines
    and joined again is the text itself. *)
Theorem removeIndentation_without_indentation (w : World) (start end_ : nat) :
  forallb (λ line, negb (indented line)) (touched_lines (value w) start end_) = true →
  removeIndentation start end_ w = (Normal tt, w).
Proof.
  intros Hplain.
  destruct (removeIndentation_run w start end_) as (ls & -> & Hlen & Hget).
  f_equal. transitivity (set_value (value w) w); [| apply set_value_same].
  f_equal. transitivity (join [10] (split_on 10 (value w))); [| apply join_split_on].
  f_equal.
  apply list_eq. intros j. rewrite Hget.
  destruct (touched (value w) start end_ j) eqn:Ht; [| done].
  destruct (split_on 10 (value w) !! j) as [line |] eqn:Hl; [| done].
  simpl. f_equal. apply unindent_plain.
  rewrite forallb_forall in Hplain.
  apply negb_true_iff, Hplain, list_elem_of_In.
  by apply (touched_lines_lookup _ _ _ j).
Qed.

Lemma removeIndentation_without_indentation_witness :
  let w := set_value (str "  two" ++ [10] ++ str "none" ++ [10; 9] ++ str "tab")
                     (fresh open_storage) in
  removeIndentation 2 8 w = (Normal tt, w).
Proof. apply removeIndentation_without_indentation. reflexivity. Defined.

Lemma substring_to_end (s : jsstring) a : substring a (length s) s = drop a s.
Proof. unfold substring. apply take_ge. rewrite length_drop. lia. Qed.

Lemma substring_from_start (s : jsstring) b : substring 0 b s = take b s.
Proof. unfold substring. by replace (b - 0)%nat with b by lia. Qed.

Lemma handleKeyDown_tab start end_ w :
  handleKeyDown "Tab" false start end_ w
  = (Normal {| defaultPrevented := true; cursor := Some (start + 1)%nat |},
     let w1 := set_value (take start (value w) ++ 9 :: drop end_ (value w)) w in
     set_log (log w1 ++ counter_events w1) w1).
Proof.
  unfold handleKeyDown. rewrite decide_True by done. unfold_js. cbn beta iota.
  rewrite updateStats_spec. cbn beta iota zeta.
  by rewrite substring_to_end, substring_from_start.
Qed.

Lemma handleKeyDown_shift_tab start end_ w :
  handleKeyDown "Tab" true start end_ w
  = (Normal {| defaultPrevented := true; cursor := None |},
     let w1 := (removeIndentation start end_ w).2 in
     set_log (log w1 ++ counter_events w1) w1).
Proof.
  unfold handleKeyDown. rewrite decide_True by done.
  destruct (removeIndentation_run w start end_) as (ls & Hrun & _).
  unfold_js. cbn beta iota. rewrite Hrun. cbn beta iota.
  by rewrite updateStats_spec.
Qed.

(** X2. A key in the textarea never throws, whatever the key and the
    selection, and never saves: the store stays as it is, nothing is
    written, and no save is scheduled or cancelled, for the pending timers
    that save and the three timer fields of the class are as before.  Only
    Tab prevents the default action.  Tab ends with [updateStats]: what it
    adds to the calls that leave the class are the calls to
    [animateNumber], one for each counter on the page, with the counts of
    the new text; each of them starts the animation of
    [Animation.animateNumber].  A plain Tab replaces the selection by one
    tab character and puts the cursor behind it; any other key changes
    nothing at all. *)
Theorem handleKeyDown_edits_without_saving
    (key : string) (shiftKey : bool) (start end_ : nat) (w : World) :
  let r := handleKeyDown key shiftKey start end_ w in
  (∃ o, r.1 = Normal o
        ∧ defaultPrevented o = bool_decide (key = "Tab")
        ∧ cursor o = if bool_decide (key = "Tab") && negb shiftKey
                     then Some (start + 1)%nat else None)
  ∧ storage r.2 = storage w ∧ writes (log r.2) = writes (log w)
  ∧ pending_saves r.2 = pending_saves w
  ∧ autoSaveTimer r.2 = autoSaveTimer w
  ∧ typingTimer r.2 = typingTimer w
  ∧ autoSaveInterval r.2 = autoSaveInterval w
  ∧ (if bool_decide (key = "Tab")
     then log r.2 = log w ++ counter_events r.2
          ∧ (shiftKey = false →
             value r.2 = take start (value w) ++ 9 :: drop end_ (value w))
     else r.2 = w).
Proof.
  cbn zeta. destruct (decide (key = "Tab")) as [-> | Hne].
  - rewrite bool_decide_eq_true_2 by done. destruct shiftKey.
    + rewrite handleKeyDown_shift_tab.
      destruct (removeIndentation_run w start end_) as (ls & -> & _).
      cbn zeta. world_simpl. rewrite writes_app, (proj2 (counter_events_silent _)).
      rewrite app_nil_r. split_and!; try done. by eexists.
    + rewrite handleKeyDown_tab. cbn zeta. world_simpl.
      rewrite writes_app, (proj2 (counter_events_silent _)).
      rewrite app_nil_r. split_and!; try done. by eexists.
  - rewrite bool_decide_eq_false_2 by done.
    unfold handleKeyDown. rewrite decide_False by done. unfold_js. cbn.
    split_and!; try done. by eexists.
Qed.

Lemma split_on_app_sep sep a b :
  split_on sep (a ++ sep :: b) = split_on sep a ++ split_on sep b.
Proof.
  induction a as [| c a IH]; simpl.
  - by rewrite N.eqb_refl.
  - destruct (c =? sep); [by rewrite IH |].
    rewrite IH. pose proof (split_on_nonempty sep a).
    by destruct (split_on sep a).
Qed.

(** The lines before a position where a line starts. *)
Lemma split_on_line_start (text : jsstring) pos :
  at_line_start text pos = true →
  ∃ L, length L = count_char 10 (take pos text)
       ∧ ∀ b, split_on 10 (take pos text ++ b) = L ++ split_on 10 b.
Proof.
  destruct pos as [| p]; simpl.
  - intros _. exists []. by rewrite take_0.
  - intros Hp. apply bool_decide_eq_true in Hp.
    exists (split_on 10 (take p text)).
    rewrite (take_S_r _ _ _ Hp). split.
    + rewrite split_on_length, count_char_app. unfold count_char at 3.
      rewrite filter_cons_True by done. simpl. lia.
    + intros b. rewrite <- app_assoc. apply split_on_app_sep.
Qed.

(** X3. Tab and then Shift+Tab at the start of a line give the text back:
    with the cursor where a line starts, Tab puts one tab there and the
    cursor behind it, and Shift+Tab with the cursor at that place removes
    this tab again. *)
Theorem tab_then_shift_tab_restores (w : World) (pos : nat) :
  at_line_start (value w) pos = true →
  let r := handleKeyDown "Tab" false pos pos w in
  r.1 = Normal {| defaultPrevented := true; cursor := Some (pos + 1)%nat |}
  ∧ value r.2 = take pos (value w) ++ 9 :: drop pos (value w)
  ∧ value (handleKeyDown "Tab" true (pos + 1) (pos + 1) r.2).2 = value w.
Proof.
  intros Hpos. cbn zeta. rewrite handleKeyDown_tab. cbn zeta. cbn [fst snd].
  split; [done |]. split; [done |].
  rewrite handleKeyDown_shift_tab. cbn zeta. cbn [snd]. world_simpl.
  match goal with |- context [removeIndentation ?a ?b ?x] =>
    destruct (removeIndentation_run x a b) as (ls & -> & Hlen & Hget)
  end.
  world_simpl.
  set (text := value w) in *.
  destruct (split_on_line_start text pos Hpos) as (L & HL & Hsplit).
  transitivity (join [10] (split_on 10 text)); [| apply join_split_on].
  f_equal. rewrite <- (take_drop pos text) at 1.
  rewrite Hsplit.
  assert (Hpos' : (pos ≤ length text)%nat).
  { destruct pos as [| p]; [lia |]. simpl in Hpos.
    apply bool_decide_eq_true in Hpos. apply lookup_lt_Some in Hpos. lia. }
  assert (Hline : ∀ j, touched (take pos text ++ 9 :: drop pos text) (pos + 1) (pos + 1) j
                       = bool_decide (j = length L)).
  { intros j. unfold touched. rewrite line_of_count.
    replace (take (pos + 1) (take pos text ++ 9 :: drop pos text))
      with (take pos text ++ [9]).
    2:{ rewrite take_app_ge by (rewrite length_take; lia).
        rewrite length_take. replace (pos + 1 - pos `min` length text)%nat with 1%nat by lia.
        done. }
    assert (Hc9 : count_char 10 [9] = 0%nat) by done.
    rewrite count_char_app, Hc9, <- HL. apply bool_decide_ext. lia. }
  pose proof (split_on_nonempty 10 (drop pos text)) as Hne.
  destruct (split_on 10 (drop pos text)) as [| l0 rest] eqn:Hd; [done |].
  apply list_eq. intros j. rewrite Hget, Hline, Hsplit. simpl.
  rewrite Hd. cbn [cons_head].
  destruct (decide (j = length L)) as [-> | Hj].
  - rewrite bool_decide_eq_true_2 by done.
    rewrite !list_lookup_middle by done. done.
  - rewrite bool_decide_eq_false_2 by done.
    destruct (decide (j < length L)%nat).
    + by rewrite !lookup_app_l by done.
    + rewrite !lookup_app_r by lia.
      destruct (j - length L)%nat eqn:E; [lia | done].
Qed.

Lemma tab_then_shift_tab_restores_witness :
  let w := set_value (str "one" ++ [10] ++ str "two") (fresh open_storage) in
  let r := handleKeyDown "Tab" false 4 4 w in
  r.1 = Normal {| defaultPrevented := true; cursor := Some 5%nat |}
  ∧ value r.2 = str "one" ++ [10; 9] ++ str "two"
  ∧ value (handleKeyDown "Tab" true 5 5 r.2).2 = str "one" ++ [10] ++ str "two".
Proof.
  apply (tab_then_shift_tab_restores
           (set_value (str "one" ++ [10] ++ str "two") (fresh open_storage)) 4).
  reflexivity.
Defined.

(** *** What is in the store *)

Lemma saveToLocalStorage_stored `{Runtime} w :
  enabled (storage w) = true →
  accepts (storage w) storage_key (record_text w) = true →
  items (storage (saveToLocalStorage w).2)
  = <[storage_key := record_text w]> (items (storage w))
  ∧ enabled (storage (saveToLocalStorage w).2) = true.
Proof.
  intros Hen Hacc. rewrite saveToLocalStorage_spec, Hen, Hacc. by world_simpl.
Qed.

Lemma loadSavedContent_record `{Runtime} w content timestamp :
  N.of_nat (length content) < 2 ^ 53 →
  enabled (storage w) = true →
  items (storage w) !! storage_key
  = Some (JSON_stringify (saved_data content timestamp)) →
  value (loadSavedContent w).2 = content.
Proof.
  intros Hlen Hen Hitem.
  apply (loadSavedContent_parsed w _ (saved_data content timestamp)
           (Some (JStr content)) content Hen Hitem).
  - by apply JSON_roundtrip.
  - apply saved_data_content.
  - apply ToString_string.
Qed.

(** X4. The record a successful save leaves in the store parses, and what
    it says agrees with the textarea: its content is the text, its
    timestamp the time of the save, and its three statistics are the
    length, the number of words and the number of lines of that same text.
    The save touches no other key of the store. *)
Theorem saveToLocalStorage_record_reads_back `{Runtime} (w : World) :
  N.of_nat (length (value w)) < 2 ^ 53 →
  enabled (storage w) = true →
  accepts (storage w) storage_key (record_text w) = true →
  let st := storage (saveToLocalStorage w).2 in
  (∃ data,
      JSON_parse <$> items st !! storage_key = Some (Some data)
      ∧ get_property data (str "content") = Normal (Some (JStr (value w)))
      ∧ get_property data (str "timestamp")
        = Normal (Some (JStr (Date_toISOString (clock w))))
      ∧ saved_stat (str "chars") data
        = Some (JNum (number_of_nat (length (value w))))
      ∧ saved_stat (str "words") data
        = Some (JNum (number_of_nat (words (value w))))
      ∧ saved_stat (str "lines") data
        = Some (JNum (number_of_nat (lines (value w)))))
  ∧ ∀ k, k ≠ storage_key → items st !! k = items (storage w) !! k.
Proof.
  intros Hlen Hen Hacc. cbn zeta.
  destruct (saveToLocalStorage_stored w Hen Hacc) as [-> _]. split.
  - exists (saved_data (value w) (Date_toISOString (clock w))).
    rewrite lookup_insert_eq. unfold record_text. cbn [fmap option_fmap option_map].
    rewrite JSON_roundtrip by done. done.
  - intros k Hk. by rewrite lookup_insert_ne.
Qed.

Lemma saveToLocalStorage_record_reads_back_witness :
  let w := set_value sample_content (fresh open_storage) in
  let st := storage (@saveToLocalStorage plain_runtime w).2 in
  (∃ data,
      JSON_parse <$> items st !! storage_key = Some (Some data)
      ∧ get_property data (str "content") = Normal (Some (JStr sample_content))
      ∧ get_property data (str "timestamp") = Normal (Some (JStr (str "T0")))
      ∧ saved_stat (str "chars") data = Some (JNum (number_of_nat 23))
      ∧ saved_stat (str "words") data = Some (JNum (number_of_nat 5))
      ∧ saved_stat (str "lines") data = Some (JNum (number_of_nat 3)))
  ∧ ∀ k, k ≠ storage_key → items st !! k = items open_storage !! k.
Proof.
  apply (@saveToLocalStorage_record_reads_back plain_runtime
           (set_value sample_content (fresh open_storage)));
    [vm_compute; reflexivity | reflexivity | reflexivity].
Defined.

Lemma clearContent_confirmed_storage `{Runtime} w rest :
  trim (value w) ≠ [] → answers w = true :: rest →
  storage (clearContent w).2 = storage (saveToLocalStorage (set_value [] w)).2.
Proof.
  intros Hne Ha. unfold clearContent. unfold_js. cbn beta iota.
  rewrite decide_False by done. unfold confirm. rewrite Ha. cbn beta iota.
  rewrite updateStats_spec. cbn beta iota.
  rewrite !saveToLocalStorage_spec. unfold record_text. world_simpl.
  destruct (enabled (storage w)) eqn:Hen;
    [destruct (accepts (storage w) storage_key _) eqn:Hacc |];
    cbn beta iota; rewrite showStatus_spec; world_simpl;
    by destruct (statusMessage w).
Qed.

(** X5. A confirmed clear is saved: when the store takes the write, the
    record under the fixed key is replaced by one with empty content, and a
    later restore, in whatever state the page is by then, leaves the
    textarea empty. *)
Theorem clearContent_is_persisted `{Runtime} (w w2 : World) (rest : list bool) :
  trim (value w) ≠ [] →
  answers w = true :: rest →
  enabled (storage w) = true →
  accepts (storage w) storage_key (record_text (set_value [] w)) = true →
  storage w2 = storage (clearContent w).2 →
  value (clearContent w).2 = []
  ∧ items (storage w2) !! storage_key = Some (record_text (set_value [] w))
  ∧ value (loadSavedContent (set_value (value w) w2)).2 = [].
Proof.
  intros Hne Ha Hen Hacc Hst.
  rewrite (clearContent_confirmed_storage w rest Hne Ha) in Hst.
  destruct (saveToLocalStorage_stored (set_value [] w) Hen Hacc) as [Hit Hen'].
  assert (Hitem : items (storage w2) !! storage_key = Some (record_text (set_value [] w))).
  { by rewrite Hst, Hit, lookup_insert_eq. }
  split_and!.
  - destruct (clearContent_asks w Hne) as (_ & _ & Hyes).
    rewrite Ha in Hyes. by destruct Hyes.
  - done.
  - apply (loadSavedContent_record _ [] (Date_toISOString (clock w))).
    + simpl. lia.
    + world_simpl. by rewrite Hst.
    + done.
Qed.

Lemma clearContent_is_persisted_witness :
  let w := set_answers [true] (set_value (str "draft") (fresh open_storage)) in
  let w2 := fresh (storage (@clearContent plain_runtime w).2) in
  value (@clearContent plain_runtime w).2 = []
  ∧ items (storage w2) !! storage_key
    = Some (@record_text plain_runtime (set_value [] w))
  ∧ value (@loadSavedContent plain_runtime (set_value (value w) w2)).2 = [].
Proof.
  intros w w2.
  apply (@clearContent_is_persisted plain_runtime w w2 []);
    [vm_compute; congruence | reflexivity | reflexivity | reflexivity
    | vm_compute; reflexivity].
Defined.

(** X6. Leaving the page saves what the debounce has not saved yet: after
    an edit, while the two seconds of the debounce are still running and
    nothing has been written, [handleBeforeUnload] writes the record, and
    a restore from that store puts the edited text back. *)
Theorem handleBeforeUnload_saves_pending_edit `{Runtime}
    (content : jsstring) (n : nat) (w w2 : World) :
  quiet (clock w + N.of_nat n) w →
  (n < 2000)%nat →
  N.of_nat (length content) < 2 ^ 53 →
  enabled (storage w) = true →
  let w1 := advance n (input content w) in
  accepts (storage w) storage_key (record_text w1) = true →
  storage w2 = storage (handleBeforeUnload w1).2 →
  writes (log w1) = writes (log w)
  ∧ writes (log (handleBeforeUnload w1).2)
    = writes (log w) ++ [(storage_key, record_text w1)]
  ∧ value w1 = content
  ∧ value (loadSavedContent w2).2 = content.
Proof.
  intros Hq Hn Hlen Hen w1 Hacc Hst.
  destruct (input_arms (clock w + N.of_nat n) content w (or_introl Hq))
    as (Harm & Hc0 & Hst0 & Hw0).
  destruct (advance_armed (clock w + N.of_nat n) n (input content w) content
              (clock w + 2000) Harm) as (Harm1 & Hc1 & Hst1 & Hl1); [lia | lia |].
  fold w1 in Harm1, Hc1, Hst1, Hl1.
  assert (Hv1 : value w1 = content) by (by destruct Harm1).
  assert (Hen1 : enabled (storage w1) = true) by (by rewrite Hst1, Hst0).
  assert (Hacc1 : accepts (storage w1) storage_key (record_text w1) = true)
    by (by rewrite Hst1, Hst0).
  unfold handleBeforeUnload in *.
  destruct (saveToLocalStorage_stored w1 Hen1 Hacc1) as [Hit Hen2].
  split_and!.
  - by rewrite Hl1.
  - by rewrite saveToLocalStorage_writes, Hen1, Hl1, Hw0.
  - done.
  - apply (loadSavedContent_record _ content (Date_toISOString (clock w1))); [done | |].
    + by rewrite Hst.
    + rewrite Hst, Hit, lookup_insert_eq. unfold record_text. by rewrite Hv1.
Qed.

Lemma handleBeforeUnload_saves_pending_edit_witness :
  let w := fresh open_storage in
  let w1 := @advance plain_runtime 1500 (@input plain_runtime (str "unsaved") w) in
  let w2 := fresh (storage (@handleBeforeUnload plain_runtime w1).2) in
  writes (log w1) = writes (log w)
  ∧ writes (log (@handleBeforeUnload plain_runtime w1).2)
    = writes (log w) ++ [(storage_key, @record_text plain_runtime w1)]
  ∧ value w1 = str "unsaved"
  ∧ value (@loadSavedContent plain_runtime w2).2 = str "unsaved".
Proof.
  intros w w1 w2.
  apply (@handleBeforeUnload_saves_pending_edit plain_runtime (str "unsaved") 1500 w w2).
  - split; [split; [constructor | constructor] |].
    intros t Ht. by apply elem_of_nil in Ht.
  - lia.
  - vm_compute. reflexivity.
  - reflexivity.
  - vm_compute. reflexivity.
  - vm_compute. reflexivity.
Defined.

(** *** Timers of one kind *)

Lemma kept_refl w : kept w w.
Proof. by split. Qed.

Lemma kept_trans w1 w2 w3 : kept w1 w2 → kept w2 w3 → kept w1 w3.
Proof. intros [] []. split; congruence. Qed.

Lemma run_callback_kept `{Runtime} f w :
  let w' := dispatch (run_callback f) w in
  kept w w' ∧ clock w' = clock w ∧ timers w' = timers w
  ∧ statusMessage w' = (if is_hide f then hidden (statusMessage w) else statusMessage w)
  ∧ isTyping w' = (if is_typing_off f then false else isTyping w).
Proof.
  unfold dispatch, run_callback. destruct f.
  - unfold setTypingIndicator, modify. world_simpl. by split_and!.
  - rewrite saveToLocalStorage_spec.
    destruct (enabled (storage w)) eqn:Hen;
      [destruct (accepts (storage w) storage_key (record_text w)) |];
      world_simpl; by split_and!.
  - unfold_js. rewrite updateStats_spec. cbn beta iota.
    rewrite saveToLocalStorage_spec.
    match goal with
    | |- context [enabled (storage ?x)] => change (enabled (storage x)) with (enabled (storage w))
    end.
    destruct (enabled (storage w)) eqn:Hen;
      [match goal with |- context [accepts ?a ?b ?c] => destruct (accepts a b c) end |];
      world_simpl; by split_and!.
  - unfold_js. cbn beta iota. destruct (decide (trim (value w) = [])).
    + by split_and!.
    + rewrite saveToLocalStorage_spec.
      destruct (enabled (storage w)) eqn:Hen;
        [destruct (accepts (storage w) storage_key (record_text w)) |];
        world_simpl; by split_and!.
  - unfold hideStatus, modify. destruct (statusMessage w) eqn:E; world_simpl;
      rewrite ?E; by split_and!.
Qed.

(** A timer fires, whatever it runs: the page is kept, the other timers
    stay pending, and the only new entry of the queue is an interval that
    is queued again. *)
Lemma fire_any `{Runtime} t w :
  well_formed w →
  let w' := fire t w in
  kept w w' ∧ clock w' = clock w ∧ well_formed w'
  ∧ (∀ s, s ∈ timers w → tid s ≠ tid t → s ∈ timers w')
  ∧ (∀ s, s ∈ timers w' →
          s ∈ timers w ∧ tid s ≠ tid t
          ∨ ∃ p, pending (tid t) w = true ∧ period t = Some p ∧ s = again t p)
  ∧ (pending (tid t) w = true → period t = None → ∀ s, s ∈ timers w' → tid s ≠ tid t)
  ∧ (pending (tid t) w = true → ∀ p, period t = Some p → again t p ∈ timers w').
Proof.
  intros Hwf. unfold fire. cbn zeta.
  destruct (pending (tid t) w) eqn:Hp.
  2:{ split_and!; try done.
      intros s Hs. left. split; [done |]. intros Hid.
      assert (pending (tid t) w = true); [| congruence].
      apply pending_elem. by exists s. }
  apply pending_elem in Hp as (t0 & Ht0 & Hid).
  match goal with |- context [dispatch ?m ?x] =>
    pose proof (run_callback_kept (cb t) x) as Hf; cbn zeta in Hf;
    destruct Hf as (Hk & Hc & Ht & _)
  end.
  rewrite Hc, Ht. world_simpl. split_and!; try done.
  - by destruct Hk.
  - unfold well_formed. rewrite Ht, (kept_next_timer _ _ Hk). world_simpl.
    destruct (period t) as [p |].
    + rewrite <- Hid. by apply (fresh_ids_requeue _ _ t0).
    + by apply fresh_ids_filter.
  - intros s Hs Hne.
    assert (s ∈ filter (λ t', tid t' ≠ tid t) (timers w))
      by (by apply list_elem_of_filter).
    destruct (period t); [apply elem_of_app; by left | done].
  - intros s Hs.
    destruct (period t) as [p |].
    + apply elem_of_app in Hs as [Hs | Hs].
      * left. by apply list_elem_of_filter in Hs as [? ?].
      * right. exists p. apply list_elem_of_singleton in Hs. by subst.
    + left. by apply list_elem_of_filter in Hs as [? ?].
  - intros _ Hnone s Hs. rewrite Hnone in Hs.
    by apply list_elem_of_filter in Hs as [? _].
  - intros _ p Hsome. rewrite Hsome. apply elem_of_app. right.
    by apply list_elem_of_singleton.
Qed.

Lemma kept_set_timers q w : kept w (set_timers q w).
Proof. by split. Qed.

Lemma kept_set_clock c w : kept w (set_clock c w).
Proof. by split. Qed.

(** What timers of one [kind] do to an observation [obs] of the world that
    the callbacks of the other kinds, the clock and the queue leave
    alone. *)
Section one_kind.
Context `{Runtime} {A : Type}.
Variables (kind : callback → bool) (obs : World → A).
Hypothesis obs_other :
  ∀ f w, kind f = false → obs (dispatch (run_callback f) w) = obs w.
Hypothesis obs_clock : ∀ c w, obs (set_clock c w) = obs w.
Hypothesis obs_timers : ∀ q w, obs (set_timers q w) = obs w.

Lemma fire_other t w : kind (cb t) = false → obs (fire t w) = obs w.
Proof.
  intros Hk. unfold fire. destruct (pending (tid t) w); [| done].
  by rewrite obs_other, obs_timers.
Qed.

Lemma fire_all_other D : ∀ w,
  well_formed w → Forall (λ t, kind (cb t) = false) D →
  let w' := fold_left (λ w0 t, fire t w0) D w in
  obs w' = obs w ∧ kept w w' ∧ clock w' = clock w ∧ well_formed w'
  ∧ (∀ s, s ∈ timers w → Forall (λ t, tid t ≠ tid s) D → s ∈ timers w')
  ∧ (∀ s, s ∈ timers w' →
          s ∈ timers w ∨ ∃ t, t ∈ D ∧ tid s = tid t ∧ cb s = cb t ∧ due t ≤ due s).
Proof.
  induction D as [| t D IH]; intros w Hwf HD.
  { cbn. split_and!; try done. intros s Hs. by left. }
  apply Forall_cons in HD as [Ht HD].
  destruct (fire_any t w Hwf) as (Hk & Hc & Hwf' & Hkeep & Horig & _ & _).
  destruct (IH (fire t w) Hwf' HD) as (Ho2 & Hk2 & Hc2 & Hwf2 & Hkeep2 & Horig2).
  cbn zeta in *. cbn [fold_left].
  rewrite Ho2, Hc2, Hc, (fire_other t w Ht).
  split_and!; try done.
  - by apply (kept_trans _ (fire t w)).
  - intros s Hs Hne. apply Forall_cons in Hne as [Hne1 Hne2].
    apply Hkeep2; [| done]. apply Hkeep; [done | congruence].
  - intros s Hs. destruct (Horig2 s Hs) as [Hs' | (t' & Ht' & Hid & Hcb & Hdue)].
    + destruct (Horig s Hs') as [[? _] | (p & _ & _ & ->)]; [by left |].
      right. exists t. split; [apply elem_of_cons; by left |].
      cbn [again tid cb due]. split_and!; [done | done | lia].
    + right. exists t'. split; [apply elem_of_cons; by right | done].
Qed.

(** The timers that are due now, when the only one of [kind] that may be
    among them is [t]. *)
Lemma due_other horizon w (P : Timer → Prop) :
  clock w + 1 ≤ horizon →
  (∀ s, s ∈ timers w → kind (cb s) = true → P s ∨ horizon < due s) →
  ∀ s, s ∈ timers w → due s ≤ clock w + 1 → ¬ P s → kind (cb s) = false.
Proof.
  intros Hh Hsole s Hs Hdue HnP.
  destruct (kind (cb s)) eqn:Hk; [| done].
  destruct (Hsole s Hs Hk) as [? | ?]; [done | lia].
Qed.

Lemma tick_none horizon w :
  none_due kind horizon w → clock w + 1 ≤ horizon →
  none_due kind horizon (tick w) ∧ obs (tick w) = obs w
  ∧ kept w (tick w) ∧ clock (tick w) = clock w + 1
  ∧ ∀ s, s ∈ timers (tick w) →
         ∃ s0, s0 ∈ timers w ∧ tid s0 = tid s ∧ cb s0 = cb s ∧ due s0 ≤ due s.
Proof.
  intros [Hwf Hq] Hh. rewrite tick_unfold.
  destruct (fire_all_other (filter (λ t, due t ≤ clock w + 1) (timers w))
              (set_clock (clock w + 1) w))
    as (Ho & Hk & Hc & Hwf' & _ & Horig); [done | |].
  { apply Forall_forall. intros t Ht. apply list_elem_of_filter in Ht as [Hdue Ht].
    apply (due_other horizon w (λ _, False)); try done; [| tauto].
    intros s Hs Hks. right. by apply Hq. }
  cbn zeta in *. rewrite Ho, Hc, obs_clock. split_and!; try done.
  - split; [done |]. intros s Hs Hks.
    destruct (Horig s Hs) as [Hs' | (t & Ht & _ & Hcb & _)]; [by apply Hq |].
    apply list_elem_of_filter in Ht as [Hdue Ht]. rewrite Hcb in Hks.
    specialize (Hq t Ht Hks). lia.
  - apply (kept_trans _ (set_clock (clock w + 1) w)); [apply kept_set_clock | done].
  - intros s Hs.
    destruct (Horig s Hs) as [Hs' | (t & Ht & Hid & Hcb & Hdue)]; [by exists s |].
    apply list_elem_of_filter in Ht as [_ Ht]. by exists t.
Qed.

Lemma tick_sole_waits horizon w t :
  sole kind horizon w t → clock w + 1 < due t → clock w + 1 ≤ horizon →
  sole kind horizon (tick w) t ∧ obs (tick w) = obs w
  ∧ kept w (tick w) ∧ clock (tick w) = clock w + 1.
Proof.
  intros (Hwf & Hin & Hsole) Hd Hh. rewrite tick_unfold.
  assert (Hdue : ∀ s, s ∈ filter (λ t, due t ≤ clock w + 1) (timers w) →
                      kind (cb s) = false ∧ tid s ≠ tid t).
  { intros s Hs. apply list_elem_of_filter in Hs as [Hdue Hs].
    assert (Hne : s ≠ t) by (intros ->; lia).
    split.
    - by apply (due_other horizon w (λ s, s = t)).
    - intros Hid. apply Hne. by apply (fresh_ids_same _ _ _ _ Hwf). }
  destruct (fire_all_other (filter (λ t, due t ≤ clock w + 1) (timers w))
              (set_clock (clock w + 1) w))
    as (Ho & Hk & Hc & Hwf' & Hkeep & Horig); [done | |].
  { apply Forall_forall. intros s Hs. by apply Hdue. }
  cbn zeta in *. rewrite Ho, Hc, obs_clock. split_and!; try done.
  - split; [done |]. split.
    + apply Hkeep; [done |]. apply Forall_forall. intros s Hs. by apply Hdue.
    + intros s Hs Hks.
      destruct (Horig s Hs) as [Hs' | (t' & Ht' & _ & Hcb & _)]; [by apply Hsole |].
      rewrite Hcb in Hks. destruct (Hdue t' Ht') as [Hf _]. congruence.
  - apply (kept_trans _ (set_clock (clock w + 1) w)); [apply kept_set_clock | done].
Qed.

(** The millisecond in which [t] is due: the timers before it in the
    queue fire, then [t] runs its callback in a world [w1] that observes
    as [w] did, then the timers behind it fire. *)
Lemma tick_sole_fires horizon w t :
  sole kind horizon w t → due t ≤ clock w + 1 → clock w + 1 ≤ horizon →
  (∃ w1, kept w w1 ∧ clock w1 = clock w + 1 ∧ obs w1 = obs w
         ∧ obs (tick w) = obs (dispatch (run_callback (cb t)) w1))
  ∧ kept w (tick w) ∧ clock (tick w) = clock w + 1
  ∧ match period t with
    | None => none_due kind horizon (tick w)
              ∧ ∀ s, s ∈ timers (tick w) → tid s ≠ tid t
    | Some p => sole kind horizon (tick w) (again t p)
    end.
Proof.
  intros (Hwf & Hin & Hsole) Hd Hh. rewrite tick_unfold.
  destruct (list_elem_of_split _ _ Hin) as (T1 & T2 & HT).
  assert (Hids : ∀ s, s ∈ T1 ∨ s ∈ T2 → tid s ≠ tid t).
  { intros s Hs. apply (fresh_ids_middle T1 _ T2 (next_timer w)); [| done].
    unfold well_formed in Hwf. by rewrite HT in Hwf. }
  assert (Hother : ∀ s, s ∈ T1 ∨ s ∈ T2 → due s ≤ clock w + 1 → kind (cb s) = false).
  { intros s Hs Hdue.
    apply (due_other horizon w (λ s, s = t)); try done.
    - rewrite HT. rewrite elem_of_app, elem_of_cons. tauto.
    - intros ->. by apply (Hids t). }
  rewrite HT, filter_app, filter_cons_True by done.
  rewrite fold_left_app. cbn [fold_left].
  set (w0 := set_clock (clock w + 1) w).
  assert (Hwf0 : well_formed w0) by done.
  destruct (fire_all_other (filter (λ t, due t ≤ clock w + 1) T1) w0)
    as (Ho1 & Hk1 & Hc1 & Hwf1 & Hkeep1 & Horig1); [done | |].
  { apply Forall_forall. intros s Hs. apply list_elem_of_filter in Hs as [Hdue Hs].
    apply Hother; [by left | done]. }
  cbn zeta in *.
  set (w1 := fold_left (λ w0 t, fire t w0) (filter (λ t, due t ≤ clock w + 1) T1) w0) in *.
  assert (Hin1 : t ∈ timers w1).
  { apply Hkeep1; [exact Hin |].
    apply Forall_forall. intros s Hs.
    apply list_elem_of_filter in Hs as [_ Hs]. apply Hids. by left. }
  assert (Hp1 : pending (tid t) w1 = true) by (apply pending_elem; by exists t).
  destruct (fire_any t w1 Hwf1) as (Hk2 & Hc2 & Hwf2 & Hkeep2 & Horig2 & Hgone2 & Hagain2).
  cbn zeta in *.
  assert (Hfire : ∃ q, fire t w1 = dispatch (run_callback (cb t)) (set_timers q w1)).
  { unfold fire. rewrite Hp1. by eexists. }
  destruct Hfire as [q Hfire].
  set (w2 := fire t w1) in *.
  destruct (fire_all_other (filter (λ t, due t ≤ clock w + 1) T2) w2)
    as (Ho3 & Hk3 & Hc3 & Hwf3 & Hkeep3 & Horig3); [done | |].
  { apply Forall_forall. intros s Hs. apply list_elem_of_filter in Hs as [Hdue Hs].
    apply Hother; [by right | done]. }
  cbn zeta in *.
  set (w3 := fold_left (λ w0 t, fire t w0) (filter (λ t, due t ≤ clock w + 1) T2) w2) in *.
  assert (Hk01 : kept w w1).
  { apply (kept_trans _ w0); [apply kept_set_clock | done]. }
  assert (Hfrom : ∀ s, s ∈ timers w3 → kind (cb s) = true →
                       (s ∈ timers w ∧ tid s ≠ tid t)
                       ∨ ∃ p, period t = Some p ∧ s = again t p).
  { intros s Hs Hks.
    destruct (Horig3 s Hs) as [Hs2 | (t' & Ht' & _ & Hcb & _)].
    2:{ apply list_elem_of_filter in Ht' as [Hdue Ht'].
        rewrite Hcb, Hother in Hks; [done | by right | done]. }
    destruct (Horig2 s Hs2) as [[Hs1 Hne] | (p & _ & Hp & ->)]; [| right; by exists p].
    destruct (Horig1 s Hs1) as [Hs0 | (t' & Ht' & _ & Hcb & _)]; [by left |].
    apply list_elem_of_filter in Ht' as [Hdue Ht'].
    rewrite Hcb, Hother in Hks; [done | by left | done]. }
  split_and!.
  - exists (set_timers q w1). split_and!.
    + apply (kept_trans _ w1); [done | apply kept_set_timers].
    + world_simpl. by rewrite Hc1.
    + rewrite obs_timers, Ho1. apply obs_clock.
    + by rewrite Ho3, <- Hfire.
  - apply (kept_trans _ w1); [done |].
    by apply (kept_trans _ w2).
  - by rewrite Hc3, Hc2, Hc1.
  - destruct (period t) as [p |] eqn:Hper.
    + split; [done |]. split.
      * apply Hkeep3; [by apply Hagain2 |].
        apply Forall_forall. intros s Hs.
        apply list_elem_of_filter in Hs as [_ Hs]. cbn [again tid].
        apply Hids. by right.
      * intros s Hs Hks.
        destruct (Hfrom s Hs Hks) as [[Hs0 Hne] | (p' & [= <-] & ->)]; [| by left].
        destruct (Hsole s Hs0 Hks) as [-> | ?]; [done | by right].
    + split; [split; [done |] |].
      * intros s Hs Hks.
        destruct (Hfrom s Hs Hks) as [[Hs0 Hne] | (p' & ? & _)]; [| done].
        destruct (Hsole s Hs0 Hks) as [-> | ?]; done.
      * intros s Hs.
        destruct (Horig3 s Hs) as [Hs2 | (t' & Ht' & Hid & _ & _)].
        -- by apply Hgone2.
        -- apply list_elem_of_filter in Ht' as [_ Ht']. rewrite Hid.
           apply Hids. by right.
Qed.

Lemma advance_none horizon n : ∀ w,
  none_due kind horizon w → clock w + N.of_nat n ≤ horizon →
  none_due kind horizon (advance n w) ∧ obs (advance n w) = obs w
  ∧ kept w (advance n w) ∧ clock (advance n w) = clock w + N.of_nat n
  ∧ ∀ s, s ∈ timers (advance n w) →
         ∃ s0, s0 ∈ timers w ∧ tid s0 = tid s ∧ cb s0 = cb s ∧ due s0 ≤ due s.
Proof.
  induction n as [| n IH]; intros w Hq Hh.
  - cbn [advance Nat.iter nat_rect]. split_and!; try done; [lia |].
    intros s Hs. by exists s.
  - destruct (IH w Hq) as (Hq' & Ho & Hk & Hc & Hg); [lia |].
    destruct (tick_none horizon (advance n w) Hq') as (Hq2 & Ho2 & Hk2 & Hc2 & Hg2);
      [lia |].
    rewrite advance_S, Ho2, Hc2, Ho, Hc. split_and!; try done.
    + by apply (kept_trans _ (advance n w)).
    + lia.
    + intros s Hs. destruct (Hg2 s Hs) as (s1 & Hs1 & Hid1 & Hcb1 & Hdue1).
      destruct (Hg s1 Hs1) as (s0 & Hs0 & Hid0 & Hcb0 & Hdue0).
      exists s0. split_and!; [done | congruence | congruence | lia].
Qed.

Lemma advance_sole_waits horizon n : ∀ w t,
  sole kind horizon w t → clock w + N.of_nat n < due t →
  clock w + N.of_nat n ≤ horizon →
  sole kind horizon (advance n w) t ∧ obs (advance n w) = obs w
  ∧ kept w (advance n w) ∧ clock (advance n w) = clock w + N.of_nat n.
Proof.
  induction n as [| n IH]; intros w t Hs Hd Hh.
  - cbn [advance Nat.iter nat_rect]. split_and!; try done. lia.
  - destruct (IH w t Hs) as (Hs' & Ho & Hk & Hc); [lia | lia |].
    destruct (tick_sole_waits horizon (advance n w) t Hs') as (Hs2 & Ho2 & Hk2 & Hc2);
      [lia | lia |].
    rewrite advance_S, Ho2, Hc2, Ho, Hc. split_and!; try done.
    + by apply (kept_trans _ (advance n w)).
    + lia.
Qed.

(** Time passes beyond the moment [t] is due, but not as far as a second
    firing of [t]: its callback has run once, in a world that observes as
    [w] did, at the time [t] was due. *)
Lemma advance_sole_fires horizon n : ∀ w t,
  sole kind horizon w t → clock w < due t → due t ≤ clock w + N.of_nat n →
  clock w + N.of_nat n ≤ horizon →
  (∀ p, period t = Some p → clock w + N.of_nat n < due t + p) →
  (∃ w1, kept w w1 ∧ clock w1 = due t ∧ obs w1 = obs w
         ∧ obs (advance n w) = obs (dispatch (run_callback (cb t)) w1))
  ∧ kept w (advance n w) ∧ clock (advance n w) = clock w + N.of_nat n
  ∧ match period t with
    | None => none_due kind horizon (advance n w)
              ∧ ∀ s, s ∈ timers (advance n w) → tid s ≠ tid t
    | Some p => sole kind horizon (advance n w) (again t p)
    end.
Proof.
  induction n as [| n IH]; intros w t Hs Hlt Hd Hh Hper; [lia |].
  rewrite advance_S.
  destruct (decide (due t ≤ clock w + N.of_nat n)) as [Hfired | Hnot].
  - destruct (IH w t Hs Hlt Hfired) as ((w1 & Hk1 & Hc1 & Ho1 & Hobs) & Hk & Hc & Hafter);
      [lia | intros p Hp; specialize (Hper p Hp); lia |].
    destruct (period t) as [p |] eqn:Ep.
    + destruct (tick_sole_waits horizon (advance n w) (again t p) Hafter)
        as (Hs2 & Ho2 & Hk2 & Hc2).
      { rewrite Hc. cbn [again due]. specialize (Hper p eq_refl). lia. }
      { lia. }
      rewrite Ho2, Hc2, Hc. split_and!; try done.
      * by exists w1.
      * by apply (kept_trans _ (advance n w)).
      * lia.
    + destruct Hafter as [Hq Hgone].
      destruct (tick_none horizon (advance n w) Hq) as (Hq2 & Ho2 & Hk2 & Hc2 & Hg2);
        [lia |].
      rewrite Ho2, Hc2, Hc. split_and!; try done.
      * by exists w1.
      * by apply (kept_trans _ (advance n w)).
      * lia.
      * intros s Hin. destruct (Hg2 s Hin) as (s0 & Hs0 & <- & _). by apply Hgone.
  - destruct (advance_sole_waits horizon n w t Hs) as (Hs' & Ho & Hk & Hc); [lia | lia |].
    destruct (tick_sole_fires horizon (advance n w) t Hs')
      as ((w1 & Hk1 & Hc1 & Ho1 & Hobs) & Hk2 & Hc2 & Hafter); [lia | lia |].
    rewrite Hc2, Hc. split_and!; try done.
    + exists w1. split_and!; try done.
      * by apply (kept_trans _ (advance n w)).
      * lia.
      * by rewrite Ho1.
    + by apply (kept_trans _ (advance n w)).
    + lia.
Qed.

(** Whatever time passes up to the horizon, there is still at most one
    timer of [kind] to fire before the horizon, with the id it had. *)
Lemma advance_either horizon i n : ∀ w,
  (none_due kind horizon w ∨ ∃ t, sole kind horizon w t ∧ tid t = i) →
  clock w + N.of_nat n ≤ horizon →
  (none_due kind horizon (advance n w)
   ∨ ∃ t, sole kind horizon (advance n w) t ∧ tid t = i)
  ∧ kept w (advance n w) ∧ clock (advance n w) = clock w + N.of_nat n.
Proof.
  induction n as [| n IH]; intros w Hcase Hh.
  - cbn [advance Nat.iter nat_rect]. split_and!; try done. lia.
  - destruct (IH w Hcase) as (Hcase' & Hk & Hc); [lia |].
    rewrite advance_S.
    destruct Hcase' as [Hq | (t & Hs & Hid)].
    + destruct (tick_none horizon (advance n w) Hq) as (Hq2 & _ & Hk2 & Hc2 & _); [lia |].
      rewrite Hc2, Hc. split_and!; [by left | by apply (kept_trans _ (advance n w)) | lia].
    + destruct (decide (due t ≤ clock (advance n w) + 1)) as [Hdue | Hnot].
      * destruct (tick_sole_fires horizon (advance n w) t Hs Hdue)
          as (_ & Hk2 & Hc2 & Hafter); [lia |].
        rewrite Hc2, Hc.
        split_and!; [| by apply (kept_trans _ (advance n w)) | lia].
        destruct (period t) as [p |]; [right; by exists (again t p) | left; by destruct Hafter].
      * destruct (tick_sole_waits horizon (advance n w) t Hs) as (Hs2 & _ & Hk2 & Hc2);
          [lia | lia |].
        rewrite Hc2, Hc.
        split_and!; [right; by exists t | by apply (kept_trans _ (advance n w)) | lia].
Qed.

End one_kind.

(** *** The status message *)

Lemma statusMessage_other `{Runtime} f w :
  is_hide f = false → statusMessage (dispatch (run_callback f) w) = statusMessage w.
Proof.
  intros Hf. destruct (run_callback_kept f w) as (_ & _ & _ & Hs & _).
  cbn zeta in Hs. by rewrite Hs, Hf.
Qed.

Lemma showStatus_timer m type w st :
  well_formed w → statusMessage w = Some st →
  let w' := (showStatus m type w).2 in
  statusMessage w' = Some {| status_text := m; status_class := type;
                             status_visible := true |}
  ∧ clock w' = clock w ∧ well_formed w'
  ∧ hide_timer (next_timer w) (clock w + 3000) ∈ timers w'
  ∧ ∀ s, s ∈ timers w' → s ∈ timers w ∨ s = hide_timer (next_timer w) (clock w + 3000).
Proof.
  intros Hwf Hst. rewrite showStatus_spec, Hst. cbn zeta. world_simpl.
  split_and!; try done.
  - unfold well_formed. world_simpl. by apply fresh_ids_snoc.
  - apply elem_of_app. right. by apply list_elem_of_singleton.
  - intros s Hs. apply elem_of_app in Hs as [? | Hs]; [by left |].
    right. by apply list_elem_of_singleton in Hs.
Qed.

(** X7. A status message is shown for three seconds: when no older message
    is waiting to be hidden, the message of [showStatus] is visible at
    every moment before 3000 ms have passed and hidden at every moment from
    then on; its text and class stay. *)
Theorem showStatus_shows_for_three_seconds `{Runtime}
    (m : message) (type : string) (w : World) (st : Status) (n : nat) :
  well_formed w →
  statusMessage w = Some st →
  forallb (λ s, negb (is_hide (cb s))) (timers w) = true →
  statusMessage (advance n (showStatus m type w).2)
  = Some {| status_text := m; status_class := type;
            status_visible := bool_decide (n < 3000)%nat |}.
Proof.
  intros Hwf Hst Hnone.
  assert (Hno : ∀ s, s ∈ timers w → is_hide (cb s) = false).
  { intros s Hs. rewrite forallb_forall in Hnone.
    apply negb_true_iff, Hnone. by apply list_elem_of_In. }
  set (horizon := clock w + N.of_nat n).
  destruct (showStatus_timer m type w st Hwf Hst) as (Hs1 & Hc1 & Hwf1 & Hin1 & Hfrom1).
  cbn zeta in *. set (w1 := (showStatus m type w).2) in *.
  set (t := hide_timer (next_timer w) (clock w + 3000)) in *.
  assert (Hsole : sole is_hide horizon w1 t).
  { split_and!; try done. intros s Hs Hk.
    destruct (Hfrom1 s Hs) as [Hs0 | ->]; [| by left].
    rewrite Hno in Hk; done. }
  destruct (Nat.lt_ge_cases n 3000) as [Hlt | Hge].
  - rewrite bool_decide_eq_true_2 by done.
    destruct (advance_sole_waits is_hide statusMessage statusMessage_other
                ltac:(done) ltac:(done) horizon n w1 t Hsole) as (_ & -> & _);
      [subst t; cbn [hide_timer due]; lia | unfold horizon; lia | done].
  - rewrite bool_decide_eq_false_2 by lia.
    destruct (advance_sole_fires is_hide statusMessage statusMessage_other
                ltac:(done) ltac:(done) horizon n w1 t Hsole)
      as ((w2 & _ & _ & Ho & ->) & _);
      [subst t; cbn [hide_timer due]; lia | subst t; cbn [hide_timer due]; lia
      | unfold horizon; lia | done |].
    destruct (run_callback_kept (cb t) w2) as (_ & _ & _ & -> & _).
    subst t. cbn [hide_timer cb is_hide]. by rewrite Ho, Hs1.
Qed.

Lemma showStatus_shows_for_three_seconds_witness :
  statusMessage (@advance plain_runtime 2999
                   (showStatus (Msg "Content cleared") "success" (fresh open_storage)).2)
  = Some {| status_text := Msg "Content cleared"; status_class := "success";
            status_visible := bool_decide (2999 < 3000)%nat |}
  ∧ statusMessage (@advance plain_runtime 3000
                     (showStatus (Msg "Content cleared") "success" (fresh open_storage)).2)
    = Some {| status_text := Msg "Content cleared"; status_class := "success";
              status_visible := bool_decide (3000 < 3000)%nat |}.
Proof.
  split; eapply (@showStatus_shows_for_three_seconds plain_runtime);
    first [reflexivity | split; constructor].
Defined.

(** X8. An older message's timer hides a newer message early: when a
    second message is shown [g] ms after a first one, [0 < g < 3000], it is
    hidden [3000 - g] ms later, when the timer of the first message fires,
    not three seconds after it was shown. *)
Theorem showStatus_second_message_hidden_early `{Runtime}
    (m1 m2 : message) (type1 type2 : string) (w : World) (st : Status) (g : nat) :
  well_formed w →
  statusMessage w = Some st →
  forallb (λ s, negb (is_hide (cb s))) (timers w) = true →
  (0 < g < 3000)%nat →
  let w1 := advance g (showStatus m1 type1 w).2 in
  let w2 := (showStatus m2 type2 w1).2 in
  statusMessage w2 = Some {| status_text := m2; status_class := type2;
                             status_visible := true |}
  ∧ statusMessage (advance (3000 - g) w2)
    = Some {| status_text := m2; status_class := type2; status_visible := false |}.
Proof.
  intros Hwf Hst Hnone Hg.
  assert (Hno : ∀ s, s ∈ timers w → is_hide (cb s) = false).
  { intros s Hs. rewrite forallb_forall in Hnone.
    apply negb_true_iff, Hnone. by apply list_elem_of_In. }
  set (horizon := clock w + 3000).
  destruct (showStatus_timer m1 type1 w st Hwf Hst) as (Hs0 & Hc0 & Hwf0 & Hin0 & Hfrom0).
  cbn zeta in Hs0, Hc0, Hwf0, Hin0, Hfrom0.
  set (w0 := (showStatus m1 type1 w).2) in *.
  set (t := hide_timer (next_timer w) (clock w + 3000)) in *.
  assert (Hsole0 : sole is_hide horizon w0 t).
  { split_and!; try done. intros s Hs Hk.
    destruct (Hfrom0 s Hs) as [Hs' | ->]; [| by left].
    rewrite Hno in Hk; done. }
  destruct (advance_sole_waits is_hide statusMessage statusMessage_other
              ltac:(done) ltac:(done) horizon g w0 t Hsole0)
    as (Hsole1 & Ho1 & Hk1 & Hc1);
    [subst t; cbn [hide_timer due]; lia | unfold horizon; lia |].
  intros w1 w2. fold w1 in Hsole1, Ho1, Hk1, Hc1.
  destruct Hsole1 as (Hwf1 & Hin1 & Hothers1).
  destruct (showStatus_timer m2 type2 w1 {| status_text := m1; status_class := type1;
                                            status_visible := true |} Hwf1)
    as (Hs2 & Hc2 & Hwf2 & Hin2 & Hfrom2).
  { by rewrite Ho1. }
  cbn zeta in Hs2, Hc2, Hwf2, Hin2, Hfrom2. fold w2 in Hs2, Hc2, Hwf2, Hin2, Hfrom2.
  split; [done |].
  assert (Hsole2 : sole is_hide horizon w2 t).
  { split_and!; [done | |].
    - unfold w2. rewrite showStatus_spec, Ho1, Hs0. world_simpl.
      apply elem_of_app. by left.
    - intros s Hs Hk. destruct (Hfrom2 s Hs) as [Hs' | ->]; [by apply Hothers1 |].
      right. cbn [hide_timer due]. unfold horizon. lia. }
  destruct (advance_sole_fires is_hide statusMessage statusMessage_other
              ltac:(done) ltac:(done) horizon (3000 - g) w2 t Hsole2)
    as ((w3 & _ & _ & Ho3 & ->) & _);
    [subst t; cbn [hide_timer due]; lia | subst t; cbn [hide_timer due]; lia
    | unfold horizon; lia | done |].
  destruct (run_callback_kept (cb t) w3) as (_ & _ & _ & -> & _).
  subst t. cbn [hide_timer cb is_hide]. by rewrite Ho3, Hs2.
Qed.

Lemma showStatus_second_message_hidden_early_witness :
  let w1 := @advance plain_runtime 2500
              (showStatus (Msg "Content saved successfully!") "success"
                 (fresh open_storage)).2 in
  let w2 := (showStatus (Msg "Nothing to copy") "info" w1).2 in
  statusMessage w2 = Some {| status_text := Msg "Nothing to copy"; status_class := "info";
                             status_visible := true |}
  ∧ statusMessage (@advance plain_runtime (3000 - 2500) w2)
    = Some {| status_text := Msg "Nothing to copy"; status_class := "info";
              status_visible := false |}.
Proof.
  eapply (@showStatus_second_message_hidden_early plain_runtime);
    first [reflexivity | lia | split; constructor].
Defined.

(** *** The typing indicator *)

Lemma isTyping_other `{Runtime} f w :
  is_typing_off f = false → isTyping (dispatch (run_callback f) w) = isTyping w.
Proof.
  intros Hf. destruct (run_callback_kept f w) as (_ & _ & _ & _ & Hs).
  cbn zeta in Hs. by rewrite Hs, Hf.
Qed.

Lemma typing_app `{Runtime} keys more : ∀ w,
  typing (keys ++ more) w = typing more (typing keys w).
Proof. induction keys as [| [gap c] keys IH]; intros w; [done |]. simpl. apply IH. Qed.

Lemma duration_app keys more :
  duration (keys ++ more) = (duration keys + duration more)%nat.
Proof. induction keys as [| k keys IH]; [done |]. cbn [app duration foldr]. fold (duration (keys ++ more)). fold (duration keys). lia. Qed.

Lemma known_lt id w i : known id w = true → id = Some i → (i < next_timer w)%nat.
Proof. intros Hk ->. by apply bool_decide_eq_true in Hk. Qed.

(** An edit turns the indicator on and leaves one timer to turn it off,
    one second ahead: the one that was pending has been cleared. *)
Lemma input_typing `{Runtime} horizon c w :
  typing_tracked horizon w → known (autoSaveTimer w) w = true →
  sole is_typing_off horizon (input c w) (typing_timer (next_timer w) (clock w + 1000))
  ∧ typingTimer (input c w) = Some (next_timer w)
  ∧ isTyping (input c w) = true ∧ clock (input c w) = clock w
  ∧ known (autoSaveTimer (input c w)) (input c w) = true.
Proof.
  intros Htr Hknown.
  assert (Hwf : well_formed w) by (destruct Htr as [[? _] | (? & (? & _) & _)]; done).
  rewrite input_spec, handleTextInput_spec. cbn zeta. world_simpl.
  split_and!; try done.
  - split_and!.
    + unfold well_formed. world_simpl.
      apply fresh_ids_snoc; [| done]. apply fresh_ids_cleared.
      apply fresh_ids_snoc; [| done]. by apply fresh_ids_cleared.
    + world_simpl. apply elem_of_app. left. apply cleared_elem. split.
      * apply elem_of_app. right. by apply list_elem_of_singleton.
      * intros i Hi. pose proof (known_lt _ _ i Hknown Hi).
        cbn [typing_timer tid]. lia.
    + world_simpl. intros s Hs Hk.
      apply elem_of_app in Hs as [Hs | Hs];
        [| apply list_elem_of_singleton in Hs; by subst].
      apply cleared_elem in Hs as [Hs _].
      apply elem_of_app in Hs as [Hs | Hs];
        [| left; by apply list_elem_of_singleton in Hs].
      apply cleared_elem in Hs as [Hs Hne]. right.
      destruct Htr as [[_ Hq] | (t & (_ & _ & Hothers) & Hid)]; [by apply Hq |].
      destruct (Hothers s Hs Hk) as [-> | ?]; [| done].
      exfalso. by apply (Hne (tid t)).
  - apply bool_decide_eq_true. world_simpl. lia.
Qed.

Lemma advance_typing_tracked `{Runtime} horizon n w :
  typing_tracked horizon w → known (autoSaveTimer w) w = true →
  clock w + N.of_nat n ≤ horizon →
  typing_tracked horizon (advance n w)
  ∧ known (autoSaveTimer (advance n w)) (advance n w) = true
  ∧ clock (advance n w) = clock w + N.of_nat n.
Proof.
  intros Htr Hknown Hh.
  assert (Hrest : ∀ w', kept w w' → known (autoSaveTimer w') w' = true).
  { intros w' Hk. unfold known in *.
    by rewrite (kept_autoSaveTimer _ _ Hk), (kept_next_timer _ _ Hk). }
  destruct Htr as [Hq | (t0 & Hs0 & Hid0)].
  - destruct (advance_none is_typing_off isTyping isTyping_other
                ltac:(done) ltac:(done) horizon n w Hq Hh) as (Hq' & _ & Hk & Hc & _).
    split_and!; [by left | by apply Hrest | done].
  - destruct (advance_either is_typing_off isTyping isTyping_other
                ltac:(done) ltac:(done) horizon (tid t0) n w) as (Hcase & Hk & Hc);
      [right; by exists t0 | done |].
    split_and!; [| by apply Hrest | done].
    destruct Hcase as [? | (t & Hs & Hid)]; [by left |].
    right. exists t. split; [done |].
    by rewrite (kept_typingTimer _ _ Hk), Hid0, Hid.
Qed.

Lemma typing_typing_tracked `{Runtime} horizon keys : ∀ w,
  typing_tracked horizon w → known (autoSaveTimer w) w = true →
  clock w + N.of_nat (duration keys) ≤ horizon →
  typing_tracked horizon (typing keys w)
  ∧ known (autoSaveTimer (typing keys w)) (typing keys w) = true
  ∧ clock (typing keys w) = clock w + N.of_nat (duration keys).
Proof.
  induction keys as [| [gap c] keys IH]; intros w Htr Hknown Hh.
  - cbn [typing duration foldr]. split_and!; try done. lia.
  - cbn [duration foldr fst] in Hh. fold (duration keys) in Hh.
    destruct (advance_typing_tracked horizon gap w Htr Hknown) as (Htr1 & Hknown1 & Hc1);
      [lia |].
    destruct (input_typing horizon c (advance gap w) Htr1 Hknown1)
      as (Hs2 & Hid2 & _ & Hc2 & Hknown2).
    destruct (IH (input c (advance gap w))) as (Htr3 & Hknown3 & Hc3).
    + right. eexists. split; [exact Hs2 |]. by rewrite Hid2.
    + done.
    + rewrite Hc2, Hc1. lia.
    + cbn [typing duration foldr fst]. fold (duration keys).
      split_and!; try done. rewrite Hc3, Hc2, Hc1. lia.
Qed.

(** X9. The typing indicator follows the last edit: after any burst of
    edits, however they are spaced, [isTyping] is true at every moment
    before 1000 ms have passed since the last edit, and false at every
    moment from then on: each edit clears the timer of the one before. *)
Theorem typing_indicator_follows_last_edit `{Runtime}
    (keys : list (nat * jsstring)) (gap : nat) (c : jsstring) (w : World) (n : nat) :
  well_formed w →
  forallb (λ s, negb (is_typing_off (cb s))) (timers w) = true →
  known (autoSaveTimer w) w = true →
  isTyping (advance n (typing (keys ++ [(gap, c)]) w)) = bool_decide (n < 1000)%nat.
Proof.
  intros Hwf Hnone Hknown.
  set (horizon := clock w + N.of_nat (duration keys) + N.of_nat gap + N.of_nat n).
  assert (Htr : typing_tracked horizon w).
  { left. split; [done |]. intros s Hs Hk. rewrite forallb_forall in Hnone.
    apply list_elem_of_In, Hnone in Hs. by rewrite Hk in Hs. }
  destruct (typing_typing_tracked horizon keys w Htr Hknown) as (Htr1 & Hknown1 & Hc1);
    [unfold horizon; lia |].
  rewrite typing_app. cbn [typing].
  set (w1 := typing keys w) in *.
  destruct (advance_typing_tracked horizon gap w1 Htr1 Hknown1) as (Htr2 & Hknown2 & Hc2);
    [unfold horizon; lia |].
  destruct (input_typing horizon c (advance gap w1) Htr2 Hknown2)
    as (Hs3 & _ & Hon & Hc3 & _).
  set (w3 := input c (advance gap w1)) in *.
  set (t := typing_timer (next_timer (advance gap w1)) (clock (advance gap w1) + 1000)) in *.
  destruct (Nat.lt_ge_cases n 1000) as [Hlt | Hge].
  - rewrite bool_decide_eq_true_2 by done.
    destruct (advance_sole_waits is_typing_off isTyping isTyping_other
                ltac:(done) ltac:(done) horizon n w3 t Hs3) as (_ & -> & _);
      [subst t; cbn [typing_timer due]; lia | unfold horizon; lia | done].
  - rewrite bool_decide_eq_false_2 by lia.
    destruct (advance_sole_fires is_typing_off isTyping isTyping_other
                ltac:(done) ltac:(done) horizon n w3 t Hs3)
      as ((w4 & _ & _ & _ & ->) & _);
      [subst t; cbn [typing_timer due]; lia | subst t; cbn [typing_timer due]; lia
      | unfold horizon; lia | done |].
    by destruct (run_callback_kept (cb t) w4) as (_ & _ & _ & _ & ->).
Qed.

Lemma typing_indicator_follows_last_edit_witness :
  isTyping (@advance plain_runtime 999
              (@typing plain_runtime ([(100%nat, str "a"); (1500%nat, str "ab")]
                                      ++ [(400%nat, str "abc")]) (fresh open_storage)))
  = bool_decide (999 < 1000)%nat
  ∧ isTyping (@advance plain_runtime 1000
                (@typing plain_runtime ([(100%nat, str "a"); (1500%nat, str "ab")]
                                        ++ [(400%nat, str "abc")]) (fresh open_storage)))
    = bool_decide (1000 < 1000)%nat.
Proof.
  split; apply (@typing_indicator_follows_last_edit plain_runtime);
    first [reflexivity | split; constructor].
Defined.

(** *** Timers in general *)

(** Every timer that is pending after some time was pending before, or is
    a later round of an interval that was. *)
Lemma advance_origin `{Runtime} n w :
  well_formed w →
  ∀ s, s ∈ timers (advance n w) →
       ∃ s0, s0 ∈ timers w ∧ tid s0 = tid s ∧ cb s0 = cb s ∧ due s0 ≤ due s.
Proof.
  intros Hwf.
  destruct (advance_none (λ _, false) (λ _, tt) ltac:(done) ltac:(done) ltac:(done)
              (clock w + N.of_nat n) n w) as (_ & _ & _ & _ & Horig); [| lia | done].
  split; [done |]. intros s _ Hk. done.
Qed.

(** A timer that is not due yet is still pending. *)
Lemma advance_keeps `{Runtime} n w s :
  well_formed w → s ∈ timers w → clock w + N.of_nat n < due s →
  s ∈ timers (advance n w) ∧ well_formed (advance n w).
Proof.
  intros Hwf Hs Hdue.
  destruct (advance_sole_waits (λ _, false) (λ _, tt) ltac:(done) ltac:(done) ltac:(done)
              (clock w + N.of_nat n) n w s) as ((? & ? & _) & _); [| done | lia | done].
  split_and!; try done.
Qed.

(** *** The saves of paste and of the interval *)

Lemma writes_other `{Runtime} f w :
  is_save f = false → writes (log (dispatch (run_callback f) w)) = writes (log w).
Proof.
  intros Hf. destruct (run_callback_frame f w) as (_ & _ & _ & _ & _ & _ & Hns & _).
  destruct (Hns Hf) as [_ Hl]. by rewrite Hl.
Qed.

Lemma run_callback_writes `{Runtime} f w :
  writes (log (dispatch (run_callback f) w)) = writes (log w) ++ save_writes f w.
Proof.
  destruct f; cbn [save_writes].
  - rewrite writes_other by done. by rewrite app_nil_r.
  - by destruct (run_callback_frame CbAutoSave w) as (_ & _ & _ & _ & _ & _ & _ & ->).
  - unfold dispatch, run_callback. unfold_js. rewrite updateStats_spec. cbn beta iota.
    pose proof (saveToLocalStorage_writes (set_log (log w ++ counter_events w) w)) as Hw.
    destruct (saveToLocalStorage (set_log (log w ++ counter_events w) w)) as [[[] | e] w'] eqn:E;
      cbn [snd] in Hw; [| by pose proof (f_equal fst (saveToLocalStorage_spec
                                            (set_log (log w ++ counter_events w) w))) as Hn;
                          rewrite E in Hn].
    rewrite Hw. world_simpl. rewrite writes_app, (proj2 (counter_events_silent _)).
    rewrite app_nil_r. done.
  - unfold dispatch, run_callback. unfold_js. cbn beta iota.
    destruct (decide (trim (value w) = [])); [by rewrite app_nil_r |].
    pose proof (saveToLocalStorage_writes w) as Hw.
    destruct (saveToLocalStorage w) as [[[] | e] w'] eqn:E;
      cbn [snd] in Hw; [done |].
    pose proof (f_equal fst (saveToLocalStorage_spec w)) as Hn. by rewrite E in Hn.
  - rewrite writes_other by done. by rewrite app_nil_r.
Qed.

Lemma quiet_none_due horizon w : quiet horizon w ↔ none_due is_save horizon w.
Proof.
  unfold quiet, none_due. split; intros [Hwf Hq]; (split; [done |]).
  - intros s Hs Hk. apply Hq. by apply pending_saves_elem.
  - intros s Hs. apply pending_saves_elem in Hs as [? ?]. by apply Hq.
Qed.

Lemma handlePaste_spec w :
  handlePaste w
  = (Normal tt,
     set_next_timer (S (next_timer w))
       (set_timers (timers w ++ [paste_timer (next_timer w) (clock w + 10)]) w)).
Proof. reflexivity. Qed.

Lemma startAutoSave_spec w :
  startAutoSave w
  = (Normal tt,
     set_autoSaveInterval (Some (next_timer w))
       (set_next_timer (S (next_timer w))
          (set_timers (timers w ++ [interval_timer (next_timer w) (clock w + 30000)]) w))).
Proof. reflexivity. Qed.

(** The page right after a paste: [handlePaste] has run, the browser has
    inserted the text, and the [input] event has run [handleTextInput]. *)
Lemma paste_then_input `{Runtime} c w :
  quiet (clock w + 2000) w →
  known (typingTimer w) w = true → known (autoSaveTimer w) w = true →
  let w1 := input c (dispatch handlePaste w) in
  well_formed w1 ∧ value w1 = c ∧ clock w1 = clock w
  ∧ enabled (storage w1) = enabled (storage w)
  ∧ writes (log w1) = writes (log w)
  ∧ paste_timer (next_timer w) (clock w + 10) ∈ timers w1
  ∧ save_timer (S (S (next_timer w))) (clock w + 2000) ∈ timers w1
  ∧ ∀ s, s ∈ timers w1 → is_save (cb s) = true →
         s = paste_timer (next_timer w) (clock w + 10)
         ∨ s = save_timer (S (S (next_timer w))) (clock w + 2000)
         ∨ clock w + 2000 < due s.
Proof.
  intros [Hwf Hq] Hkt Hka. cbn zeta.
  unfold dispatch. rewrite handlePaste_spec.
  rewrite input_spec, handleTextInput_spec. cbn zeta. world_simpl.
  split_and!; try done.
  - unfold well_formed. world_simpl.
    apply fresh_ids_snoc; [| done]. apply fresh_ids_cleared.
    apply fresh_ids_snoc; [| done]. apply fresh_ids_cleared.
    by apply fresh_ids_snoc.
  - rewrite writes_app, (proj2 (counter_events_silent _)). by rewrite app_nil_r.
  - apply elem_of_app. left. apply cleared_elem. split.
    + apply elem_of_app. left. apply cleared_elem. split.
      * apply elem_of_app. right. by apply list_elem_of_singleton.
      * intros i Hi. pose proof (known_lt _ _ i Hkt Hi). cbn [paste_timer tid]. lia.
    + intros i Hi. pose proof (known_lt _ _ i Hka Hi). cbn [paste_timer tid]. lia.
  - apply elem_of_app. right. by apply list_elem_of_singleton.
  - intros s Hs Hk.
    apply elem_of_app in Hs as [Hs | Hs];
      [| right; left; by apply list_elem_of_singleton in Hs].
    apply cleared_elem in Hs as [Hs _].
    apply elem_of_app in Hs as [Hs | Hs];
      [| apply list_elem_of_singleton in Hs; by subst].
    apply cleared_elem in Hs as [Hs _].
    apply elem_of_app in Hs as [Hs | Hs];
      [| left; by apply list_elem_of_singleton in Hs].
    right. right. apply Hq. by apply pending_saves_elem.
Qed.

(** X10. A paste is saved twice.  [handlePaste] runs before the browser
    inserts the text, so it defers its save by 10 ms; the [input] event of
    the insertion schedules the debounced save as well.  With a store that
    is enabled and no other save pending: nothing is written for 10 ms;
    then the pasted text is written, stamped 10 ms after the paste; and 2
    seconds after the paste the same text is written once more. *)
Theorem handlePaste_saves_after_10ms `{Runtime} (c : jsstring) (w : World) :
  quiet (clock w + 2000) w →
  known (typingTimer w) w = true →
  known (autoSaveTimer w) w = true →
  enabled (storage w) = true →
  let w1 := input c (dispatch handlePaste w) in
  (∀ n, (n < 10)%nat → writes (log (advance n w1)) = writes (log w))
  ∧ (∀ n, (10 ≤ n < 2000)%nat →
          writes (log (advance n w1)) = writes (log w) ++ [record_at c (clock w + 10)])
  ∧ writes (log (advance 2000 w1))
    = writes (log w) ++ [record_at c (clock w + 10); record_at c (clock w + 2000)].
Proof.
  intros Hq Hkt Hka Hen.
  destruct (paste_then_input c w Hq Hkt Hka)
    as (Hwf1 & Hv1 & Hc1 & Hen1 & Hw1 & Hpaste & Hsave & Hsaves).
  cbn zeta in *. set (w1 := input c (dispatch handlePaste w)) in *.
  set (tp := paste_timer (next_timer w) (clock w + 10)) in *.
  set (ts := save_timer (S (S (next_timer w))) (clock w + 2000)) in *.
  set (obs := λ x : World, writes (log x)).
  assert (Hsole : sole is_save (clock w + 1999) w1 tp).
  { split_and!; try done. intros s Hs Hk.
    destruct (Hsaves s Hs Hk) as [-> | [-> | ?]]; [by left | right | right; lia].
    cbn [ts save_timer due]. lia. }
  assert (Hfired : ∀ n, (10 ≤ n < 2000)%nat →
            writes (log (advance n w1)) = writes (log w) ++ [record_at c (clock w + 10)]
            ∧ kept w1 (advance n w1) ∧ clock (advance n w1) = clock w + N.of_nat n
            ∧ ∀ s, s ∈ timers (advance n w1) → tid s ≠ tid tp).
  { intros n Hn.
    destruct (advance_sole_fires is_save obs writes_other ltac:(done) ltac:(done)
                (clock w + 1999) n w1 tp Hsole)
      as ((w2 & Hk2 & Hc2 & Ho2 & Hobs) & Hk & Hc & _ & Hgone);
      [cbn [tp paste_timer due]; lia | cbn [tp paste_timer due]; lia | lia | done |].
    split_and!; try done; [| lia].
    unfold obs in Hobs, Ho2. rewrite Hobs, run_callback_writes, Ho2, Hw1.
    cbn [tp paste_timer cb save_writes].
    rewrite (kept_enabled _ _ Hk2), Hen1, Hen. unfold record_text, record_at.
    by rewrite (kept_value _ _ Hk2), Hv1, Hc2. }
  split_and!.
  - intros n Hn.
    destruct (advance_sole_waits is_save obs writes_other ltac:(done) ltac:(done)
                (clock w + 1999) n w1 tp Hsole) as (_ & Ho & _);
      [cbn [tp paste_timer due]; lia | lia |].
    unfold obs in Ho. by rewrite Ho.
  - intros n Hn. by destruct (Hfired n Hn).
  - assert (Hlast : ∀ k, (1999 ≤ k < 2000)%nat →
              writes (log (tick (advance k w1)))
              = writes (log w) ++ [record_at c (clock w + 10); record_at c (clock w + 2000)]).
    2:{ rewrite (advance_S 1999 w1). apply Hlast. split; [apply le_n | apply (le_n 2000)]. }
    intros k Ek.
    destruct (Hfired k) as (Hw2 & Hk2 & Hc2 & Hgone2); [lia |].
    destruct (advance_keeps k w1 ts Hwf1 Hsave) as [Hin2 Hwf2];
      [change (due ts) with (clock w + 2000); lia |].
    assert (Horig : ∀ s, s ∈ timers (advance k w1) →
              ∃ s0, s0 ∈ timers w1 ∧ tid s0 = tid s ∧ cb s0 = cb s ∧ due s0 ≤ due s)
      by (by apply advance_origin).
    set (w2 := advance k w1) in *.
    assert (Hsole2 : sole is_save (clock w + 2000) w2 ts).
    { split_and!; try done. intros s Hs Hk.
      destruct (Horig s Hs) as (s0 & Hs0 & Hid & Hcb & Hdue).
      rewrite <- Hcb in Hk.
      destruct (Hsaves s0 Hs0 Hk) as [-> | [-> | ?]].
      - exfalso. by apply (Hgone2 s Hs).
      - left. by apply (fresh_ids_same _ _ _ _ Hwf2).
      - right. lia. }
    destruct (tick_sole_fires is_save obs writes_other ltac:(done) ltac:(done)
                (clock w + 2000) w2 ts Hsole2)
      as ((w3 & Hk3 & Hc3 & Ho3 & Hobs) & _);
      [change (due ts) with (clock w + 2000); lia | lia |].
    unfold obs in Hobs, Ho3. rewrite Hobs, run_callback_writes, Ho3, Hw2.
    change (cb ts) with CbAutoSave. cbn [save_writes].
    rewrite (kept_enabled _ _ Hk3), (kept_enabled _ _ Hk2), Hen1, Hen.
    unfold record_text, record_at.
    rewrite (kept_value _ _ Hk3), (kept_value _ _ Hk2), Hv1, Hc3, Hc2.
    rewrite <- app_assoc. cbn [app].
    by replace (clock w + N.of_nat k + 1) with (clock w + 2000) by lia.
Qed.

Lemma handlePaste_saves_after_10ms_witness :
  let w := fresh open_storage in
  let c := str "pasted text" in
  let w1 := @input plain_runtime c (dispatch handlePaste w) in
  (∀ n, (n < 10)%nat → writes (log (@advance plain_runtime n w1)) = writes (log w))
  ∧ (∀ n, (10 ≤ n < 2000)%nat →
          writes (log (@advance plain_runtime n w1))
          = writes (log w) ++ [@record_at plain_runtime c (clock w + 10)])
  ∧ writes (log (@advance plain_runtime 2000 w1))
    = writes (log w) ++ [@record_at plain_runtime c (clock w + 10);
                         @record_at plain_runtime c (clock w + 2000)].
Proof.
  intros w c w1.
  apply (@handlePaste_saves_after_10ms plain_runtime c w).
  - split; [split; constructor |]. intros t Ht. by apply elem_of_nil in Ht.
  - reflexivity.
  - reflexivity.
  - reflexivity.
Defined.

Lemma advance_add `{Runtime} a b w : advance (a + b) w = advance a (advance b w).
Proof. unfold advance. apply Nat.iter_add. Qed.

Lemma interval_records_S `{Runtime} content t0 m :
  interval_records content t0 (S m)
  = (if decide (trim content = []) then [] else [record_at content (t0 + 30000)])
    ++ interval_records content (t0 + 30000) m.
Proof.
  unfold interval_records. destruct (decide (trim content = [])); [done |].
  rewrite <- cons_seq, fmap_cons. cbn [app].
  replace (t0 + 30000 * N.of_nat 1) with (t0 + 30000) by lia. f_equal.
  rewrite <- fmap_S_seq, <- list_fmap_compose.
  apply list_fmap_ext. intros _ i _. cbn. f_equal. lia.
Qed.

(** The interval through [m] rounds and part of the next. *)
Lemma interval_rounds `{Runtime} horizon m : ∀ w t n,
  sole is_save horizon w t → cb t = CbIntervalSave → period t = Some 30000 →
  due t = clock w + 30000 → enabled (storage w) = true →
  30000 * N.of_nat m ≤ N.of_nat n < 30000 * (N.of_nat m + 1) →
  clock w + N.of_nat n ≤ horizon →
  writes (log (advance n w))
  = writes (log w) ++ interval_records (value w) (clock w) m.
Proof.
  set (obs := λ x : World, writes (log x)).
  induction m as [| m IH]; intros w t n Hsole Hcb Hper Hdue Hen Hn Hh.
  - destruct (advance_sole_waits is_save obs writes_other ltac:(done) ltac:(done)
                horizon n w t Hsole) as (_ & Ho & _); [lia | lia |].
    unfold obs in Ho. rewrite Ho. unfold interval_records.
    destruct (decide _); by rewrite app_nil_r.
  - assert (Ha : ∃ a, N.of_nat a = 30000) by (exists (N.to_nat 30000); apply N2Nat.id).
    destruct Ha as [a Ha].
    replace n with ((n - a) + a)%nat by lia.
    rewrite advance_add.
    destruct (advance_sole_fires is_save obs writes_other ltac:(done) ltac:(done)
                horizon a w t Hsole)
      as ((w1 & Hk1 & Hc1 & Ho1 & Hobs) & Hk & Hc & Hafter); [lia | lia | lia | |].
    { intros p Hp. rewrite Hper in Hp. injection Hp as <-. lia. }
    rewrite Hper in Hafter.
    rewrite (IH (advance a w) (again t 30000) (n - a)%nat Hafter Hcb eq_refl).
    + unfold obs in Hobs, Ho1.
      rewrite Hobs, run_callback_writes, Ho1, Hcb. cbn [save_writes].
      rewrite (kept_enabled _ _ Hk1), Hen, (kept_value _ _ Hk1), (kept_value _ _ Hk), Hc.
      rewrite interval_records_S, <- app_assoc. f_equal.
      replace (clock w + N.of_nat a) with (clock w + 30000) by lia.
      f_equal. destruct (decide (trim (value w) = [])); [done |].
      unfold record_text, record_at. by rewrite (kept_value _ _ Hk1), Hc1, Hdue.
    + cbn [again due]. lia.
    + by rewrite (kept_enabled _ _ Hk).
    + lia.
    + lia.
Qed.

(** X11. The interval of [startAutoSave] saves every 30 seconds, and only
    a text that is not blank.  While the text stays as it is and no other
    save is pending, after [n] ms the page has written one record for each
    full 30 seconds that have passed, stamped at the multiples of 30000 ms
    since the start; when the text is blank it has written nothing. *)
Theorem startAutoSave_saves_every_30s `{Runtime} (w : World) (n : nat) :
  quiet (clock w + N.of_nat n) w →
  enabled (storage w) = true →
  writes (log (advance n (dispatch startAutoSave w)))
  = writes (log w)
    ++ interval_records (value w) (clock w) (N.to_nat (N.of_nat n / 30000)).
Proof.
  intros [Hwf Hq] Hen. unfold dispatch. rewrite startAutoSave_spec.
  set (t := interval_timer (next_timer w) (clock w + 30000)).
  match goal with |- context [advance n ?x] => set (w1 := x) end.
  assert (Hsole : sole is_save (clock w + N.of_nat n) w1 t).
  { split_and!.
    - unfold well_formed, w1. world_simpl. by apply fresh_ids_snoc.
    - unfold w1. world_simpl. apply elem_of_app. right. by apply list_elem_of_singleton.
    - unfold w1. world_simpl. intros s Hs Hk.
      apply elem_of_app in Hs as [Hs | Hs];
        [| left; by apply list_elem_of_singleton in Hs].
      right. apply Hq. by apply pending_saves_elem. }
  pose proof (N.div_mod (N.of_nat n) 30000 ltac:(done)) as Hdiv.
  pose proof (N.mod_lt (N.of_nat n) 30000 ltac:(done)) as Hmod.
  apply (interval_rounds (clock w + N.of_nat n) _ w1 t n Hsole); try done.
  rewrite N2Nat.id. set (q := N.of_nat n / 30000) in *.
  set (r := N.of_nat n mod 30000) in *. lia.
Qed.

Lemma startAutoSave_saves_every_30s_witness :
  let w := set_value (str "note") (fresh open_storage) in
  let n := N.to_nat 70000 in
  writes (log (@advance plain_runtime n (dispatch startAutoSave w)))
  = writes (log w)
    ++ @interval_records plain_runtime (value w) (clock w) (N.to_nat (N.of_nat n / 30000)).
Proof.
  intros w n.
  apply (@startAutoSave_saves_every_30s plain_runtime w n).
  - split; [split; constructor |]. intros t Ht. by apply elem_of_nil in Ht.
  - reflexivity.
Defined.

(** *** The animation of a counter *)

Lemma frames_S k e : Animation.frames (S k) e = Animation.frame (Animation.frames k e).
Proof. reflexivity. Qed.


Lemma frames_running k : ∀ cur inc new text,
  (∀ j, (1 ≤ j ≤ k)%nat → (cur + Z.of_nat j * inc)%Z ≠ new) →
  (1 ≤ k)%nat →
  Animation.frames k
    {| Animation.textContent := text;
       Animation.timer := Some {| Animation.current := cur; Animation.increment := inc;
                                  Animation.newValue := new |} |}
  = {| Animation.textContent := Some (cur + Z.of_nat k * inc)%Z;
       Animation.timer := Some {| Animation.current := (cur + Z.of_nat k * inc)%Z;
                                  Animation.increment := inc;
                                  Animation.newValue := new |} |}.
Proof.
  induction k as [| k IH]; intros cur inc new text Hne Hk; [lia |].
  rewrite frames_S. destruct k as [| k].
  - cbn. rewrite decide_False by (specialize (Hne 1%nat); lia).
    by replace (cur + Z.of_nat 1 * inc)%Z with (cur + inc)%Z by lia.
  - rewrite IH by (try lia; intros j Hj; apply Hne; lia).
    unfold Animation.frame. cbn [Animation.timer Animation.current Animation.increment
                                 Animation.newValue].
    replace (cur + Z.of_nat (S k) * inc + inc)%Z
      with (cur + Z.of_nat (S (S k)) * inc)%Z by lia.
    rewrite decide_False by (apply Hne; lia). done.
Qed.



(** X13. [animateNumber] with the value the counter already shows never
    comes to rest: the distance is 0, so the interval is started, with
    increment -1; its first firing writes one less than the value, and no
    later firing finds [current === newValue].  After [k] firings the
    element shows the value minus [k], and the interval is still
    running. *)
Theorem animateNumber_same_value_never_stops (text : option Z) (k : nat) :
  let v := default 0%Z text in
  Animation.frames (S k) (Animation.animateNumber text v)
  = {| Animation.textContent := Some (v - Z.of_nat (S k))%Z;
       Animation.timer := Some {| Animation.current := (v - Z.of_nat (S k))%Z;
                                  Animation.increment := (-1)%Z;
                                  Animation.newValue := v |} |}.
Proof.
  intros v. unfold Animation.animateNumber. fold v.
  rewrite Z.ltb_irrefl, Z.sub_diag.
  change (Z.abs 0 <=? 10)%Z with true. cbn beta iota.
  rewrite frames_running by (try lia; intros j Hj; lia).
  by replace (v + Z.of_nat (S k) * -1)%Z with (v - Z.of_nat (S k))%Z by lia.
Qed.

(** *** The page around the editor *)

Ltac unfold_page :=
  unfold page_try_catch, page_bind, page_gets, page_modify, page_ret, on_core in *.

Ltac page_simpl :=
  cbn [core data_theme style_fontSize fontSizeSlider saveBtn feedback_timers
       set_core set_data_theme set_style_fontSize set_fontSizeSlider set_saveBtn
       set_feedback_timers fst snd] in *.

Ltac page_step :=
  repeat first [ progress cbn beta iota zeta
               | rewrite showStatus_spec
               | progress page_simpl ].

Lemma toggleTheme_spec p :
  toggleTheme p
  = (Normal tt,
     let new := other_theme (data_theme p) in
     let p0 := set_data_theme (Some (str new)) p in
     match localStorage_setItem theme_key (str new) (core p) with
     | (Normal _, w1) =>
         set_core (showStatus (Msg ("Switched to " +:+ new +:+ " theme")) "success" w1).2 p0
     | (Throws e, w1) =>
         set_core (showStatus (Msg "Error changing theme") "error"
                     (set_log (log w1 ++ [ConsoleError "Error toggling theme:" e]) w1)).2 p0
     end).
Proof.
  unfold toggleTheme, other_theme. unfold_page. page_simpl. cbn zeta.
  destruct (localStorage_setItem theme_key _ (core p)) as [[[] | e] w1];
    unfold console_error, emit, modify; page_step; reflexivity.
Qed.

Lemma initializeTheme_spec p :
  initializeTheme p
  = (Normal tt,
     if enabled (storage (core p)) then
       set_data_theme
         (Some (or_default (items (storage (core p)) !! theme_key) (str "light")))
         (set_core (core p) p)
     else
       set_core (set_log (log (core p)
                          ++ [ConsoleError "Error initializing theme:" SecurityError])
                   (core p)) p).
Proof.
  unfold initializeTheme, localStorage_getItem. unfold_page.
  destruct (enabled (storage (core p))); reflexivity.
Qed.

(** X14. The theme a toggle switches to is the theme of the next visit:
    when the store takes the write, [toggleTheme] sets the attribute to
    light if it was dark and to dark otherwise, stores that name under
    [sam-theme] without touching the saved text, and [initializeTheme] on
    a page with this store sets the attribute to the same theme. *)
Theorem toggleTheme_is_restored (p p2 : Page) :
  enabled (storage (core p)) = true →
  accepts (storage (core p)) theme_key (str (other_theme (data_theme p))) = true →
  storage (core p2) = storage (core (toggleTheme p).2) →
  data_theme (toggleTheme p).2 = Some (str (other_theme (data_theme p)))
  ∧ items (storage (core (toggleTheme p).2)) !! storage_key
    = items (storage (core p)) !! storage_key
  ∧ (initializeTheme p2).1 = Normal tt
  ∧ data_theme (initializeTheme p2).2 = Some (str (other_theme (data_theme p))).
Proof.
  intros Hen Hacc Hst.
  assert (Hstore : storage (core (toggleTheme p).2)
                   = {| items := <[theme_key := str (other_theme (data_theme p))]>
                                   (items (storage (core p)));
                        enabled := true; accepts := accepts (storage (core p)) |}).
  { rewrite toggleTheme_spec. cbn zeta. cbn [snd].
    unfold localStorage_setItem. rewrite Hen, Hacc. page_simpl.
    match goal with |- context [showStatus ?m ?t ?x] =>
      destruct (showStatus_frame m t x) as (_ & _ & Hs & _) end.
    cbn zeta in Hs. rewrite Hs. by world_simpl. }
  split_and!.
  - rewrite toggleTheme_spec. cbn zeta. cbn [snd].
    by destruct (localStorage_setItem _ _ _) as [[[] | e] w1].
  - rewrite Hstore. cbn [items]. by rewrite lookup_insert_ne.
  - by rewrite initializeTheme_spec.
  - rewrite initializeTheme_spec. cbn [snd]. rewrite Hst, Hstore. cbn [enabled items].
    rewrite lookup_insert_eq. page_simpl.
    unfold other_theme. by destruct (decide _).
Qed.

Lemma toggleTheme_is_restored_witness :
  let p := set_data_theme (Some (str "dark")) (fresh_page open_storage) in
  let p2 := fresh_page (storage (core (toggleTheme p).2)) in
  data_theme (toggleTheme p).2 = Some (str (other_theme (data_theme p)))
  ∧ items (storage (core (toggleTheme p).2)) !! storage_key
    = items (storage (core p)) !! storage_key
  ∧ (initializeTheme p2).1 = Normal tt
  ∧ data_theme (initializeTheme p2).2 = Some (str (other_theme (data_theme p))).
Proof.
  intros p p2. apply (toggleTheme_is_restored p p2); reflexivity.
Defined.

(** X15. When the store refuses the write, [toggleTheme] has switched the
    theme of the page all the same: the attribute is set before
    [setItem] is called.  The store keeps what it had, the failure is
    logged, and the status says that changing the theme failed. *)
Theorem toggleTheme_switches_though_store_fails (p : Page) (st : Status) :
  enabled (storage (core p))
  && accepts (storage (core p)) theme_key (str (other_theme (data_theme p))) = false →
  statusMessage (core p) = Some st →
  let p1 := (toggleTheme p).2 in
  (toggleTheme p).1 = Normal tt
  ∧ data_theme p1 = Some (str (other_theme (data_theme p)))
  ∧ storage (core p1) = storage (core p)
  ∧ statusMessage (core p1)
    = Some {| status_text := Msg "Error changing theme"; status_class := "error";
              status_visible := true |}
  ∧ ∃ e, last (log (core p1)) = Some (ConsoleError "Error toggling theme:" e)
         ∧ (e = SecurityError ∨ e = QuotaExceededError).
Proof.
  intros Hfail Hst. cbn zeta. rewrite toggleTheme_spec. cbn zeta. cbn [fst snd].
  split; [done |].
  unfold localStorage_setItem.
  destruct (enabled (storage (core p))) eqn:Hen; cbn [andb] in Hfail.
  - rewrite Hfail. rewrite showStatus_spec. world_simpl. rewrite Hst. page_simpl. world_simpl.
    split_and!; try done. exists QuotaExceededError. split; [| by right].
    by rewrite last_app.
  - rewrite showStatus_spec. world_simpl. rewrite Hst. page_simpl. world_simpl.
    split_and!; try done. exists SecurityError. split; [| by left].
    by rewrite last_app.
Qed.

Lemma toggleTheme_switches_though_store_fails_witness :
  let p := set_data_theme (Some (str "light")) (fresh_page full_storage) in
  let p1 := (toggleTheme p).2 in
  (toggleTheme p).1 = Normal tt
  ∧ data_theme p1 = Some (str (other_theme (data_theme p)))
  ∧ storage (core p1) = storage (core p)
  ∧ statusMessage (core p1)
    = Some {| status_text := Msg "Error changing theme"; status_class := "error";
              status_visible := true |}
  ∧ ∃ e, last (log (core p1)) = Some (ConsoleError "Error toggling theme:" e)
         ∧ (e = SecurityError ∨ e = QuotaExceededError).
Proof.
  intros p. eapply (toggleTheme_switches_though_store_fails p); reflexivity.
Defined.

(** X16. Whatever the store does, [toggleTheme] returns normally and
    switches the attribute: dark becomes light, and anything else, also a
    missing attribute or an unknown name, becomes dark.  Two toggles give
    dark back for dark and light in every other case. *)
Theorem toggleTheme_alternates (p : Page) :
  let p1 := (toggleTheme p).2 in
  let p2 := (toggleTheme p1).2 in
  (toggleTheme p).1 = Normal tt
  ∧ data_theme p1
    = Some (if decide (data_theme p = Some (str "dark")) then str "light" else str "dark")
  ∧ data_theme p2
    = Some (if decide (data_theme p = Some (str "dark")) then str "dark" else str "light").
Proof.
  assert (Hone : ∀ q, data_theme (toggleTheme q).2 = Some (str (other_theme (data_theme q)))).
  { intros q. rewrite toggleTheme_spec. cbn zeta. cbn [snd].
    by destruct (localStorage_setItem _ _ _) as [[[] | e] w1]. }
  cbn zeta. split; [by rewrite toggleTheme_spec |].
  rewrite !Hone. unfold other_theme.
  destruct (decide (data_theme p = Some (str "dark"))) as [E | Hne].
  - split; [done |]. by rewrite decide_False by (by vm_compute).
  - split; [done |]. by rewrite decide_True by (by vm_compute).
Qed.

Lemma handleFontSizeChange_spec fontSize p :
  handleFontSizeChange fontSize p
  = (Normal tt,
     let p0 := set_style_fontSize (fontSize ++ str "px") p in
     match localStorage_setItem font_size_key fontSize (core p) with
     | (Normal _, w1) => set_core w1 p0
     | (Throws e, w1) =>
         set_core (set_log (log w1 ++ [ConsoleError "Error changing font size:" e]) w1) p0
     end).
Proof.
  unfold handleFontSizeChange. unfold_page. page_simpl. cbn zeta.
  destruct (localStorage_setItem font_size_key _ (core p)) as [[[] | e] w1];
    unfold console_error, emit, modify; page_step; reflexivity.
Qed.

Lemma initializeFontSize_spec p :
  initializeFontSize p
  = (Normal tt,
     if enabled (storage (core p)) then
       let saved := or_default (items (storage (core p)) !! font_size_key) (str "16") in
       set_style_fontSize (saved ++ str "px")
         (match fontSizeSlider p with
          | Some _ => set_fontSizeSlider (Some saved) (set_core (core p) p)
          | None => set_core (core p) p
          end)
     else
       set_core (set_log (log (core p)
                          ++ [ConsoleError "Error initializing font size:" SecurityError])
                   (core p)) p).
Proof.
  unfold initializeFontSize, localStorage_getItem. unfold_page.
  destruct (enabled (storage (core p))); [| reflexivity].
  page_simpl. by destruct (fontSizeSlider p).
Qed.

(** X17. The font size chosen with the slider is the font size of the next
    visit: [handleFontSizeChange] assigns the value with [px] to the
    textarea's font size, and when the store takes the write and the value
    is not empty, [initializeFontSize] on a page with this store assigns
    the same size and gives the slider, if there is one, the value. *)
Theorem handleFontSizeChange_is_restored (fontSize : jsstring) (p p2 : Page) :
  fontSize ≠ [] →
  enabled (storage (core p)) = true →
  accepts (storage (core p)) font_size_key fontSize = true →
  storage (core p2) = storage (core (handleFontSizeChange fontSize p).2) →
  style_fontSize (handleFontSizeChange fontSize p).2 = fontSize ++ str "px"
  ∧ items (storage (core (handleFontSizeChange fontSize p).2)) !! storage_key
    = items (storage (core p)) !! storage_key
  ∧ (initializeFontSize p2).1 = Normal tt
  ∧ style_fontSize (initializeFontSize p2).2 = fontSize ++ str "px"
  ∧ fontSizeSlider (initializeFontSize p2).2 = (λ _, fontSize) <$> fontSizeSlider p2.
Proof.
  intros Hne Hen Hacc Hst.
  rewrite handleFontSizeChange_spec in *. cbn zeta in *. cbn [snd] in *.
  unfold localStorage_setItem in *. rewrite Hen, Hacc in *. page_simpl. world_simpl.
  rewrite initializeFontSize_spec. cbn [fst snd]. rewrite Hst. cbn [enabled items].
  rewrite lookup_insert_eq, lookup_insert_ne by done.
  assert (Hd : or_default (Some fontSize) (str "16") = fontSize) by (by destruct fontSize).
  rewrite Hd. cbn zeta.
  destruct (fontSizeSlider p2) eqn:E; page_simpl; rewrite ?E;
    cbn [fmap option_fmap option_map]; by split_and!.
Qed.

Lemma handleFontSizeChange_is_restored_witness :
  let p := fresh_page open_storage in
  let p2 := fresh_page (storage (core (handleFontSizeChange (str "20") p).2)) in
  style_fontSize (handleFontSizeChange (str "20") p).2 = str "20" ++ str "px"
  ∧ items (storage (core (handleFontSizeChange (str "20") p).2)) !! storage_key
    = items (storage (core p)) !! storage_key
  ∧ (initializeFontSize p2).1 = Normal tt
  ∧ style_fontSize (initializeFontSize p2).2 = str "20" ++ str "px"
  ∧ fontSizeSlider (initializeFontSize p2).2 = (λ _, str "20") <$> fontSizeSlider p2.
Proof.
  intros p p2.
  apply (handleFontSizeChange_is_restored (str "20") p p2);
    [vm_compute; congruence | reflexivity | reflexivity | reflexivity].
Defined.

(** X18. What a visit starts with.  With a store that holds no theme and no
    font size, [initializeTheme] sets the theme light and
    [initializeFontSize] the size 16px, on the slider 16.  Without
    storage, [getItem] throws before these defaults are reached: the theme
    attribute, the font size and the slider stay as the page had them, and
    each of the two logs its error. *)
Theorem initialize_defaults (p : Page) :
  items (storage (core p)) !! theme_key = None →
  items (storage (core p)) !! font_size_key = None →
  (initializeTheme p).1 = Normal tt ∧ (initializeFontSize p).1 = Normal tt
  ∧ if enabled (storage (core p)) then
      data_theme (initializeTheme p).2 = Some (str "light")
      ∧ style_fontSize (initializeFontSize p).2 = str "16px"
      ∧ fontSizeSlider (initializeFontSize p).2 = (λ _, str "16") <$> fontSizeSlider p
    else
      data_theme (initializeTheme p).2 = data_theme p
      ∧ style_fontSize (initializeFontSize p).2 = style_fontSize p
      ∧ fontSizeSlider (initializeFontSize p).2 = fontSizeSlider p
      ∧ log (core (initializeTheme p).2)
        = log (core p) ++ [ConsoleError "Error initializing theme:" SecurityError]
      ∧ log (core (initializeFontSize p).2)
        = log (core p) ++ [ConsoleError "Error initializing font size:" SecurityError].
Proof.
  intros Ht Hf. rewrite initializeTheme_spec, initializeFontSize_spec. cbn [fst snd].
  split; [done |]. split; [done |].
  destruct (enabled (storage (core p))).
  - rewrite Ht, Hf. cbn zeta.
    destruct (fontSizeSlider p) eqn:E; page_simpl; rewrite ?E;
      cbn [fmap option_fmap option_map]; by split_and!.
  - by page_simpl.
Qed.

Lemma initialize_defaults_witness :
  let p := set_data_theme (Some (str "dark")) (fresh_page no_storage) in
  (initializeTheme p).1 = Normal tt ∧ (initializeFontSize p).1 = Normal tt
  ∧ if enabled (storage (core p)) then
      data_theme (initializeTheme p).2 = Some (str "light")
      ∧ style_fontSize (initializeFontSize p).2 = str "16px"
      ∧ fontSizeSlider (initializeFontSize p).2 = (λ _, str "16") <$> fontSizeSlider p
    else
      data_theme (initializeTheme p).2 = data_theme p
      ∧ style_fontSize (initializeFontSize p).2 = style_fontSize p
      ∧ fontSizeSlider (initializeFontSize p).2 = fontSizeSlider p
      ∧ log (core (initializeTheme p).2)
        = log (core p) ++ [ConsoleError "Error initializing theme:" SecurityError]
      ∧ log (core (initializeFontSize p).2)
        = log (core p) ++ [ConsoleError "Error initializing font size:" SecurityError].
Proof.
  intros p. apply (initialize_defaults p); reflexivity.
Defined.

(** *** The save button *)

Lemma saveContent_spec `{Runtime} p :
  saveContent p
  = (Normal tt,
     let w1 := (saveToLocalStorage (core p)).2 in
     let w2 := (showStatus (Msg "Content saved successfully!") "success" w1).2 in
     match saveBtn p with
     | Some _ =>
         set_feedback_timers
           (feedback_timers p ++ [(next_timer w2, clock w2 + 1000, SavedOff)])
           (set_core (set_next_timer (S (next_timer w2)) w2) (set_saveBtn (Some true) p))
     | None => set_core w2 p
     end).
Proof.
  unfold saveContent, page_setTimeout. unfold_page.
  pose proof (saveToLocalStorage_spec (core p)) as Hs.
  destruct (saveToLocalStorage (core p)) as [[[] | e] w1] eqn:Es; [| done].
  cbn [snd]. page_step. destruct (saveBtn p); page_step; reflexivity.
Qed.

(** X19. [saveContent] always reports success.  [saveToLocalStorage]
    swallows its own failures, so the [catch] of [saveContent] is never
    entered: whatever the store does, the status says that the content
    was saved and the button shows its feedback, also when the store has
    refused the write and still holds what it held before. *)
Theorem saveContent_always_reports_success `{Runtime} (p : Page) (st : Status) :
  statusMessage (core p) = Some st →
  let p1 := (saveContent p).2 in
  (saveContent p).1 = Normal tt
  ∧ statusMessage (core p1)
    = Some {| status_text := Msg "Content saved successfully!";
              status_class := "success"; status_visible := true |}
  ∧ saveBtn p1 = (λ _, true) <$> saveBtn p
  ∧ value (core p1) = value (core p)
  ∧ writes (log (core p1))
    = writes (log (core p))
      ++ (if enabled (storage (core p))
          then [(storage_key, record_text (core p))] else [])
  ∧ (enabled (storage (core p))
     && accepts (storage (core p)) storage_key (record_text (core p)) = false →
     items (storage (core p1)) = items (storage (core p))).
Proof.
  intros Hst. cbn zeta. rewrite saveContent_spec. cbn zeta. cbn [fst snd].
  split; [done |].
  pose proof (saveToLocalStorage_frame (core p)) as Hf. cbn zeta in Hf.
  destruct Hf as (Hv & _ & _ & _ & _ & Hsm & _).
  pose proof (saveToLocalStorage_writes (core p)) as Hw.
  assert (Hitems : enabled (storage (core p))
                   && accepts (storage (core p)) storage_key (record_text (core p)) = false →
                   items (storage (saveToLocalStorage (core p)).2) = items (storage (core p))).
  { rewrite saveToLocalStorage_spec. cbn [snd].
    destruct (enabled (storage (core p))); [| done].
    destruct (accepts _ _ _); [done |]. done. }
  set (w1 := (saveToLocalStorage (core p)).2) in *.
  rewrite showStatus_spec. cbn [snd]. rewrite Hsm, Hst.
  destruct (saveBtn p) eqn:E; page_simpl; world_simpl; rewrite ?E;
    cbn [fmap option_fmap option_map]; split_and!; try done.
Qed.

Lemma saveContent_always_reports_success_witness :
  let p := set_core (set_value (str "text") (fresh full_storage)) (fresh_page full_storage) in
  let p1 := (@saveContent plain_runtime p).2 in
  (@saveContent plain_runtime p).1 = Normal tt
  ∧ statusMessage (core p1)
    = Some {| status_text := Msg "Content saved successfully!";
              status_class := "success"; status_visible := true |}
  ∧ saveBtn p1 = (λ _, true) <$> saveBtn p
  ∧ value (core p1) = value (core p)
  ∧ writes (log (core p1))
    = writes (log (core p))
      ++ (if enabled (storage (core p))
          then [(storage_key, @record_text plain_runtime (core p))] else [])
  ∧ (enabled (storage (core p))
     && accepts (storage (core p)) storage_key (@record_text plain_runtime (core p)) = false →
     items (storage (core p1)) = items (storage (core p))).
Proof.
  intros p. eapply (@saveContent_always_reports_success plain_runtime p). reflexivity.
Defined.

(** *** The message of a restore *)

(** X20. A restore tells the age of what it restores, in whole minutes,
    when that is less than an hour.  For a record written by
    [saveToLocalStorage] at time [t0] whose timestamp [new Date] reads
    back as [t0], [loadSavedContent] at time [clock w] shows `Restored
    content from N minutes ago` with [N = floor((clock w - t0) / 60000)]
    when [N < 60], and leaves the status as it was otherwise.  [N] is
    negative when the record is stamped later than the clock reads. *)
Theorem loadSavedContent_announces_age `{Runtime}
    (content : jsstring) (t0 : N) (w : World) (st : Status) :
  N.of_nat (length content) < 2 ^ 53 →
  Date_toISOString t0 ≠ [] →
  Date_construct (JStr (Date_toISOString t0)) = Normal (Some (Z.of_N t0)) →
  enabled (storage w) = true →
  items (storage w) !! storage_key
  = Some (JSON_stringify (saved_data content (Date_toISOString t0))) →
  statusMessage w = Some st →
  let minutes := ((Z.of_N (clock w) - Z.of_N t0) / 60000)%Z in
  value (loadSavedContent w).2 = content
  ∧ statusMessage (loadSavedContent w).2
    = if (minutes <? 60)%Z
      then Some {| status_text := MsgRestored minutes; status_class := "info";
                   status_visible := true |}
      else Some st.
Proof.
  intros Hlen Hts Hdate Hen Hitem Hst minutes.
  split; [by apply (loadSavedContent_record w content (Date_toISOString t0)) |].
  unfold loadSavedContent, localStorage_getItem, console_error.
  unfold_js. rewrite Hen, Hitem.
  pose proof (JSON_roundtrip content (Date_toISOString t0) Hlen) as Hparse.
  destruct (JSON_stringify (saved_data content (Date_toISOString t0))) as [| c text];
    [done |].
  rewrite Hparse. cbn beta iota.
  rewrite saved_data_content. cbn beta iota. rewrite ToString_string. cbn beta iota.
  rewrite updateStats_spec. cbn beta iota.
  change (get_property (saved_data content (Date_toISOString t0)) (str "timestamp"))
    with (Normal (Some (JStr (Date_toISOString t0)))).
  cbn beta iota. unfold truthy. rewrite decide_False by done. rewrite Hdate.
  cbn beta iota. world_simpl. fold minutes.
  destruct (minutes <? 60)%Z; [| by world_simpl].
  rewrite showStatus_spec. world_simpl. rewrite Hst. by world_simpl.
Qed.

Lemma loadSavedContent_announces_age_witness :
  let content := str "kept" in
  let t0 := 1000 in
  let w := set_clock 601000
             (fresh (storage_holding
                       (@JSON_stringify reading_runtime
                          (saved_data content (@Date_toISOString reading_runtime t0))))) in
  let minutes := ((Z.of_N (clock w) - Z.of_N t0) / 60000)%Z in
  value (@loadSavedContent reading_runtime w).2 = content
  ∧ statusMessage (@loadSavedContent reading_runtime w).2
    = if (minutes <? 60)%Z
      then Some {| status_text := MsgRestored minutes; status_class := "info";
                   status_visible := true |}
      else Some {| status_text := Msg ""; status_class := ""; status_visible := false |}.
Proof.
  intros content t0 w.
  apply (@loadSavedContent_announces_age reading_runtime content t0 w);
    [vm_compute; reflexivity | vm_compute; congruence | vm_compute; reflexivity
    | reflexivity | reflexivity | reflexivity].
Defined.

(** *** Shift+Tab and the end of the selection *)

Lemma join_lines_app (l1 l2 : list jsstring) :
  l1 ≠ [] → l2 ≠ [] → join [10] (l1 ++ l2) = join [10] l1 ++ 10 :: join [10] l2.
Proof.
  induction l1 as [| p [| q l1] IH]; intros H1 H2; [done | |].
  - destruct l2; [done |]. reflexivity.
  - change (join [10] ((p :: q :: l1) ++ l2))
      with (p ++ [10] ++ join [10] ((q :: l1) ++ l2)).
    rewrite IH by done.
    change (join [10] (p :: q :: l1)) with (p ++ [10] ++ join [10] (q :: l1)).
    by rewrite <- !app_assoc.
Qed.

(** X21. A selection that ends right behind a newline reaches into the
    next line: Shift+Tab with the selection from [start], somewhere in
    [a], to the position behind the newline that follows [a] treats [a] as
    a selection up to its end would, and also takes the tab off the line
    after the newline, none of whose characters is selected. *)
Theorem removeIndentation_reaches_line_after_newline
    (a b : jsstring) (start : nat) (w : World) :
  (start ≤ length a)%nat →
  value (removeIndentation start (length a + 1) (set_value (a ++ 10 :: 9 :: b) w)).2
  = value (removeIndentation start (length a) (set_value a w)).2 ++ 10 :: b.
Proof.
  intros Hstart.
  destruct (removeIndentation_run (set_value (a ++ 10 :: 9 :: b) w) start (length a + 1))
    as (lt & -> & Hlen_t & Hget_t).
  destruct (removeIndentation_run (set_value a w) start (length a))
    as (la & -> & Hlen_a & Hget_a).
  world_simpl.
  pose proof (split_on_nonempty 10 b) as Hb.
  destruct (split_on 10 b) as [| l0 rest] eqn:Eb; [done |].
  assert (Hsplit : split_on 10 (a ++ 10 :: 9 :: b) = split_on 10 a ++ (9 :: l0) :: rest).
  { rewrite split_on_app_sep. f_equal. simpl. by rewrite Eb. }
  assert (Hla : length (split_on 10 a) = S (count_char 10 a)) by apply split_on_length.
  assert (Hcount : (count_char 10 (take start a) ≤ count_char 10 a)%nat).
  { rewrite <- (take_drop start a) at 2. rewrite count_char_app. lia. }
  assert (Htouch_t : ∀ j, touched (a ++ 10 :: 9 :: b) start (length a + 1) j
                          = bool_decide (count_char 10 (take start a) ≤ j
                                         ≤ length (split_on 10 a))%nat).
  { intros j. unfold touched. rewrite !line_of_count.
    rewrite take_app_le by done.
    replace (take (length a + 1) (a ++ 10 :: 9 :: b)) with (a ++ [10]).
    2:{ rewrite take_app_ge by lia.
        replace (length a + 1 - length a)%nat with 1%nat by lia. done. }
    rewrite count_char_app. change (count_char 10 [10]) with 1%nat.
    apply bool_decide_ext. lia. }
  assert (Htouch_a : ∀ j, touched a start (length a) j
                          = bool_decide (count_char 10 (take start a) ≤ j
                                         ≤ count_char 10 a)%nat).
  { intros j. unfold touched. rewrite !line_of_count. by rewrite firstn_all. }
  assert (Hlines : lt = la ++ l0 :: rest).
  { apply list_eq. intros j. rewrite Hget_t, Htouch_t, Hsplit.
    destruct (Nat.lt_trichotomy j (length (split_on 10 a))) as [Hj | [-> | Hj]].
    - rewrite !lookup_app_l by lia. rewrite Hget_a, Htouch_a.
      destruct (decide (count_char 10 (take start a) ≤ j)%nat).
      + by rewrite !bool_decide_eq_true_2 by lia.
      + by rewrite !bool_decide_eq_false_2 by lia.
    - rewrite bool_decide_eq_true_2 by lia.
      rewrite list_lookup_middle by done. rewrite list_lookup_middle by lia. done.
    - rewrite bool_decide_eq_false_2 by lia.
      rewrite !lookup_app_r by lia. rewrite Hlen_a.
      destruct (j - length (split_on 10 a))%nat eqn:E; [lia | done]. }
  rewrite Hlines, join_lines_app; [| | done].
  - f_equal. f_equal. rewrite <- Eb. apply join_split_on.
  - intros ->. simpl in Hlen_a. lia.
Qed.

Lemma removeIndentation_reaches_line_after_newline_witness :
  value (removeIndentation 2 (length (str "    one") + 1)
           (set_value (str "    one" ++ 10 :: 9 :: str "two") (fresh open_storage))).2
  = value (removeIndentation 2 (length (str "    one"))
             (set_value (str "    one") (fresh open_storage))).2 ++ 10 :: str "two".
Proof.
  apply (removeIndentation_reaches_line_after_newline (str "    one") (str "two") 2).
  simpl. lia.
Defined.

(* ===================================================================== *)
(** ** Newlines in a textarea *)
(* ===================================================================== *)

Lemma normalize_newlines_cons c c' rest :
  normalize_newlines (c :: c' :: rest)
  = if c =? 13
    then 10 :: (if c' =? 10 then normalize_newlines rest
                else normalize_newlines (c' :: rest))
    else c :: normalize_newlines (c' :: rest).
Proof. reflexivity. Qed.

Lemma crlf_to_lf_cons c c' rest :
  crlf_to_lf (c :: c' :: rest)
  = if (c =? 13) && (c' =? 10) then 10 :: crlf_to_lf rest
    else c :: crlf_to_lf (c' :: rest).
Proof. reflexivity. Qed.

(** The one pass of [normalize_newlines] does what the two passes of the
    HTML Standard do. *)
Lemma normalize_newlines_two_passes s :
  normalize_newlines s = cr_to_lf (crlf_to_lf s).
Proof.
  remember (length s) as n eqn:Hn. revert s Hn.
  induction n as [n IH] using lt_wf_ind. intros s Hn.
  destruct s as [| c [| c' rest]].
  - reflexivity.
  - cbn. by destruct (c =? 13).
  - rewrite normalize_newlines_cons, crlf_to_lf_cons.
    assert (IH1 : normalize_newlines rest = cr_to_lf (crlf_to_lf rest)).
    { apply (IH (length rest)); [subst n; cbn; lia | done]. }
    assert (IH2 : normalize_newlines (c' :: rest)
                  = cr_to_lf (crlf_to_lf (c' :: rest))).
    { apply (IH (length (c' :: rest))); [subst n; cbn; lia | done]. }
    rewrite IH1, IH2. unfold cr_to_lf.
    destruct (c =? 13) eqn:Ec; cbn [andb].
    + destruct (c' =? 10) eqn:Ec'; rewrite fmap_cons; cbn beta.
      * done.
      * by rewrite Ec.
    + rewrite fmap_cons. cbn beta. by rewrite Ec.
Qed.

(** A text without carriage returns is taken as it is. *)
Lemma normalize_newlines_plain s : 13 ∉ s → normalize_newlines s = s.
Proof.
  induction s as [| c rest IH]; [done |].
  intros Hno. apply not_elem_of_cons in Hno as [Hc Hrest].
  cbn [normalize_newlines].
  destruct (N.eqb_spec c 13) as [-> | _]; [done |]. by rewrite IH.
Qed.

(** What a textarea returns holds no carriage return. *)
Lemma normalize_newlines_no_cr s : 13 ∉ normalize_newlines s.
Proof.
  rewrite normalize_newlines_two_passes. unfold cr_to_lf.
  intros Hin. apply list_elem_of_fmap in Hin as (c & Hc & _).
  destruct (N.eqb_spec c 13); [done | by subst].
Qed.

Lemma normalize_newlines_again s :
  normalize_newlines (normalize_newlines s) = normalize_newlines s.
Proof. apply normalize_newlines_plain, normalize_newlines_no_cr. Qed.

(* ===================================================================== *)
(** ** Restoring into a textarea *)
(* ===================================================================== *)

Lemma lookup_member_none k fields :
  no_member k fields → lookup_member k fields = None.
Proof.
  induction fields as [| [k' v'] rest IH]; [done |].
  intros Hno. apply Forall_cons in Hno as [Hk Hrest]. cbn [fst] in Hk.
  cbn [lookup_member]. rewrite (IH Hrest). by rewrite decide_False.
Qed.

(** Property lookup finds the last member of the name. *)
Lemma lookup_member_last k v fields :
  last_member k v fields → lookup_member k fields = Some v.
Proof.
  intros (pre & post & -> & Hpost).
  induction pre as [| [k' v'] pre IH].
  - cbn [app lookup_member]. rewrite (lookup_member_none k post Hpost).
    by rewrite decide_True.
  - cbn [app lookup_member]. cbn [app] in IH. by rewrite IH.
Qed.

Lemma restore_returns `{Runtime} w : (Textarea.loadSavedContent w).1 = Normal tt.
Proof.
  unfold Textarea.loadSavedContent, try_catch, console_error, emit, modify.
  match goal with |- (match ?x with _ => _ end).1 = _ =>
    destruct x as [[[] | e] w1] end; reflexivity.
Qed.

(** Storage is disabled, the key is absent, or the stored text is empty or
    does not parse: the textarea is not assigned; what goes to the console
    tells the three apart. *)
Lemma restore_absent `{Runtime} w :
  (enabled (storage w) = false →
   (Textarea.loadSavedContent w).2
   = set_log (log w ++ [ConsoleError "Error loading saved content:" SecurityError]) w)
  ∧ (enabled (storage w) = true → items (storage w) !! storage_key = None →
     (Textarea.loadSavedContent w).2 = w)
  ∧ (∀ text, enabled (storage w) = true →
       items (storage w) !! storage_key = Some text → JSON_parse text = None →
       (Textarea.loadSavedContent w).2
       = if decide (text = []) then w
         else set_log (log w ++ [ConsoleError "Error loading saved content:"
                                   SyntaxError]) w).
Proof.
  unfold Textarea.loadSavedContent, localStorage_getItem, console_error.
  unfold_js. split_and!.
  - intros ->. done.
  - intros -> ->. done.
  - intros text -> -> Hparse. destruct text as [| c text]; [done |].
    rewrite Hparse. done.
Qed.

(** The stored text parses: the textarea receives the string conversion of
    [data.content || ''], and returns it with its newlines normalised. *)
Lemma restore_parsed `{Runtime} w text data x v :
  enabled (storage w) = true →
  items (storage w) !! storage_key = Some text →
  JSON_parse text = Some data →
  get_property data (str "content") = Normal x →
  ToString (or_empty x) = Normal v →
  value (Textarea.loadSavedContent w).2 = normalize_newlines v
  ∧ ∃ rest, log (Textarea.loadSavedContent w).2
            = log w ++ counter_events (set_value (normalize_newlines v) w) ++ rest.
Proof.
  intros Hen Hsome Hparse Hx Hv.
  assert (Hts : ∃ y, get_property data (str "timestamp") = Normal y).
  { destruct data; try done; eauto. }
  destruct Hts as [y Hy].
  unfold Textarea.loadSavedContent, Textarea.assign, localStorage_getItem, console_error.
  unfold_js. rewrite Hen, Hsome.
  destruct text as [| c text]; [done |].
  rewrite Hparse. cbn beta iota. rewrite Hx. cbn beta iota. rewrite Hv.
  cbn beta iota. rewrite updateStats_spec. cbn beta iota. rewrite Hy.
  step_js; world_simpl; (split; [done |]);
    first [ by exists []; rewrite app_nil_r
          | by eexists; rewrite <- app_assoc ].
Qed.

(** The stored text parses, and reading [data.content] or converting it
    throws: the exception is caught, and the textarea is not assigned. *)
Lemma restore_throws `{Runtime} w text data :
  enabled (storage w) = true →
  items (storage w) !! storage_key = Some text →
  JSON_parse text = Some data →
  (∀ e, get_property data (str "content") = Throws e →
        (Textarea.loadSavedContent w).2
        = set_log (log w ++ [ConsoleError "Error loading saved content:" e]) w)
  ∧ (∀ x e, get_property data (str "content") = Normal x →
            ToString (or_empty x) = Throws e →
            (Textarea.loadSavedContent w).2
            = set_log (log w ++ [ConsoleError "Error loading saved content:" e]) w).
Proof.
  intros Hen Hsome Hparse.
  unfold Textarea.loadSavedContent, localStorage_getItem, console_error.
  unfold_js. rewrite Hen, Hsome.
  destruct text as [| c text]; [done |].
  rewrite Hparse. cbn beta iota. split.
  - intros e ->. done.
  - intros x e -> Hv. cbn beta iota. rewrite Hv. done.
Qed.

Lemma restore_value_absent `{Runtime} w :
  enabled (storage w) = false
  ∨ items (storage w) !! storage_key = None
  ∨ (∃ text, items (storage w) !! storage_key = Some text ∧ JSON_parse text = None) →
  value (Textarea.loadSavedContent w).2 = value w.
Proof.
  destruct (restore_absent w) as (Hoff & Hnone & Hbad).
  destruct (enabled (storage w)) eqn:Hen; [| intros _; by rewrite Hoff].
  intros [? | [Hkey | (text & Hkey & Hparse)]]; [done | by rewrite Hnone |].
  rewrite (Hbad text) by done. by destruct (decide (text = [])).
Qed.

(** C7. Restoring never throws, and its result is what the textarea holds
    afterwards.  When the fixed key holds text that parses to an object,
    the textarea holds the stored [content] with its newlines as a textarea
    returns them (each CR LF, and each CR left, is LF): the last member of
    that name when the text repeats it, converted to a string when it is
    none, and the empty string when [content] is missing or falsy.  Text
    that parses to a number, a string, a boolean or an array has no
    [content] and gives the empty string.  The textarea is left as it is
    when the text parses to [null], when the content cannot be converted,
    when the text does not parse, when the key is absent, and when storage
    cannot be read: at its default, the empty string, when the page has
    just been set up. *)
Theorem loadSavedContent_restores_into_textarea `{Runtime} (w : World) :
  let r := Textarea.loadSavedContent w in
  r.1 = Normal tt
  ∧ (∀ text fields,
       holds w text → JSON_parse text = Some (JObj fields) →
       (∀ s, last_member (str "content") (JStr s) fields →
             value r.2 = normalize_newlines s)
       ∧ (no_member (str "content") fields → value r.2 = [])
       ∧ (∀ v, last_member (str "content") v fields →
               if truthy v
               then match ToString v with
                    | Normal t => value r.2 = normalize_newlines t
                    | Throws _ => value r.2 = value w
                    end
               else value r.2 = []))
  ∧ (∀ text data,
       holds w text → JSON_parse text = Some data →
       data ≠ JNull → (∀ fields, data ≠ JObj fields) → value r.2 = [])
  ∧ (∀ text, holds w text → JSON_parse text = Some JNull → value r.2 = value w)
  ∧ (∀ text,
       items (storage w) !! storage_key = Some text →
       JSON_parse text = None → value r.2 = value w)
  ∧ (items (storage w) !! storage_key = None → value r.2 = value w)
  ∧ (enabled (storage w) = false → value r.2 = value w)
  ∧ (value w = [] →
     items (storage w) !! storage_key = None
     ∨ (∃ text, items (storage w) !! storage_key = Some text ∧ JSON_parse text = None) →
     value r.2 = []).
Proof.
  cbn zeta. split; [apply restore_returns |].
  split; [| split; [| split; [| split; [| split; [| split]]]]].
  - intros text fields [Hen Hkey] Hparse.
    assert (Hconv : ∀ v, last_member (str "content") v fields →
              if truthy v
              then match ToString v with
                   | Normal t => value (Textarea.loadSavedContent w).2
                                 = normalize_newlines t
                   | Throws _ => value (Textarea.loadSavedContent w).2 = value w
                   end
              else value (Textarea.loadSavedContent w).2 = []).
    { intros v Hlast.
      assert (Hprop : get_property (JObj fields) (str "content") = Normal (Some v)).
      { cbn [get_property]. by rewrite (lookup_member_last _ _ _ Hlast). }
      destruct (truthy v) eqn:Htruthy.
      - destruct (ToString v) as [t | e] eqn:Hstr.
        + apply (restore_parsed w text (JObj fields) (Some v) t); try done.
          cbn [or_empty]. by rewrite Htruthy.
        + destruct (restore_throws w text (JObj fields) Hen Hkey Hparse) as [_ Hthrows].
          rewrite (Hthrows (Some v) e Hprop); [by world_simpl |].
          cbn [or_empty]. by rewrite Htruthy.
      - apply (restore_parsed w text (JObj fields) (Some v) []); try done.
        cbn [or_empty]. by rewrite Htruthy. }
    split; [| split; [| exact Hconv]].
    + intros s Hlast. specialize (Hconv (JStr s) Hlast).
      cbn [truthy ToString] in Hconv.
      destruct (decide (s = [])) as [-> |]; done.
    + intros Hno.
      apply (restore_parsed w text (JObj fields) None []); try done.
      cbn [get_property]. by rewrite (lookup_member_none _ _ Hno).
  - intros text data [Hen Hkey] Hparse Hnull Hobj.
    apply (restore_parsed w text data None []); try done.
    destruct data; try done. by destruct (Hobj fields).
  - intros text [Hen Hkey] Hparse.
    destruct (restore_throws w text JNull Hen Hkey Hparse) as [Hthrows _].
    rewrite (Hthrows TypeError); [by world_simpl | done].
  - intros text Hkey Hparse. apply restore_value_absent. right. right. eauto.
  - intros Hnone. apply restore_value_absent. by right; left.
  - intros Hoff. apply restore_value_absent. by left.
  - intros Hempty Hcase. rewrite <- Hempty. apply restore_value_absent. by right.
Qed.

(** C7 on a page just set up whose store holds [cr_record]: the object
    has one member, the content with CR LF and a lone CR. *)
Lemma loadSavedContent_restores_into_textarea_witness :
  let rt := plain_runtime in
  let w := fresh (storage_holding cr_record) in
  holds w cr_record
  ∧ JSON_parse cr_record = Some (JObj [(str "content", JStr [97; 13; 10; 98; 13; 99])])
  ∧ last_member (str "content") (JStr [97; 13; 10; 98; 13; 99])
      [(str "content", JStr [97; 13; 10; 98; 13; 99])]
  ∧ value (Textarea.loadSavedContent w).2 = normalize_newlines [97; 13; 10; 98; 13; 99].
Proof.
  cbv zeta.
  assert (Hholds : holds (fresh (storage_holding cr_record)) cr_record)
    by (split; reflexivity).
  assert (Hparse : JSON_parse cr_record
                   = Some (JObj [(str "content", JStr [97; 13; 10; 98; 13; 99])]))
    by (vm_compute; reflexivity).
  assert (Hlast : last_member (str "content") (JStr [97; 13; 10; 98; 13; 99])
                    [(str "content", JStr [97; 13; 10; 98; 13; 99])])
    by (exists [], []; split; [reflexivity | constructor]).
  split; [exact Hholds |]. split; [exact Hparse |]. split; [exact Hlast |].
  exact (proj1 (proj1 (proj2 (@loadSavedContent_restores_into_textarea plain_runtime
                                (fresh (storage_holding cr_record))))
                  cr_record _ Hholds Hparse)
           _ Hlast).
Defined.

(** C7, as the claim words it, fails on stored text that parses.  The
    content of [cr_record] holds carriage returns, and the textarea holds
    another string after the restore; the text [null] parses, and the
    restore leaves a draft in the textarea, neither the stored fields nor
    the empty string. *)
Lemma restore_differs_from_stored_fields :
  let rt := plain_runtime in
  let stored := [97; 13; 10; 98; 13; 99] in
  let w := fresh (storage_holding cr_record) in
  let w' := set_value (str "draft") (fresh (storage_holding (str "null"))) in
  JSON_parse cr_record = Some (JObj [(str "content", JStr stored)])
  ∧ value (Textarea.loadSavedContent w).2 = [97; 10; 98; 10; 99]
  ∧ value (Textarea.loadSavedContent w).2 ≠ stored
  ∧ JSON_parse (str "null") = Some JNull
  ∧ value (Textarea.loadSavedContent w').2 = str "draft"
  ∧ value (Textarea.loadSavedContent w').2 ≠ [].
Proof. vm_compute. split_and!; done. Qed.

(** Where the stored content holds no carriage return, the textarea hands
    back what it was given, and [loadSavedContent] may be read with a plain
    assignment. *)
Lemma restore_plain `{Runtime} w :
  (∀ text data x v,
     holds w text → JSON_parse text = Some data →
     get_property data (str "content") = Normal x →
     ToString (or_empty x) = Normal v → 13 ∉ v) →
  Textarea.loadSavedContent w = loadSavedContent w.
Proof.
  intros Hplain.
  unfold Textarea.loadSavedContent, loadSavedContent, Textarea.assign,
    localStorage_getItem, console_error.
  unfold_js.
  destruct (enabled (storage w)) eqn:Hen; [| done].
  destruct (items (storage w) !! storage_key) as [[| c text] |] eqn:Hkey; [done | | done].
  destruct (JSON_parse (c :: text)) as [data |] eqn:Hparse; [| done].
  cbn beta iota.
  destruct (get_property data (str "content")) as [x | e] eqn:Hx; [| done].
  cbn beta iota.
  destruct (ToString (or_empty x)) as [v | e] eqn:Hv; [| done].
  by rewrite (normalize_newlines_plain v)
    by (by apply (Hplain (c :: text) data x v)).
Qed.

(** So it is for every record the page has saved from a textarea. *)
Lemma restore_saved_record `{Runtime} w content timestamp :
  N.of_nat (length content) < 2 ^ 53 →
  13 ∉ content →
  holds w (JSON_stringify (saved_data content timestamp)) →
  Textarea.loadSavedContent w = loadSavedContent w
  ∧ value (Textarea.loadSavedContent w).2 = content.
Proof.
  intros Hlen Hplain Hholds.
  assert (Heq : Textarea.loadSavedContent w = loadSavedContent w).
  { apply restore_plain. intros text data x v [_ Hkey] Hparse Hx Hv.
    destruct Hholds as [_ Hkey'].
    assert (text = JSON_stringify (saved_data content timestamp)) as ->
      by congruence.
    assert (data = saved_data content timestamp) as ->
      by (rewrite JSON_roundtrip in Hparse by done; congruence).
    assert (x = Some (JStr content)) as ->
      by (rewrite saved_data_content in Hx; congruence).
    assert (v = content) as -> by (rewrite ToString_string in Hv; congruence).
    done. }
  split; [done |]. rewrite Heq. destruct Hholds as [Hen Hkey].
  by apply (loadSavedContent_record w content timestamp).
Qed.

(** Restoring into a textarea, on a page just set up.  A content with
    CR LF and a lone CR comes back as three lines of five characters, and
    the counters are set from them; a numeric content is converted; a
    content of zero, a record without content and text that is a number
    give the empty string; [null] and text that does not parse leave the
    textarea as it is and go to the console. *)
Example restore_into_textarea_examples :
  let rt := plain_runtime in
  let restore := λ text, Textarea.loadSavedContent (fresh (storage_holding text)) in
  let object := λ name member,
    123 :: QuoteJSONString (str name) ++ 58 :: member ++ [125] in
  value (restore cr_record).2 = [97; 10; 98; 10; 99]
  ∧ log (restore cr_record).2
    = [AnimateNumber CharCount 5; AnimateNumber WordCount 3; AnimateNumber LineCount 3]
  ∧ value (loadSavedContent (fresh (storage_holding cr_record))).2
    = [97; 13; 10; 98; 13; 99]
  ∧ value (restore (object "content" (QuoteJSONString (str "kept")))).2 = str "kept"
  ∧ value (restore (object "content" (str "true"))).2 = str "true"
  ∧ value (restore (object "content" (str "0"))).2 = []
  ∧ value (restore (object "timestamp" (QuoteJSONString (str "x")))).2 = []
  ∧ value (restore (str "12")).2 = []
  ∧ log (restore (str "null")).2
    = [ConsoleError "Error loading saved content:" TypeError]
  ∧ log (restore (str "{not json")).2
    = [ConsoleError "Error loading saved content:" SyntaxError]
  ∧ (restore (object "content" (object "toString" (str "1")))).2
    = set_log [ConsoleError "Error loading saved content:" TypeError]
        (fresh (storage_holding (object "content" (object "toString" (str "1"))))).
Proof. vm_compute. split_and!; reflexivity. Qed.

(* ===================================================================== *)
(** ** The debounced save among edits and keys *)
(* ===================================================================== *)

(** A key changes the text and calls for the counters; the timers, the
    fields that hold their ids, the clock and the store are not touched. *)
Lemma keydown_spec key shiftKey start end_ w :
  ∃ text events,
    keydown key shiftKey start end_ w
    = set_log (log w ++ events) (set_value text w)
    ∧ writes events = []
    ∧ (key ≠ "Tab" → text = value w ∧ events = []).
Proof.
  unfold keydown, dispatch. unfold_js.
  destruct (decide (key = "Tab")) as [-> | Hne].
  - destruct shiftKey.
    + rewrite handleKeyDown_shift_tab.
      destruct (removeIndentation_run w start end_) as (ls & -> & _).
      cbn beta iota zeta. world_simpl.
      exists (join [10] ls), (counter_events (set_value (join [10] ls) w)).
      split; [by destruct w |].
      split; [apply counter_events_silent | done].
    + rewrite handleKeyDown_tab. cbn beta iota zeta. world_simpl.
      eexists _, _. split; [by destruct w |].
      split; [apply counter_events_silent | done].
  - unfold handleKeyDown. rewrite decide_False by done. unfold_js. cbn beta iota.
    exists (value w), []. rewrite app_nil_r. by destruct w.
Qed.

Lemma keydown_armed horizon key shiftKey start end_ w c d :
  armed horizon w c d →
  let w' := keydown key shiftKey start end_ w in
  armed horizon w' (value w') d
  ∧ clock w' = clock w ∧ storage w' = storage w
  ∧ writes (log w') = writes (log w)
  ∧ (key ≠ "Tab" → value w' = value w).
Proof.
  intros (_ & Hwf & id & Hid & Hin & Hothers). cbn zeta.
  destruct (keydown_spec key shiftKey start end_ w) as (text & events & -> & Hev & Hne).
  world_simpl. rewrite writes_app, Hev, app_nil_r.
  split; [| split_and!; try done; intros Hk; by destruct (Hne Hk)].
  split; [done |]. split; [done |]. exists id. done.
Qed.

Lemma span_cons gap s steps : span ((gap, s) :: steps) = (gap + span steps)%nat.
Proof. reflexivity. Qed.

(** As long as every step comes within the delay, one save stays scheduled,
    for two seconds after the last edit, and nothing is written.  The text
    is that of the last edit unless Tab went down after it. *)
Lemma run_armed `{Runtime} horizon steps : ∀ w since d tab c,
  armed horizon w (value w) d →
  d + N.of_nat since = clock w + 2000 →
  (since < 2000)%nat →
  in_window since steps →
  clock w + N.of_nat (span steps) ≤ horizon →
  (tab = false → value w = c) →
  armed horizon (run steps w) (value (run steps w))
    (clock (run steps w) + 2000 - N.of_nat (since_edit since steps))
  ∧ (since_edit since steps < 2000)%nat
  ∧ clock (run steps w) = clock w + N.of_nat (span steps)
  ∧ storage (run steps w) = storage w
  ∧ writes (log (run steps w)) = writes (log w)
  ∧ (tab_since_edit tab steps = false → value (run steps w) = last_edit c steps).
Proof.
  induction steps as [| [gap s] steps IH]; intros w since d tab c Ha Hd Hs Hwin Hh Htab.
  - cbn [run since_edit span foldr tab_since_edit last_edit].
    replace (clock w + 2000 - N.of_nat since) with d by lia.
    split_and!; try done. lia.
  - rewrite span_cons in Hh.
    assert (Hgap : (since + gap < 2000)%nat) by (destruct s; apply Hwin).
    destruct (advance_armed horizon gap w (value w) d Ha)
      as (Ha1 & Hc1 & Hst1 & Hl1); [lia | lia |].
    destruct s as [content | key shiftKey start end_].
    + destruct Hwin as [_ Hwin].
      destruct (input_arms horizon content (advance gap w)) as (Ha2 & Hc2 & Hst2 & Hw2);
        [right; eauto |].
      rewrite <- Hc2 in Ha2.
      assert (Hv2 : value (input content (advance gap w)) = content) by apply Ha2.
      rewrite <- Hv2 in Ha2 at 2.
      destruct (IH (input content (advance gap w)) 0%nat _ false content Ha2)
        as (Ha3 & Hs3 & Hc3 & Hst3 & Hw3 & Hv3); [lia | lia | done | lia | done |].
      cbn [run act since_edit tab_since_edit last_edit].
      split; [exact Ha3 |].
      rewrite span_cons, Hc3, Hst3, Hw3, Hc2, Hst2, Hw2, Hc1, Hst1, Hl1.
      split_and!; try done. lia.
    + destruct Hwin as [_ Hwin].
      destruct (keydown_armed horizon key shiftKey start end_ (advance gap w)
                  (value w) d Ha1) as (Ha2 & Hc2 & Hst2 & Hw2 & Hv2).
      destruct (IH (keydown key shiftKey start end_ (advance gap w))
                  (since + gap)%nat d (tab || bool_decide (key = "Tab")) c Ha2)
        as (Ha3 & Hs3 & Hc3 & Hst3 & Hw3 & Hv3); [lia | done | done | lia | |].
      { intros Hnone. apply orb_false_elim in Hnone as [-> Hkey].
        apply bool_decide_eq_false in Hkey. rewrite (Hv2 Hkey).
        destruct Ha1 as [-> _]. by apply Htab. }
      cbn [run act since_edit tab_since_edit last_edit].
      split; [exact Ha3 |].
      rewrite span_cons, Hc3, Hst3, Hw3, Hc2, Hst2, Hw2, Hc1, Hst1, Hl1.
      split_and!; try done. lia.
Qed.

(** C5. Edits, each within the two-second delay of the one before, with
    keys going down among and after them, and then no further edit: every
    edit cancels the save scheduled by the one before, so one save is
    pending after the last edit, nothing is written during the burst, and
    when no other save is due in the meantime exactly one write follows,
    two seconds after the last edit.  Its record holds the text the
    textarea holds at that moment: the content of the last edit unless Tab
    went down after it. *)
Theorem debounce_writes_textarea_once `{Runtime}
    (w0 : World) (gap0 : nat) (c0 : jsstring)
    (more : list (nat * step)) (rest : nat) :
  let steps := (gap0, Edit c0) :: more in
  let horizon := clock w0 + N.of_nat (span steps + rest) in
  let w1 := run steps w0 in
  let w2 := advance rest w1 in
  let fired := clock w1 + 2000 - N.of_nat (since_edit 0 more) in
  well_formed w0 →
  Forall (λ t, horizon < due t) (pending_saves w0) →
  enabled (storage w0) = true →
  in_window 0 more →
  (2000 ≤ since_edit 0 more + rest)%nat →
  N.of_nat (length (value w1)) < 2 ^ 53 →
  (∃ id, autoSaveTimer w1 = Some id
         ∧ save_timer id fired ∈ timers w1
         ∧ ∀ t, t ∈ pending_saves w1 → t = save_timer id fired ∨ horizon < due t)
  ∧ writes (log w1) = writes (log w0)
  ∧ (∃ text data,
       writes (log w2) = writes (log w0) ++ [(storage_key, text)]
       ∧ JSON_parse text = Some data
       ∧ get_property data (str "content") = Normal (Some (JStr (value w1)))
       ∧ get_property data (str "timestamp")
         = Normal (Some (JStr (Date_toISOString fired))))
  ∧ value w2 = value w1
  ∧ (tab_since_edit false more = false → value w1 = last_edit c0 more)
  ∧ ∀ t, t ∈ pending_saves w2 → horizon < due t.
Proof.
  intros steps horizon w1 w2 fired Hwf Hothers Hen Hwin Hrest Hlen.
  assert (Hq0 : quiet horizon w0).
  { split; [done |]. intros t Ht. by apply (proj1 (Forall_forall _ _) Hothers). }
  assert (Hspan : span steps = (gap0 + span more)%nat) by reflexivity.
  destruct (advance_quiet horizon gap0 w0 Hq0) as (Hq1 & Hc1 & _ & Hst1 & Hl1);
    [unfold horizon; lia |].
  destruct (input_arms horizon c0 (advance gap0 w0)) as (Ha2 & Hc2 & Hst2 & Hw2);
    [by left |].
  rewrite <- Hc2 in Ha2.
  assert (Hv2 : value (input c0 (advance gap0 w0)) = c0) by apply Ha2.
  rewrite <- Hv2 in Ha2 at 2.
  destruct (run_armed horizon more (input c0 (advance gap0 w0)) 0%nat _ false c0 Ha2)
    as (Ha3 & Hs3 & Hc3 & Hst3 & Hw3 & Hv3);
    [lia | lia | done | unfold horizon; lia | done |].
  assert (Ew1 : run more (input c0 (advance gap0 w0)) = w1) by reflexivity.
  rewrite Ew1 in *. fold fired in Ha3. clearbody w1.
  assert (Hen1 : enabled (storage w1) = true) by (by rewrite Hst3, Hst2, Hst1).
  destruct (advance_fires horizon rest w1 (value w1) fired Ha3)
    as (Hq4 & Hc4 & Hv4 & Hen4 & Hw4);
    [unfold fired; lia | unfold fired; lia | unfold horizon; lia |].
  subst w2.
  destruct Ha3 as (_ & _ & Hone). destruct Hq4 as [_ Hq4].
  rewrite Hen1 in Hw4.
  split; [exact Hone |]. split; [by rewrite Hw3, Hw2, Hl1 |].
  split; [| by split_and!].
  exists (JSON_stringify (saved_data (value w1) (Date_toISOString fired))),
         (saved_data (value w1) (Date_toISOString fired)).
  split; [by rewrite Hw4, Hw3, Hw2, Hl1 |].
  split; [by apply JSON_roundtrip | done].
Qed.

(** C5 on a page whose 30-second interval is running: the edit ["a"],
    [sample_steps] with the edit ["ab"] and a Tab behind it, then 0.6
    seconds without input.  The save scheduled at 1600 fires at 3600 and
    writes the text with the tab. *)
Lemma debounce_writes_textarea_once_witness :
  let rt := plain_runtime in
  let w0 := started open_storage in
  let steps := (100%nat, Edit (str "a")) :: sample_steps in
  let horizon := clock w0 + N.of_nat (span steps + 600) in
  let w1 := run steps w0 in
  let w2 := advance 600 w1 in
  let fired := clock w1 + 2000 - N.of_nat (since_edit 0 sample_steps) in
  (∃ id, autoSaveTimer w1 = Some id
         ∧ save_timer id fired ∈ timers w1
         ∧ ∀ t, t ∈ pending_saves w1 → t = save_timer id fired ∨ horizon < due t)
  ∧ writes (log w1) = writes (log w0)
  ∧ (∃ text data,
       writes (log w2) = writes (log w0) ++ [(storage_key, text)]
       ∧ JSON_parse text = Some data
       ∧ get_property data (str "content") = Normal (Some (JStr (value w1)))
       ∧ get_property data (str "timestamp")
         = Normal (Some (JStr (Date_toISOString fired))))
  ∧ value w2 = value w1
  ∧ (tab_since_edit false sample_steps = false
     → value w1 = last_edit (str "a") sample_steps)
  ∧ ∀ t, t ∈ pending_saves w2 → horizon < due t.
Proof.
  apply (@debounce_writes_textarea_once plain_runtime (started open_storage)
           100 (str "a") sample_steps 600).
  - split; [apply NoDup_singleton | by repeat constructor].
  - repeat constructor.
  - reflexivity.
  - cbn [in_window sample_steps]. split_and!; [lia | lia | lia | done].
  - apply Nat.leb_le. vm_compute. reflexivity.
  - vm_compute. reflexivity.
Defined.

(** C5, as the claim words it, fails on two counts.  After the edit ["a"]
    Tab goes down behind the [a] half a second later: [handleKeyDown]
    assigns the text with the tab and schedules nothing, so the edit is the
    last call, and the one write, at two seconds, holds the text with the
    tab, not the content of the last call.  And on a page whose 30-second
    interval is running, a single edit made at 29 seconds is written
    twice: by the interval at 30 seconds and by the scheduled save at
    31. *)
Lemma debounce_write_differs_from_last_call :
  let rt := plain_runtime in
  let w1 := input (str "a") (fresh open_storage) in
  let w2 := keydown "Tab" false 1 1 (advance 500 w1) in
  let w3 := advance 1500 w2 in
  let v1 := input (str "a") (advance (N.to_nat 29000) (started open_storage)) in
  let v2 := advance 2000 v1 in
  value w1 = str "a"
  ∧ pending_saves w2 = pending_saves w1
  ∧ written_contents w3 = [Some (str "a" ++ [9])]
  ∧ written_contents w3 ≠ [Some (value w1)]
  ∧ written_contents v1 = []
  ∧ written_contents v2 = [Some (str "a"); Some (str "a")]
  ∧ length (writes (log v2)) ≠ 1%nat.
Proof. vm_compute. split_and!; done. Qed.

(** The run of the witness: the text with the tab is what the textarea
    holds when the save fires at 3600, and what is written; the interval
    has not had its turn. *)
Example debounce_run_with_tab :
  let rt := plain_runtime in
  let w1 := run ((100%nat, Edit (str "a")) :: sample_steps) (started open_storage) in
  let w2 := advance 600 w1 in
  value w1 = str "ab" ++ [9]
  ∧ clock w1 = 3100
  ∧ written_contents w1 = []
  ∧ written_contents w2 = [Some (str "ab" ++ [9])]
  ∧ (JSON_parse <$> (snd <$> writes (log w2)))
    = [Some (saved_data (str "ab" ++ [9]) (str "T3600"))]
  ∧ pending_saves w2
    = [{| tid := 1; due := 30000; cb := CbIntervalSave; period := Some 30000 |}].
Proof. vm_compute. split_and!; reflexivity. Qed.

(** A burst of edits is a run without keys. *)
Lemma typing_run `{Runtime} keys : ∀ w,
  typing keys w = run (prod_map id Edit <$> keys) w.
Proof.
  induction keys as [| [gap content] keys IH]; intros w; [done |].
  cbn [typing]. rewrite fmap_cons. cbn [prod_map fst snd id run act]. apply IH.
Qed.
